(** * SOLI ontology client: ingestion, graph index, traversal and search

    A shallow embedding of [soli/graph.py] and [soli/models.py].  The
    parser, the indices, the traversal and the search functions are
    written as functions over an explicit [SOLI] state; Python's
    dictionaries that are iterated keep their insertion order
    ([odict]), the ones that are only looked up are [gmap]s.  Code that
    can raise returns a [result]. *)

From stdpp Require Import gmap strings list fin_maps sorting.
From Stdlib Require Import ZArith Lia Ascii.

(** ** Outcomes of code that may raise *)

Inductive exn : Type :=
| IndexError | AttributeError | RuntimeError | TypeError | ValueError.

(** [NoFuel] is the recursion budget of a fuelled definition running
    out; it is not a Python exception. *)
Inductive result (A : Type) : Type :=
| Ok (a : A)
| Raise (e : exn)
| NoFuel.

Arguments Ok {A} a.
Arguments Raise {A} e.
Arguments NoFuel {A}.

Definition rbind {A B} (m : result A) (f : A -> result B) : result B :=
  match m with
  | Ok a => f a
  | Raise e => Raise e
  | NoFuel => NoFuel
  end.

Notation "'let*' x ':=' m 'in' k" := (rbind m (fun x => k))
  (at level 10, x pattern, m at level 100, k at level 200).

(** A [for] loop whose body may raise. *)
Fixpoint for_each {A S} (body : A -> S -> result S) (l : list A) (s : S)
  : result S :=
  match l with
  | [] => Ok s
  | x :: l' => let* s' := body x s in for_each body l' s'
  end.

(** ** Strings *)

(** [s.startswith(p)] *)
Fixpoint startswith (s p : string) {struct p} : bool :=
  match p with
  | EmptyString => true
  | String c p' =>
      match s with
      | EmptyString => false
      | String d s' => Ascii.eqb d c && startswith s' p'
      end
  end.

(** [s[n:]] *)
Fixpoint string_drop (n : nat) (s : string) : string :=
  match n with
  | O => s
  | S n' => match s with
            | EmptyString => EmptyString
            | String _ s' => string_drop n' s'
            end
  end.

(** [s.count(c)] for a one-character [c] *)
Fixpoint count_char (c : ascii) (s : string) : nat :=
  match s with
  | EmptyString => O
  | String d s' => (if Ascii.eqb d c then 1 else 0) + count_char c s'
  end.

(** Truth value of an [Optional[str]]: [None] and the empty string are
    false. *)
Definition truthy (o : option string) : option string :=
  match o with
  | Some EmptyString => None
  | _ => o
  end.

(** ** Dictionaries that keep insertion order *)

Definition odict (V : Type) : Type := list (string * V).

Fixpoint od_get {V} (k : string) (d : odict V) : option V :=
  match d with
  | [] => None
  | (k', v) :: d' => if String.eqb k' k then Some v else od_get k d'
  end.

(** [d[k] = v]: an existing key keeps its place, a new key goes last. *)
Fixpoint od_set {V} (k : string) (v : V) (d : odict V) : odict V :=
  match d with
  | [] => [(k, v)]
  | (k', v') :: d' =>
      if String.eqb k' k then (k', v) :: d' else (k', v') :: od_set k v d'
  end.

Definition od_keys {V} (d : odict V) : list string := map fst d.

(** [d.get(k, [])] *)
Definition od_get_list {A} (k : string) (d : odict (list A)) : list A :=
  match od_get k d with
  | Some l => l
  | None => []
  end.

(** [sorted(l, key=...)]: a stable insertion sort; [le x y] compares the
    keys of [x] and [y]. *)
Fixpoint sorted_insert {A} (le : A -> A -> bool) (x : A) (l : list A)
  : list A :=
  match l with
  | [] => [x]
  | y :: l' => if le x y then x :: y :: l' else y :: sorted_insert le x l'
  end.

Definition sorted {A} (le : A -> A -> bool) (l : list A) : list A :=
  foldr (sorted_insert le) [] l.

Definition len_le (x y : string) : bool :=
  Nat.leb (String.length x) (String.length y).

(** ** XML elements, as lxml presents them *)

#[local] Unset Elimination Schemes.
Inductive Element : Type :=
  mkElement {
    tag : string;
    attrib : odict string;
    text : option string;
    getchildren : list Element
  }.
#[local] Set Elimination Schemes.

(** ** models.py *)

Definition NSMAP : list (option string * string) :=
  [ (None, "https://soli.openlegalstandard.org/");
    (Some "dc", "http://purl.org/dc/elements/1.1/");
    (Some "v1", "http://www.loc.gov/mads/rdf/v1#");
    (Some "owl", "http://www.w3.org/2002/07/owl#");
    (Some "rdf", "http://www.w3.org/1999/02/22-rdf-syntax-ns#");
    (Some "xsd", "http://www.w3.org/2001/XMLSchema#");
    (Some "soli", "https://soli.openlegalstandard.org/");
    (Some "rdfs", "http://www.w3.org/2000/01/rdf-schema#");
    (Some "skos", "http://www.w3.org/2004/02/skos/core#");
    (Some "xml", "http://www.w3.org/XML/1998/namespace") ].

Fixpoint nsmap_get (ns : string) (m : list (option string * string))
  : option string :=
  match m with
  | [] => None
  | (Some k, v) :: m' => if String.eqb k ns then Some v else nsmap_get ns m'
  | (None, _) :: m' => nsmap_get ns m'
  end.

Record OWLClass : Type := Build_OWLClass {
  iri : string;
  label : option string;
  sub_class_of : list string;
  parent_class_of : list string;
  is_defined_by : option string;
  see_also : list (option string);
  comment : option string;
  deprecated : bool;
  preferred_label : option string;
  alternative_labels : list (option string);
  translations : odict (option string);
  hidden_label : option string;
  definition : option string;
  examples : list (option string);
  notes : list (option string);
  history_note : option string;
  editorial_note : option string;
  in_scheme : option string;
  identifier : option string;
  description : option string;
  source : option string;
  country : option string
}.

Definition set_label (v : option string) (c : OWLClass) : OWLClass :=
  {| iri := iri c; label := v; sub_class_of := sub_class_of c;
     parent_class_of := parent_class_of c; is_defined_by := is_defined_by c;
     see_also := see_also c; comment := comment c;
     deprecated := deprecated c; preferred_label := preferred_label c;
     alternative_labels := alternative_labels c;
     translations := translations c; hidden_label := hidden_label c;
     definition := definition c; examples := examples c; notes := notes c;
     history_note := history_note c; editorial_note := editorial_note c;
     in_scheme := in_scheme c; identifier := identifier c;
     description := description c; source := source c;
     country := country c |}.

Definition set_sub_class_of (v : list string) (c : OWLClass) : OWLClass :=
  {| iri := iri c; label := label c; sub_class_of := v;
     parent_class_of := parent_class_of c; is_defined_by := is_defined_by c;
     see_also := see_also c; comment := comment c;
     deprecated := deprecated c; preferred_label := preferred_label c;
     alternative_labels := alternative_labels c;
     translations := translations c; hidden_label := hidden_label c;
     definition := definition c; examples := examples c; notes := notes c;
     history_note := history_note c; editorial_note := editorial_note c;
     in_scheme := in_scheme c; identifier := identifier c;
     description := description c; source := source c;
     country := country c |}.

Definition set_parent_class_of (v : list string) (c : OWLClass) : OWLClass :=
  {| iri := iri c; label := label c; sub_class_of := sub_class_of c;
     parent_class_of := v; is_defined_by := is_defined_by c;
     see_also := see_also c; comment := comment c;
     deprecated := deprecated c; preferred_label := preferred_label c;
     alternative_labels := alternative_labels c;
     translations := translations c; hidden_label := hidden_label c;
     definition := definition c; examples := examples c; notes := notes c;
     history_note := history_note c; editorial_note := editorial_note c;
     in_scheme := in_scheme c; identifier := identifier c;
     description := description c; source := source c;
     country := country c |}.

Definition set_is_defined_by (v : option string) (c : OWLClass) : OWLClass :=
  {| iri := iri c; label := label c; sub_class_of := sub_class_of c;
     parent_class_of := parent_class_of c; is_defined_by := v;
     see_also := see_also c; comment := comment c;
     deprecated := deprecated c; preferred_label := preferred_label c;
     alternative_labels := alternative_labels c;
     translations := translations c; hidden_label := hidden_label c;
     definition := definition c; examples := examples c; notes := notes c;
     history_note := history_note c; editorial_note := editorial_note c;
     in_scheme := in_scheme c; identifier := identifier c;
     description := description c; source := source c;
     country := country c |}.

Definition set_see_also (v : list (option string)) (c : OWLClass) : OWLClass :=
  {| iri := iri c; label := label c; sub_class_of := sub_class_of c;
     parent_class_of := parent_class_of c; is_defined_by := is_defined_by c;
     see_also := v; comment := comment c; deprecated := deprecated c;
     preferred_label := preferred_label c;
     alternative_labels := alternative_labels c;
     translations := translations c; hidden_label := hidden_label c;
     definition := definition c; examples := examples c; notes := notes c;
     history_note := history_note c; editorial_note := editorial_note c;
     in_scheme := in_scheme c; identifier := identifier c;
     description := description c; source := source c;
     country := country c |}.

Definition set_comment (v : option string) (c : OWLClass) : OWLClass :=
  {| iri := iri c; label := label c; sub_class_of := sub_class_of c;
     parent_class_of := parent_class_of c; is_defined_by := is_defined_by c;
     see_also := see_also c; comment := v; deprecated := deprecated c;
     preferred_label := preferred_label c;
     alternative_labels := alternative_labels c;
     translations := translations c; hidden_label := hidden_label c;
     definition := definition c; examples := examples c; notes := notes c;
     history_note := history_note c; editorial_note := editorial_note c;
     in_scheme := in_scheme c; identifier := identifier c;
     description := description c; source := source c;
     country := country c |}.

Definition set_deprecated (v : bool) (c : OWLClass) : OWLClass :=
  {| iri := iri c; label := label c; sub_class_of := sub_class_of c;
     parent_class_of := parent_class_of c; is_defined_by := is_defined_by c;
     see_also := see_also c; comment := comment c; deprecated := v;
     preferred_label := preferred_label c;
     alternative_labels := alternative_labels c;
     translations := translations c; hidden_label := hidden_label c;
     definition := definition c; examples := examples c; notes := notes c;
     history_note := history_note c; editorial_note := editorial_note c;
     in_scheme := in_scheme c; identifier := identifier c;
     description := description c; source := source c;
     country := country c |}.

Definition set_preferred_label (v : option string) (c : OWLClass) : OWLClass :=
  {| iri := iri c; label := label c; sub_class_of := sub_class_of c;
     parent_class_of := parent_class_of c; is_defined_by := is_defined_by c;
     see_also := see_also c; comment := comment c;
     deprecated := deprecated c; preferred_label := v;
     alternative_labels := alternative_labels c;
     translations := translations c; hidden_label := hidden_label c;
     definition := definition c; examples := examples c; notes := notes c;
     history_note := history_note c; editorial_note := editorial_note c;
     in_scheme := in_scheme c; identifier := identifier c;
     description := description c; source := source c;
     country := country c |}.

Definition set_alternative_labels (v : list (option string)) (c : OWLClass) : OWLClass :=
  {| iri := iri c; label := label c; sub_class_of := sub_class_of c;
     parent_class_of := parent_class_of c; is_defined_by := is_defined_by c;
     see_also := see_also c; comment := comment c;
     deprecated := deprecated c; preferred_label := preferred_label c;
     alternative_labels := v; translations := translations c;
     hidden_label := hidden_label c; definition := definition c;
     examples := examples c; notes := notes c;
     history_note := history_note c; editorial_note := editorial_note c;
     in_scheme := in_scheme c; identifier := identifier c;
     description := description c; source := source c;
     country := country c |}.

Definition set_translations (v : odict (option string)) (c : OWLClass) : OWLClass :=
  {| iri := iri c; label := label c; sub_class_of := sub_class_of c;
     parent_class_of := parent_class_of c; is_defined_by := is_defined_by c;
     see_also := see_also c; comment := comment c;
     deprecated := deprecated c; preferred_label := preferred_label c;
     alternative_labels := alternative_labels c; translations := v;
     hidden_label := hidden_label c; definition := definition c;
     examples := examples c; notes := notes c;
     history_note := history_note c; editorial_note := editorial_note c;
     in_scheme := in_scheme c; identifier := identifier c;
     description := description c; source := source c;
     country := country c |}.

Definition set_hidden_label (v : option string) (c : OWLClass) : OWLClass :=
  {| iri := iri c; label := label c; sub_class_of := sub_class_of c;
     parent_class_of := parent_class_of c; is_defined_by := is_defined_by c;
     see_also := see_also c; comment := comment c;
     deprecated := deprecated c; preferred_label := preferred_label c;
     alternative_labels := alternative_labels c;
     translations := translations c; hidden_label := v;
     definition := definition c; examples := examples c; notes := notes c;
     history_note := history_note c; editorial_note := editorial_note c;
     in_scheme := in_scheme c; identifier := identifier c;
     description := description c; source := source c;
     country := country c |}.

Definition set_definition (v : option string) (c : OWLClass) : OWLClass :=
  {| iri := iri c; label := label c; sub_class_of := sub_class_of c;
     parent_class_of := parent_class_of c; is_defined_by := is_defined_by c;
     see_also := see_also c; comment := comment c;
     deprecated := deprecated c; preferred_label := preferred_label c;
     alternative_labels := alternative_labels c;
     translations := translations c; hidden_label := hidden_label c;
     definition := v; examples := examples c; notes := notes c;
     history_note := history_note c; editorial_note := editorial_note c;
     in_scheme := in_scheme c; identifier := identifier c;
     description := description c; source := source c;
     country := country c |}.

Definition set_examples (v : list (option string)) (c : OWLClass) : OWLClass :=
  {| iri := iri c; label := label c; sub_class_of := sub_class_of c;
     parent_class_of := parent_class_of c; is_defined_by := is_defined_by c;
     see_also := see_also c; comment := comment c;
     deprecated := deprecated c; preferred_label := preferred_label c;
     alternative_labels := alternative_labels c;
     translations := translations c; hidden_label := hidden_label c;
     definition := definition c; examples := v; notes := notes c;
     history_note := history_note c; editorial_note := editorial_note c;
     in_scheme := in_scheme c; identifier := identifier c;
     description := description c; source := source c;
     country := country c |}.

Definition set_notes (v : list (option string)) (c : OWLClass) : OWLClass :=
  {| iri := iri c; label := label c; sub_class_of := sub_class_of c;
     parent_class_of := parent_class_of c; is_defined_by := is_defined_by c;
     see_also := see_also c; comment := comment c;
     deprecated := deprecated c; preferred_label := preferred_label c;
     alternative_labels := alternative_labels c;
     translations := translations c; hidden_label := hidden_label c;
     definition := definition c; examples := examples c; notes := v;
     history_note := history_note c; editorial_note := editorial_note c;
     in_scheme := in_scheme c; identifier := identifier c;
     description := description c; source := source c;
     country := country c |}.

Definition set_history_note (v : option string) (c : OWLClass) : OWLClass :=
  {| iri := iri c; label := label c; sub_class_of := sub_class_of c;
     parent_class_of := parent_class_of c; is_defined_by := is_defined_by c;
     see_also := see_also c; comment := comment c;
     deprecated := deprecated c; preferred_label := preferred_label c;
     alternative_labels := alternative_labels c;
     translations := translations c; hidden_label := hidden_label c;
     definition := definition c; examples := examples c; notes := notes c;
     history_note := v; editorial_note := editorial_note c;
     in_scheme := in_scheme c; identifier := identifier c;
     description := description c; source := source c;
     country := country c |}.

Definition set_editorial_note (v : option string) (c : OWLClass) : OWLClass :=
  {| iri := iri c; label := label c; sub_class_of := sub_class_of c;
     parent_class_of := parent_class_of c; is_defined_by := is_defined_by c;
     see_also := see_also c; comment := comment c;
     deprecated := deprecated c; preferred_label := preferred_label c;
     alternative_labels := alternative_labels c;
     translations := translations c; hidden_label := hidden_label c;
     definition := definition c; examples := examples c; notes := notes c;
     history_note := history_note c; editorial_note := v;
     in_scheme := in_scheme c; identifier := identifier c;
     description := description c; source := source c;
     country := country c |}.

Definition set_in_scheme (v : option string) (c : OWLClass) : OWLClass :=
  {| iri := iri c; label := label c; sub_class_of := sub_class_of c;
     parent_class_of := parent_class_of c; is_defined_by := is_defined_by c;
     see_also := see_also c; comment := comment c;
     deprecated := deprecated c; preferred_label := preferred_label c;
     alternative_labels := alternative_labels c;
     translations := translations c; hidden_label := hidden_label c;
     definition := definition c; examples := examples c; notes := notes c;
     history_note := history_note c; editorial_note := editorial_note c;
     in_scheme := v; identifier := identifier c;
     description := description c; source := source c;
     country := country c |}.

Definition set_identifier (v : option string) (c : OWLClass) : OWLClass :=
  {| iri := iri c; label := label c; sub_class_of := sub_class_of c;
     parent_class_of := parent_class_of c; is_defined_by := is_defined_by c;
     see_also := see_also c; comment := comment c;
     deprecated := deprecated c; preferred_label := preferred_label c;
     alternative_labels := alternative_labels c;
     translations := translations c; hidden_label := hidden_label c;
     definition := definition c; examples := examples c; notes := notes c;
     history_note := history_note c; editorial_note := editorial_note c;
     in_scheme := in_scheme c; identifier := v; description := description c;
     source := source c; country := country c |}.

Definition set_description (v : option string) (c : OWLClass) : OWLClass :=
  {| iri := iri c; label := label c; sub_class_of := sub_class_of c;
     parent_class_of := parent_class_of c; is_defined_by := is_defined_by c;
     see_also := see_also c; comment := comment c;
     deprecated := deprecated c; preferred_label := preferred_label c;
     alternative_labels := alternative_labels c;
     translations := translations c; hidden_label := hidden_label c;
     definition := definition c; examples := examples c; notes := notes c;
     history_note := history_note c; editorial_note := editorial_note c;
     in_scheme := in_scheme c; identifier := identifier c; description := v;
     source := source c; country := country c |}.

Definition set_source (v : option string) (c : OWLClass) : OWLClass :=
  {| iri := iri c; label := label c; sub_class_of := sub_class_of c;
     parent_class_of := parent_class_of c; is_defined_by := is_defined_by c;
     see_also := see_also c; comment := comment c;
     deprecated := deprecated c; preferred_label := preferred_label c;
     alternative_labels := alternative_labels c;
     translations := translations c; hidden_label := hidden_label c;
     definition := definition c; examples := examples c; notes := notes c;
     history_note := history_note c; editorial_note := editorial_note c;
     in_scheme := in_scheme c; identifier := identifier c;
     description := description c; source := v; country := country c |}.

Definition set_country (v : option string) (c : OWLClass) : OWLClass :=
  {| iri := iri c; label := label c; sub_class_of := sub_class_of c;
     parent_class_of := parent_class_of c; is_defined_by := is_defined_by c;
     see_also := see_also c; comment := comment c;
     deprecated := deprecated c; preferred_label := preferred_label c;
     alternative_labels := alternative_labels c;
     translations := translations c; hidden_label := hidden_label c;
     definition := definition c; examples := examples c; notes := notes c;
     history_note := history_note c; editorial_note := editorial_note c;
     in_scheme := in_scheme c; identifier := identifier c;
     description := description c; source := source c; country := v |}.

Definition new_OWLClass (i : string) : OWLClass :=
  {| iri := i; label := None; sub_class_of := []; parent_class_of := [];
     is_defined_by := None; see_also := []; comment := None;
     deprecated := false; preferred_label := None; alternative_labels := [];
     translations := []; hidden_label := None; definition := None;
     examples := []; notes := []; history_note := None;
     editorial_note := None; in_scheme := None; identifier := None;
     description := None; source := None; country := None |}.

Definition is_valid (c : OWLClass) : bool :=
  match label c with
  | Some _ => true
  | None => false
  end.

(** ** graph.py: the ontology state *)

Definition OWL_THING : string := "http://www.w3.org/2002/07/owl#Thing".

Definition DEFAULT_MAX_DEPTH : Z := 16.

Definition MIN_PREFIX_LENGTH : nat := 3.

Definition Triple : Type := string * string * option string.

(** The label trie of the marisa_trie package: the set of its keys.
    [Trie_new] is [marisa_trie.Trie(keys)], [Trie_keys] is
    [trie.keys(prefix)].  The package fixes the order in which the keys
    come back; the callers here sort them again. *)
Definition Trie : Type := list string.

Definition Trie_new (keys : list string) : Trie := remove_dups keys.

Definition Trie_keys (t : Trie) (prefix : string) : list string :=
  List.filter (fun k => startswith k prefix) t.

(** What the module logger receives. *)
Inductive LogRecord : Type :=
| LogDebug (fmt arg : string)
| LogInfo (fmt arg : string)
| LogWarning (fmt arg : string).

Record SOLI : Type := Build_SOLI {
  title : option string;
  soli_description : option string;
  classes : list OWLClass;
  iri_to_index : gmap string nat;
  label_to_index : odict (list nat);
  alt_label_to_index : odict (list nat);
  class_edges : gmap string (list string);
  _cached_triples : list Triple;
  _label_trie : option Trie;
  _prefix_cache : gmap string (list (option OWLClass));
  triples : list Triple;
  LOGGER : list LogRecord
}.

Definition set_title (v : option string) (self : SOLI) : SOLI :=
  {| title := v; soli_description := soli_description self;
     classes := classes self; iri_to_index := iri_to_index self;
     label_to_index := label_to_index self;
     alt_label_to_index := alt_label_to_index self;
     class_edges := class_edges self;
     _cached_triples := _cached_triples self;
     _label_trie := _label_trie self; _prefix_cache := _prefix_cache self;
     triples := triples self; LOGGER := LOGGER self |}.

Definition set_soli_description (v : option string) (self : SOLI) : SOLI :=
  {| title := title self; soli_description := v; classes := classes self;
     iri_to_index := iri_to_index self;
     label_to_index := label_to_index self;
     alt_label_to_index := alt_label_to_index self;
     class_edges := class_edges self;
     _cached_triples := _cached_triples self;
     _label_trie := _label_trie self; _prefix_cache := _prefix_cache self;
     triples := triples self; LOGGER := LOGGER self |}.

Definition set_classes (v : list OWLClass) (self : SOLI) : SOLI :=
  {| title := title self; soli_description := soli_description self;
     classes := v; iri_to_index := iri_to_index self;
     label_to_index := label_to_index self;
     alt_label_to_index := alt_label_to_index self;
     class_edges := class_edges self;
     _cached_triples := _cached_triples self;
     _label_trie := _label_trie self; _prefix_cache := _prefix_cache self;
     triples := triples self; LOGGER := LOGGER self |}.

Definition set_iri_to_index (v : gmap string nat) (self : SOLI) : SOLI :=
  {| title := title self; soli_description := soli_description self;
     classes := classes self; iri_to_index := v;
     label_to_index := label_to_index self;
     alt_label_to_index := alt_label_to_index self;
     class_edges := class_edges self;
     _cached_triples := _cached_triples self;
     _label_trie := _label_trie self; _prefix_cache := _prefix_cache self;
     triples := triples self; LOGGER := LOGGER self |}.

Definition set_label_to_index (v : odict (list nat)) (self : SOLI) : SOLI :=
  {| title := title self; soli_description := soli_description self;
     classes := classes self; iri_to_index := iri_to_index self;
     label_to_index := v; alt_label_to_index := alt_label_to_index self;
     class_edges := class_edges self;
     _cached_triples := _cached_triples self;
     _label_trie := _label_trie self; _prefix_cache := _prefix_cache self;
     triples := triples self; LOGGER := LOGGER self |}.

Definition set_alt_label_to_index (v : odict (list nat)) (self : SOLI) : SOLI :=
  {| title := title self; soli_description := soli_description self;
     classes := classes self; iri_to_index := iri_to_index self;
     label_to_index := label_to_index self; alt_label_to_index := v;
     class_edges := class_edges self;
     _cached_triples := _cached_triples self;
     _label_trie := _label_trie self; _prefix_cache := _prefix_cache self;
     triples := triples self; LOGGER := LOGGER self |}.

Definition set_class_edges (v : gmap string (list string)) (self : SOLI) : SOLI :=
  {| title := title self; soli_description := soli_description self;
     classes := classes self; iri_to_index := iri_to_index self;
     label_to_index := label_to_index self;
     alt_label_to_index := alt_label_to_index self; class_edges := v;
     _cached_triples := _cached_triples self;
     _label_trie := _label_trie self; _prefix_cache := _prefix_cache self;
     triples := triples self; LOGGER := LOGGER self |}.

Definition set__cached_triples (v : list Triple) (self : SOLI) : SOLI :=
  {| title := title self; soli_description := soli_description self;
     classes := classes self; iri_to_index := iri_to_index self;
     label_to_index := label_to_index self;
     alt_label_to_index := alt_label_to_index self;
     class_edges := class_edges self; _cached_triples := v;
     _label_trie := _label_trie self; _prefix_cache := _prefix_cache self;
     triples := triples self; LOGGER := LOGGER self |}.

Definition set__label_trie (v : option Trie) (self : SOLI) : SOLI :=
  {| title := title self; soli_description := soli_description self;
     classes := classes self; iri_to_index := iri_to_index self;
     label_to_index := label_to_index self;
     alt_label_to_index := alt_label_to_index self;
     class_edges := class_edges self;
     _cached_triples := _cached_triples self; _label_trie := v;
     _prefix_cache := _prefix_cache self; triples := triples self;
     LOGGER := LOGGER self |}.

Definition set__prefix_cache (v : gmap string (list (option OWLClass))) (self : SOLI) : SOLI :=
  {| title := title self; soli_description := soli_description self;
     classes := classes self; iri_to_index := iri_to_index self;
     label_to_index := label_to_index self;
     alt_label_to_index := alt_label_to_index self;
     class_edges := class_edges self;
     _cached_triples := _cached_triples self;
     _label_trie := _label_trie self; _prefix_cache := v;
     triples := triples self; LOGGER := LOGGER self |}.

Definition set_triples (v : list Triple) (self : SOLI) : SOLI :=
  {| title := title self; soli_description := soli_description self;
     classes := classes self; iri_to_index := iri_to_index self;
     label_to_index := label_to_index self;
     alt_label_to_index := alt_label_to_index self;
     class_edges := class_edges self;
     _cached_triples := _cached_triples self;
     _label_trie := _label_trie self; _prefix_cache := _prefix_cache self;
     triples := v; LOGGER := LOGGER self |}.

Definition set_LOGGER (v : list LogRecord) (self : SOLI) : SOLI :=
  {| title := title self; soli_description := soli_description self;
     classes := classes self; iri_to_index := iri_to_index self;
     label_to_index := label_to_index self;
     alt_label_to_index := alt_label_to_index self;
     class_edges := class_edges self;
     _cached_triples := _cached_triples self;
     _label_trie := _label_trie self; _prefix_cache := _prefix_cache self;
     triples := triples self; LOGGER := v |}.


Definition new_SOLI : SOLI :=
  {| title := None; soli_description := None; classes := [];
     iri_to_index := ∅; label_to_index := []; alt_label_to_index := [];
     class_edges := ∅; _cached_triples := []; _label_trie := None;
     _prefix_cache := ∅; triples := []; LOGGER := [] |}.

Definition triples_append (t : Triple) (self : SOLI) : SOLI :=
  set_triples (triples self ++ [t]) self.

Definition log_append (r : LogRecord) (self : SOLI) : SOLI :=
  set_LOGGER (LOGGER self ++ [r]) self.

(** ** graph.py: namespaces and IRI normalization *)

Definition get_ns_tag (ns tag : string) : string :=
  match nsmap_get ns NSMAP with
  | Some uri => "{" +:+ uri +:+ "}" +:+ tag
  | None => tag
  end.

Definition normalize_iri (iri : string) : string :=
  if startswith iri "https://soli.openlegalstandard.org/" then iri
  else
    let iri :=
      if startswith iri "soli:"
      then string_drop (String.length "soli:") iri else iri in
    let iri :=
      if startswith iri "lmss:"
      then string_drop (String.length "lmss:") iri else iri in
    let iri :=
      if startswith iri "http://lmss.sali.org/"
      then string_drop (String.length "http://lmss.sali.org/") iri
      else iri in
    if Nat.eqb (count_char "/"%char iri) 0
    then "https://soli.openlegalstandard.org/" +:+ iri
    else iri.

(** ** graph.py: lookup *)

(** [item in self] *)
Definition contains (self : SOLI) (item : string) : bool :=
  match iri_to_index self !! normalize_iri item with
  | Some _ => true
  | None => false
  end.

(** [self.classes[item]] under [try: ... except IndexError: return None];
    Python counts a negative index from the end of the list. *)
Definition getitem_int (self : SOLI) (item : Z) : option OWLClass :=
  let n := Z.of_nat (length (classes self)) in
  if (0 <=? item)%Z then classes self !! Z.to_nat item
  else if (- n <=? item)%Z then classes self !! Z.to_nat (n + item)
  else None.

Definition getitem_str (self : SOLI) (item : string)
  : result (option OWLClass) :=
  match iri_to_index self !! normalize_iri item with
  | Some index =>
      match classes self !! index with
      | Some c => Ok (Some c)
      | None => Raise IndexError
      end
  | None => Ok None
  end.

Inductive Item : Type :=
| ItemInt (i : Z)
| ItemStr (s : string).

(** [self[item]] *)
Definition getitem (self : SOLI) (item : Item) : result (option OWLClass) :=
  match item with
  | ItemInt i => Ok (getitem_int self i)
  | ItemStr s => getitem_str self s
  end.

(** ** graph.py: the parser *)

(** [d[k].append(i)], creating the list when [k] is new *)
Definition index_append (k : string) (i : nat) (d : odict (list nat))
  : odict (list nat) :=
  match od_get k d with
  | None => od_set k [i] d
  | Some l => od_set k (l ++ [i]) d
  end.

(** One turn of the loop over the children of a Class node. *)
Definition parse_owl_class_child (child : Element) (st : OWLClass * SOLI)
  : OWLClass * SOLI :=
  let '(owl_class, self) := st in
  if String.eqb (tag child) (get_ns_tag "rdfs" "label") then
    (set_label (text child) owl_class,
     triples_append (iri owl_class, "rdfs:label", text child) self)
  else if String.eqb (tag child) (get_ns_tag "rdfs" "subClassOf") then
    match truthy (od_get (get_ns_tag "rdf" "resource") (attrib child)) with
    | Some parent_class =>
        (set_sub_class_of (sub_class_of owl_class ++ [parent_class]) owl_class,
         triples_append
           (iri owl_class, "rdfs:subClassOf", Some parent_class) self)
    | None => (owl_class, self)
    end
  else if String.eqb (tag child) (get_ns_tag "rdfs" "isDefinedBy") then
    match truthy (od_get (get_ns_tag "rdf" "resource") (attrib child)) with
    | Some defined_by =>
        (set_is_defined_by (Some defined_by) owl_class,
         triples_append
           (iri owl_class, "rdfs:isDefinedBy", Some defined_by) self)
    | None => (owl_class, self)
    end
  else if String.eqb (tag child) (get_ns_tag "rdfs" "seeAlso") then
    match truthy (od_get (get_ns_tag "rdf" "resource") (attrib child)) with
    | Some see_also' =>
        (set_see_also (see_also owl_class ++ [text child]) owl_class,
         triples_append (iri owl_class, "rdfs:seeAlso", Some see_also') self)
    | None => (owl_class, self)
    end
  else if String.eqb (tag child) (get_ns_tag "rdfs" "comment") then
    (set_comment (text child) owl_class,
     triples_append (iri owl_class, "rdfs:comment", text child) self)
  else if String.eqb (tag child) (get_ns_tag "owl" "deprecated") then
    (set_deprecated true owl_class,
     triples_append (iri owl_class, "owl:deprecated", Some "true") self)
  else if String.eqb (tag child) (get_ns_tag "skos" "prefLabel") then
    (set_preferred_label (text child) owl_class, self)
  else if String.eqb (tag child) (get_ns_tag "skos" "altLabel") then
    let owl_class :=
      match truthy (od_get (get_ns_tag "xml" "lang") (attrib child)) with
      | Some lang =>
          set_translations
            (od_set lang (text child) (translations owl_class)) owl_class
      | None =>
          set_alternative_labels
            (alternative_labels owl_class ++ [text child]) owl_class
      end in
    (owl_class,
     triples_append (iri owl_class, "skos:altLabel", text child) self)
  else if String.eqb (tag child) (get_ns_tag "skos" "hiddenLabel") then
    let owl_class := set_hidden_label (text child) owl_class in
    let owl_class :=
      set_alternative_labels
        (alternative_labels owl_class ++ [text child]) owl_class in
    (owl_class,
     triples_append (iri owl_class, "skos:hiddenLabel", text child) self)
  else if String.eqb (tag child) (get_ns_tag "skos" "definition") then
    (set_definition (text child) owl_class,
     triples_append (iri owl_class, "skos:definition", text child) self)
  else if String.eqb (tag child) (get_ns_tag "skos" "example") then
    (set_examples (examples owl_class ++ [text child]) owl_class,
     triples_append (iri owl_class, "skos:example", text child) self)
  else if String.eqb (tag child) (get_ns_tag "skos" "note") then
    (set_notes (notes owl_class ++ [text child]) owl_class,
     triples_append (iri owl_class, "skos:note", text child) self)
  else if String.eqb (tag child) (get_ns_tag "skos" "historyNote") then
    (set_history_note (text child) owl_class,
     triples_append (iri owl_class, "skos:historyNote", text child) self)
  else if String.eqb (tag child) (get_ns_tag "skos" "editorialNote") then
    (set_editorial_note (text child) owl_class,
     triples_append (iri owl_class, "skos:editorialNote", text child) self)
  else if String.eqb (tag child) (get_ns_tag "skos" "inScheme") then
    (set_in_scheme (text child) owl_class,
     triples_append (iri owl_class, "skos:inScheme", text child) self)
  else if String.eqb (tag child) (get_ns_tag "dc" "identifier") then
    (set_identifier (text child) owl_class,
     triples_append (iri owl_class, "dc:identifier", text child) self)
  else if String.eqb (tag child) (get_ns_tag "dc" "description") then
    (set_description (text child) owl_class,
     triples_append (iri owl_class, "dc:description", text child) self)
  else if String.eqb (tag child) (get_ns_tag "dc" "source") then
    (set_source (text child) owl_class,
     triples_append (iri owl_class, "dc:source", text child) self)
  else if String.eqb (tag child) (get_ns_tag "v1" "country") then
    (set_country (text child) owl_class,
     triples_append (iri owl_class, "v1:country", text child) self)
  else
    (owl_class, log_append (LogDebug "Unknown tag: %s" (tag child)) self).

(** The label index entry of one alternative label. *)
Definition index_alt_label (index : nat) (self : SOLI)
    (alt_label : option string) : SOLI :=
  match truthy alt_label with
  | Some a =>
      set_alt_label_to_index
        (index_append a index (alt_label_to_index self)) self
  | None => self
  end.

(** The tail of [parse_owl_class]: append the class and update the
    indices. *)
Definition index_class (owl_class : OWLClass) (self : SOLI) : SOLI :=
  let self := set_classes (classes self ++ [owl_class]) self in
  let index := length (classes self) - 1 in
  let self :=
    set_iri_to_index (<[iri owl_class := index]> (iri_to_index self)) self in
  let self :=
    match truthy (label owl_class) with
    | Some l =>
        set_label_to_index (index_append l index (label_to_index self)) self
    | None => self
    end in
  fold_left (index_alt_label index) (alternative_labels owl_class) self.

Definition parse_owl_class (node : Element) (self : SOLI) : SOLI :=
  match od_get (get_ns_tag "rdf" "about") (attrib node) with
  | None =>
      log_append (LogInfo "Missing IRI for OWL class: %s" (tag node)) self
  | Some i =>
      let '(owl_class, self) :=
        fold_left (fun st child => parse_owl_class_child child st)
          (getchildren node) (new_OWLClass i, self) in
      if negb (is_valid owl_class)
         && negb (String.eqb (iri owl_class) OWL_THING)
      then log_append (LogInfo "Invalid OWL class: %s" (iri owl_class)) self
      else index_class owl_class self
  end.

Definition parse_owl_ontology_child (self : SOLI) (child : Element) : SOLI :=
  if String.eqb (tag child) (get_ns_tag "dc" "title") then
    set_title (text child) self
  else if String.eqb (tag child) (get_ns_tag "dc" "description") then
    set_soli_description (text child) self
  else self.

Definition parse_owl_ontology (node : Element) (self : SOLI) : SOLI :=
  fold_left parse_owl_ontology_child (getchildren node) self.

Definition parse_node (self : SOLI) (node : Element) : SOLI :=
  if String.eqb (tag node) (get_ns_tag "owl" "Class") then
    parse_owl_class node self
  else if String.eqb (tag node) (get_ns_tag "owl" "Ontology") then
    parse_owl_ontology node self
  else if String.eqb (tag node) (get_ns_tag "owl" "ObjectProperty") then self
  else if String.eqb (tag node) (get_ns_tag "owl" "DatatypeProperty") then self
  else if String.eqb (tag node) (get_ns_tag "owl" "AnnotationProperty")
  then self
  else if String.eqb (tag node) (get_ns_tag "owl" "NamedIndividual") then self
  else if String.eqb (tag node) (get_ns_tag "rdf" "Description") then self
  else log_append (LogDebug "Unknown node type: %s" (tag node)) self.

(** One turn of the inner loop of the pass that builds the class edges:
    the class [child_iri] declares [parent_class] as a parent. *)
Definition add_class_edge (child_iri parent_class : string) (self : SOLI)
  : result SOLI :=
  if String.eqb parent_class OWL_THING then Ok self
  else
    let self :=
      match class_edges self !! parent_class with
      | None => set_class_edges (<[parent_class := []]> (class_edges self)) self
      | Some _ => self
      end in
    let self :=
      set_class_edges
        (<[parent_class :=
             default [] (class_edges self !! parent_class) ++ [child_iri]]>
           (class_edges self)) self in
    if contains self parent_class then
      let* found := getitem_str self parent_class in
      match found, iri_to_index self !! normalize_iri parent_class with
      | Some parent, Some index =>
          Ok (set_classes
                (<[index :=
                     set_parent_class_of
                       (parent_class_of parent ++ [child_iri]) parent]>
                   (classes self)) self)
      | _, _ => Raise AttributeError
      end
    else
      Ok (log_append (LogWarning "Parent class not found: %s" parent_class)
            self).

(** The pass over [self.classes] that builds the class edges. *)
Definition build_class_edges (self : SOLI) : result SOLI :=
  for_each
    (fun position self =>
       match classes self !! position with
       | Some owl_class =>
           for_each (add_class_edge (iri owl_class))
             (sub_class_of owl_class) self
       | None => Ok self
       end)
    (seq 0 (length (classes self))) self.

Definition all_labels (self : SOLI) : list string :=
  List.filter (fun label => MIN_PREFIX_LENGTH <=? String.length label)%nat
    (od_keys (label_to_index self) ++ od_keys (alt_label_to_index self)).

Section Runtime.

(** Whether the optional package marisa_trie was found at import. *)
Variable marisa_trie : bool.

(** [parse_owl] on the root element that lxml returns for the buffer. *)
Definition parse_owl (root : Element) (self : SOLI) : result SOLI :=
  let self := fold_left parse_node (getchildren root) self in
  let* self := build_class_edges self in
  let self := set__cached_triples (triples self) self in
  if marisa_trie
  then Ok (set__label_trie (Some (Trie_new (all_labels self))) self)
  else Ok self.

(** [SOLI.__init__], after the document was fetched and handed to lxml. *)
Definition SOLI_init (root : Element) : result SOLI :=
  parse_owl root new_SOLI.

(** [refresh]; [root] is the freshly fetched document. *)
Definition refresh (root : Element) (self : SOLI) : result SOLI :=
  let self := set_title None self in
  let self := set_soli_description None self in
  let self := set_classes [] self in
  let self := set_iri_to_index ∅ self in
  let self := set_label_to_index [] self in
  let self := set_alt_label_to_index [] self in
  let self := set_class_edges ∅ self in
  let self := set_triples [] self in
  let self := set__cached_triples [] self in
  parse_owl root self.

(** ** graph.py: prefix search *)

Definition search_by_prefix (prefix : string) (self : SOLI)
  : result (list (option OWLClass) * SOLI) :=
  match _prefix_cache self !! prefix with
  | Some cached => Ok (cached, self)
  | None =>
      let* keys :=
        if marisa_trie then
          match _label_trie self with
          | Some trie => Ok (sorted len_le (Trie_keys trie prefix))
          | None => Raise AttributeError
          end
        else
          Ok (sorted len_le
                (List.filter (fun label => startswith label prefix)
                   (od_keys (label_to_index self)
                    ++ od_keys (alt_label_to_index self)))) in
      let iri_list :=
        flat_map
          (fun key =>
             od_get_list key (label_to_index self)
             ++ od_get_list key (alt_label_to_index self)) keys in
      let classes' :=
        map (fun index => getitem_int self (Z.of_nat index)) iri_list in
      Ok (classes',
          set__prefix_cache (<[prefix := classes']> (_prefix_cache self)) self)
  end.

End Runtime.

(** ** graph.py: traversal *)

(** [get_parents]; [fuel] bounds the depth of the recursion. *)
Fixpoint get_parents (fuel : nat) (self : SOLI) (iri' : string)
    (max_depth : Z) : result (list OWLClass) :=
  match fuel with
  | O => NoFuel
  | S fuel' =>
      match iri_to_index self !! normalize_iri iri' with
      | None => Ok []
      | Some index =>
          match classes self !! index with
          | None => Raise IndexError
          | Some owl_class =>
              if negb (max_depth =? 0)%Z then
                for_each
                  (fun parent_class subgraph =>
                     let* more :=
                       get_parents fuel' self parent_class (max_depth - 1) in
                     Ok (subgraph ++ more))
                  (sub_class_of owl_class) [owl_class]
              else Ok [owl_class]
          end
      end
  end.

(** [get_subgraph]: the same walk over [parent_class_of]. *)
Fixpoint get_subgraph (fuel : nat) (self : SOLI) (iri' : string)
    (max_depth : Z) : result (list OWLClass) :=
  match fuel with
  | O => NoFuel
  | S fuel' =>
      match iri_to_index self !! normalize_iri iri' with
      | None => Ok []
      | Some index =>
          match classes self !! index with
          | None => Raise IndexError
          | Some owl_class =>
              if negb (max_depth =? 0)%Z then
                for_each
                  (fun child_class subgraph =>
                     let* more :=
                       get_subgraph fuel' self child_class (max_depth - 1) in
                     Ok (subgraph ++ more))
                  (parent_class_of owl_class) [owl_class]
              else Ok [owl_class]
          end
      end
  end.

(** ** graph.py: label lookup and fuzzy search *)

Definition get_by_label (self : SOLI) (label' : string)
    (include_alt_labels : bool) : list (option OWLClass) :=
  let classes' :=
    map (fun index => getitem_int self (Z.of_nat index))
      (od_get_list label' (label_to_index self)) in
  if include_alt_labels then
    classes'
    ++ map (fun index => getitem_int self (Z.of_nat index))
         (od_get_list label' (alt_label_to_index self))
  else classes'.

Inductive SearchType : Type := search_string | search_token.

Section Search.

(** Similarity scores and their order. *)
Variable Score : Type.
Variable score_le : Score -> Score -> bool.

(** [rapidfuzz.process.extract(query, search_list, scorer=..., limit=...)]
    of the optional package rapidfuzz; [None] when the package was not
    found at import.  Its results are (string, score, position) triples. *)
Variable rapidfuzz :
  option (string -> list string -> SearchType -> Z
          -> list (string * Score * nat)).

(** The sort key [(-x[1], len(x[0]))] of [_basic_search], compared. *)
Definition basic_search_le (x y : string * Score * nat) : bool :=
  let '(sx, cx, _) := x in
  let '(sy, cy, _) := y in
  if score_le cy cx then
    if score_le cx cy then Nat.leb (String.length sx) (String.length sy)
    else true
  else false.

Definition _basic_search (query : string) (search_list : list string)
    (limit : Z) (search_type : SearchType)
  : result (list (string * Score * nat)) :=
  match rapidfuzz with
  | Some extract =>
      Ok (sorted basic_search_le (extract query search_list search_type limit))
  | None => Raise AttributeError
  end.

(** The inner loop of [search_by_label], with its [break]. *)
Fixpoint search_by_label_classes (limit : Z) (score : Score)
    (label_classes : list (option OWLClass))
    (st : gset string * list (OWLClass * Score))
  : result (gset string * list (OWLClass * Score)) :=
  match label_classes with
  | [] => Ok st
  | None :: _ => Raise AttributeError
  | Some label_class :: rest =>
      let '(seen_classes, results) := st in
      let st' :=
        if bool_decide (iri label_class ∈ seen_classes) then st
        else ({[iri label_class]} ∪ seen_classes,
              results ++ [(label_class, score)]) in
      if (limit <=? Z.of_nat (length (snd st')))%Z then Ok st'
      else search_by_label_classes limit score rest st'
  end.

Definition search_by_label (self : SOLI) (label' : string)
    (include_alt_labels : bool) (limit : Z)
  : result (list (OWLClass * Score)) :=
  match rapidfuzz with
  | None => Raise RuntimeError
  | Some _ =>
      let search_labels :=
        if negb include_alt_labels then od_keys (label_to_index self)
        else od_keys (label_to_index self)
             ++ od_keys (alt_label_to_index self) in
      let* found := _basic_search label' search_labels limit search_string in
      let* st :=
        for_each
          (fun '(search_label, score, _) st =>
             search_by_label_classes limit score
               (get_by_label self search_label include_alt_labels) st)
          found (∅, []) in
      Ok (snd st)
  end.

End Search.

(** ** graph.py: triple queries *)

Definition String_eqb_opt (o : option string) (v : string) : bool :=
  match o with
  | Some s => String.eqb s v
  | None => false
  end.

Definition _filter_triples (triples' : list Triple) (value filter_by : string)
  : result (list Triple) :=
  if String.eqb filter_by "predicate" then
    Ok (List.filter (fun t => String.eqb (snd (fst t)) value) triples')
  else if String.eqb filter_by "subject" then
    Ok (List.filter (fun t => String.eqb (fst (fst t)) value) triples')
  else if String.eqb filter_by "object" then
    Ok (List.filter (fun t => String_eqb_opt (snd t) value) triples')
  else Raise ValueError.

Definition get_triples_by_subject (self : SOLI) (subject : string) :=
  _filter_triples (_cached_triples self) subject "subject".

Definition get_triples_by_predicate (self : SOLI) (predicate : string) :=
  _filter_triples (_cached_triples self) predicate "predicate".

Definition get_triples_by_object (self : SOLI) (obj : string) :=
  _filter_triples (_cached_triples self) obj "object".

(** * Properties *)

(** ** Strings *)

Lemma startswith_app (p s : string) : startswith (p +:+ s) p = true.
Proof.
  induction p as [|c p IH]; simpl; [done|].
  by rewrite Ascii.eqb_refl, IH.
Qed.

Lemma string_drop_app (p s : string) :
  string_drop (String.length p) (p +:+ s) = s.
Proof. induction p as [|c p IH]; simpl; done. Qed.

Lemma startswith_count (c : ascii) (p s : string) :
  startswith s p = true → count_char c p ≤ count_char c s.
Proof.
  revert s. induction p as [|d p IH]; intros s H; simpl in *; [lia|].
  destruct s as [|e s]; [done|]. simpl.
  apply andb_prop in H as [He Hs]. apply Ascii.eqb_eq in He as ->.
  specialize (IH _ Hs). lia.
Qed.

Lemma startswith_no_slash (p s : string) :
  count_char "/" s = 0 → 0 < count_char "/" p → startswith s p = false.
Proof.
  intros Hs Hp. destruct (startswith s p) eqn:E; [|done].
  apply (startswith_count "/") in E. lia.
Qed.

Lemma truthy_Some (o : option string) (s : string) :
  truthy o = Some s → o = Some s.
Proof. destruct o as [[|]|]; simpl; congruence. Qed.

(** ** IRI normalization *)

Definition SOLI_BASE : string := "https://soli.openlegalstandard.org/".

Lemma normalize_iri_base (token : string) :
  normalize_iri (SOLI_BASE +:+ token) = SOLI_BASE +:+ token.
Proof.
  unfold normalize_iri.
  change "https://soli.openlegalstandard.org/" with SOLI_BASE.
  by rewrite startswith_app.
Qed.

Lemma normalize_iri_bare (token : string) :
  count_char "/" token = 0 →
  startswith token "soli:" = false →
  startswith token "lmss:" = false →
  normalize_iri token = SOLI_BASE +:+ token.
Proof.
  intros Hc Hs Hl. unfold normalize_iri.
  rewrite (startswith_no_slash _ token Hc) by (vm_compute; lia).
  rewrite Hs, Hl.
  rewrite (startswith_no_slash _ token Hc) by (vm_compute; lia).
  by rewrite Hc.
Qed.

Lemma normalize_iri_lmss (token : string) :
  count_char "/" token = 0 →
  normalize_iri ("lmss:" +:+ token) = SOLI_BASE +:+ token.
Proof.
  intros Hc. unfold normalize_iri.
  change "https://soli.openlegalstandard.org/" with SOLI_BASE.
  assert (startswith ("lmss:" +:+ token) SOLI_BASE = false) as -> by done.
  assert (startswith ("lmss:" +:+ token) "soli:" = false) as -> by done.
  assert (startswith ("lmss:" +:+ token) "lmss:" = true) as ->
    by apply startswith_app.
  rewrite string_drop_app.
  rewrite (startswith_no_slash _ token Hc) by (vm_compute; lia).
  by rewrite Hc.
Qed.

Lemma normalize_iri_legacy_url (token : string) :
  count_char "/" token = 0 →
  normalize_iri ("http://lmss.sali.org/" +:+ token) = SOLI_BASE +:+ token.
Proof.
  intros Hc. unfold normalize_iri.
  change "https://soli.openlegalstandard.org/" with SOLI_BASE.
  set (legacy := "http://lmss.sali.org/").
  assert (startswith (legacy +:+ token) SOLI_BASE = false) as -> by done.
  assert (startswith (legacy +:+ token) "soli:" = false) as -> by done.
  assert (startswith (legacy +:+ token) "lmss:" = false) as -> by done.
  rewrite startswith_app, string_drop_app. by rewrite Hc.
Qed.

Lemma normalize_iri_soli (token : string) :
  count_char "/" token = 0 →
  startswith token "lmss:" = false →
  normalize_iri ("soli:" +:+ token) = SOLI_BASE +:+ token.
Proof.
  intros Hc Hl. unfold normalize_iri.
  change "https://soli.openlegalstandard.org/" with SOLI_BASE.
  assert (startswith ("soli:" +:+ token) SOLI_BASE = false) as -> by done.
  rewrite startswith_app, string_drop_app, Hl.
  rewrite (startswith_no_slash _ token Hc) by (vm_compute; lia).
  by rewrite Hc.
Qed.

(** ** Ordered dictionaries *)

Lemma od_get_set {V} (k k' : string) (v : V) (d : odict V) :
  od_get k' (od_set k v d) = if String.eqb k k' then Some v else od_get k' d.
Proof.
  induction d as [|[k0 v0] d IH]; simpl; [done|].
  destruct (String.eqb k0 k) eqn:E; simpl.
  - apply String.eqb_eq in E as ->. by destruct (String.eqb k k').
  - destruct (String.eqb k0 k') eqn:E'; [|done].
    apply String.eqb_eq in E' as ->.
    by rewrite String.eqb_sym, E.
Qed.

Lemma od_get_list_index_append (k k' : string) (i : nat) d :
  od_get_list k' (index_append k i d)
  = if String.eqb k k' then od_get_list k d ++ [i] else od_get_list k' d.
Proof.
  unfold od_get_list, index_append.
  destruct (od_get k d) eqn:E; rewrite od_get_set;
    destruct (String.eqb k k') eqn:E'; try done.
Qed.

Lemma elem_of_index_append (k k' : string) (i j : nat) d :
  j ∈ od_get_list k' (index_append k i d) →
  j ∈ od_get_list k' d ∨ (k' = k ∧ j = i).
Proof.
  rewrite od_get_list_index_append.
  destruct (String.eqb k k') eqn:E; [|by left].
  apply String.eqb_eq in E. subst k'.
  rewrite elem_of_app, list_elem_of_singleton. intros [?|?]; eauto.
Qed.

(** ** Loops *)

Lemma fold_left_invariant {A B} (P : A → Prop) (f : A → B → A) (l : list B) :
  (∀ a x, x ∈ l → P a → P (f a x)) → ∀ a, P a → P (fold_left f l a).
Proof.
  induction l as [|x l IH]; simpl; intros Hf a Ha; [done|].
  apply IH.
  - intros a' y Hy. apply Hf. by apply list_elem_of_further.
  - apply Hf; [apply list_elem_of_here | done].
Qed.

(** A loop whose body keeps an invariant [I], returns under it, and
    moves along a preorder [R] returns, keeps [I], moves along [R], and
    what every turn established ([Q x], stable along [R]) holds at the
    end. *)
Lemma for_each_invariant {A S} (body : A → S → result S)
    (I : S → Prop) (R : S → S → Prop) (Q : A → S → Prop) (l : list A) :
  (∀ s, R s s) →
  (∀ s1 s2 s3, R s1 s2 → R s2 s3 → R s1 s3) →
  (∀ x s s', Q x s → I s → R s s' → Q x s') →
  (∀ x s, x ∈ l → I s →
     ∃ s', body x s = Ok s' ∧ I s' ∧ R s s' ∧ Q x s') →
  ∀ s, I s →
    ∃ s', for_each body l s = Ok s' ∧ I s' ∧ R s s' ∧ ∀ x, x ∈ l → Q x s'.
Proof.
  intros Hrefl Htrans Hstable.
  induction l as [|x l IH]; intros Hbody s Hs; simpl.
  - exists s. split_and!; try done. intros x Hx. by apply elem_of_nil in Hx.
  - destruct (Hbody x s) as (s1 & -> & Hs1 & HR1 & HQ1);
      [apply list_elem_of_here | done |].
    simpl.
    destruct (IH (λ y t Hy, Hbody y t (list_elem_of_further _ _ _ Hy)) s1 Hs1)
      as (s2 & -> & Hs2 & HR2 & HQ2).
    exists s2. split_and!; try done.
    + by eapply Htrans.
    + intros y [->|Hy]%elem_of_cons; [|by apply HQ2].
      by eapply Hstable.
Qed.

(** ** Classes whose derived edges grew *)

Definition grown (c c' : OWLClass) : Prop :=
  ∃ l, c' = set_parent_class_of (parent_class_of c ++ l) c.

Lemma set_parent_class_of_id (c : OWLClass) :
  set_parent_class_of (parent_class_of c) c = c.
Proof. by destruct c. Qed.

Lemma grown_refl (c : OWLClass) : grown c c.
Proof. exists []. by rewrite app_nil_r, set_parent_class_of_id. Qed.

Lemma grown_trans (c1 c2 c3 : OWLClass) :
  grown c1 c2 → grown c2 c3 → grown c1 c3.
Proof.
  intros [l1 ->] [l2 ->]. exists (l1 ++ l2). simpl.
  unfold set_parent_class_of; simpl. by rewrite app_assoc.
Qed.

Lemma grown_append (c : OWLClass) (x : string) :
  grown c (set_parent_class_of (parent_class_of c ++ [x]) c).
Proof. by exists [x]. Qed.

Lemma grown_iri c c' : grown c c' → iri c' = iri c.
Proof. by intros [l ->]. Qed.

Lemma grown_label c c' : grown c c' → label c' = label c.
Proof. by intros [l ->]. Qed.

Lemma grown_sub_class_of c c' : grown c c' → sub_class_of c' = sub_class_of c.
Proof. by intros [l ->]. Qed.

Lemma grown_alternative_labels c c' :
  grown c c' → alternative_labels c' = alternative_labels c.
Proof. by intros [l ->]. Qed.

Lemma grown_parent_class_of c c' x :
  grown c c' → x ∈ parent_class_of c → x ∈ parent_class_of c'.
Proof. intros [l ->] Hx. simpl. apply elem_of_app. by left. Qed.

(** ** The index invariant *)

Definition iri_index_ok (cl : list OWLClass) (m : gmap string nat) : Prop :=
  ∀ k i, m !! k = Some i → ∃ c, cl !! i = Some c ∧ iri c = k.

Definition iri_index_last (cl : list OWLClass) (m : gmap string nat) : Prop :=
  ∀ i c, cl !! i = Some c → ∃ j, m !! iri c = Some j ∧ i ≤ j.

Definition label_index_ok (cl : list OWLClass) (d : odict (list nat)) : Prop :=
  ∀ k i, i ∈ od_get_list k d → ∃ c, cl !! i = Some c ∧ label c = Some k.

Definition alt_label_index_ok (cl : list OWLClass) (d : odict (list nat))
  : Prop :=
  ∀ k i, i ∈ od_get_list k d →
    ∃ c, cl !! i = Some c ∧ Some k ∈ alternative_labels c.

Record wf (self : SOLI) : Prop := {
  wf_iri : iri_index_ok (classes self) (iri_to_index self);
  wf_iri_last : iri_index_last (classes self) (iri_to_index self);
  wf_label : label_index_ok (classes self) (label_to_index self);
  wf_alt_label : alt_label_index_ok (classes self) (alt_label_to_index self);
  wf_thing : class_edges self !! OWL_THING = None
}.

Lemma wf_empty (self : SOLI) :
  classes self = [] → iri_to_index self = ∅ → label_to_index self = [] →
  alt_label_to_index self = [] → class_edges self = ∅ → wf self.
Proof.
  intros Hc Hi Hl Ha He. split.
  - intros k i. by rewrite Hi, lookup_empty.
  - intros i c. by rewrite Hc, lookup_nil.
  - intros k i. rewrite Hl. unfold od_get_list. simpl.
    intros H. by apply elem_of_nil in H.
  - intros k i. rewrite Ha. unfold od_get_list. simpl.
    intros H. by apply elem_of_nil in H.
  - by rewrite He, lookup_empty.
Qed.

(** ** The parser keeps the index invariant *)

(** What a turn over a child of a Class node leaves alone. *)
Definition frame (s s' : SOLI) : Prop :=
  classes s' = classes s ∧ iri_to_index s' = iri_to_index s
  ∧ label_to_index s' = label_to_index s
  ∧ alt_label_to_index s' = alt_label_to_index s
  ∧ class_edges s' = class_edges s ∧ _prefix_cache s' = _prefix_cache s.

Lemma frame_refl s : frame s s.
Proof. by repeat split. Qed.

Lemma frame_trans s1 s2 s3 : frame s1 s2 → frame s2 s3 → frame s1 s3.
Proof. unfold frame. intros (?&?&?&?&?&?) (?&?&?&?&?&?). split_and!; congruence. Qed.

Lemma wf_frame s s' : frame s s' → wf s → wf s'.
Proof.
  intros (Hc & Hi & Hl & Ha & He & _) [H1 H2 H3 H4 H5].
  split; rewrite ?Hc, ?Hi, ?Hl, ?Ha, ?He; done.
Qed.

Lemma parse_owl_class_child_frame child c s c' s' :
  parse_owl_class_child child (c, s) = (c', s') →
  iri c' = iri c ∧ frame s s'.
Proof.
  unfold parse_owl_class_child. intros H.
  repeat case_match; simplify_eq; (split; [done | by repeat split]).
Qed.

Lemma parse_owl_class_children_frame l c s c' s' :
  fold_left (λ st child, parse_owl_class_child child st) l (c, s) = (c', s') →
  iri c' = iri c ∧ frame s s'.
Proof.
  intros H.
  cut (iri (c', s').1 = iri c ∧ frame s (c', s').2); [done|].
  rewrite <- H.
  apply (fold_left_invariant
           (λ st : OWLClass * SOLI, iri st.1 = iri c ∧ frame s st.2));
    [|split; [done | apply frame_refl]].
  intros [c1 s1] child _ [Hi Hf]. cbv beta. cbn [fst snd] in Hi, Hf.
  destruct (parse_owl_class_child child (c1, s1)) as [c2 s2] eqn:E.
  apply parse_owl_class_child_frame in E as [Hi' Hf']. cbn [fst snd]. split.
  - congruence.
  - by eapply frame_trans.
Qed.

(** What the parse of one top-level node may change. *)
Definition node_ext (s s' : SOLI) : Prop :=
  (∃ l, classes s' = classes s ++ l)
  ∧ class_edges s' = class_edges s ∧ _prefix_cache s' = _prefix_cache s.

Lemma node_ext_refl s : node_ext s s.
Proof. split_and!; try done. exists []. by rewrite app_nil_r. Qed.

Lemma node_ext_trans s1 s2 s3 : node_ext s1 s2 → node_ext s2 s3 → node_ext s1 s3.
Proof.
  intros ([l1 H1] & ? & ?) ([l2 H2] & ? & ?). split_and!; try congruence.
  exists (l1 ++ l2). by rewrite H2, H1, app_assoc.
Qed.

Lemma frame_node_ext s s' : frame s s' → node_ext s s'.
Proof.
  intros (Hc & _ & _ & _ & He & Hp). split_and!; try done.
  exists []. by rewrite app_nil_r.
Qed.

Lemma index_alt_labels_spec (n : nat) (c : OWLClass) (al : list (option string))
    (s : SOLI) :
  (∀ a, a ∈ al → a ∈ alternative_labels c) →
  classes s !! n = Some c →
  alt_label_index_ok (classes s) (alt_label_to_index s) →
  let s' := fold_left (index_alt_label n) al s in
  alt_label_index_ok (classes s') (alt_label_to_index s')
  ∧ classes s' = classes s ∧ iri_to_index s' = iri_to_index s
  ∧ label_to_index s' = label_to_index s
  ∧ class_edges s' = class_edges s ∧ _prefix_cache s' = _prefix_cache s.
Proof.
  intros Hal Hn Hok. simpl.
  apply (fold_left_invariant
    (λ s', alt_label_index_ok (classes s') (alt_label_to_index s')
           ∧ classes s' = classes s ∧ iri_to_index s' = iri_to_index s
           ∧ label_to_index s' = label_to_index s
           ∧ class_edges s' = class_edges s
           ∧ _prefix_cache s' = _prefix_cache s));
    [|by split_and!].
  intros s1 a Ha (Hok1 & Hc & Hi & Hl & He & Hp).
  unfold index_alt_label. destruct (truthy a) as [k|] eqn:Et; [|by split_and!].
  simpl. split_and!; try done.
  intros k' j Hj. apply elem_of_index_append in Hj as [Hj | [-> ->]].
  - by apply Hok1.
  - exists c. rewrite Hc. split; [done|].
    apply truthy_Some in Et as ->. by apply Hal.
Qed.

Lemma index_class_spec (c : OWLClass) (s : SOLI) :
  wf s →
  wf (index_class c s)
  ∧ classes (index_class c s) = classes s ++ [c]
  ∧ class_edges (index_class c s) = class_edges s
  ∧ _prefix_cache (index_class c s) = _prefix_cache s.
Proof.
  intros [H1 H2 H3 H4 H5]. unfold index_class.
  set (n := length (classes (set_classes (classes s ++ [c]) s)) - 1).
  assert (n = length (classes s)) as Hn.
  { unfold n. simpl. rewrite length_app. simpl. lia. }
  clearbody n. subst n.
  set (s1 := set_iri_to_index _ _).
  set (s2 := match truthy (label c) with Some _ => _ | None => _ end).
  assert (classes s2 = classes s ++ [c]) as Hc2.
  { unfold s2. by destruct (truthy (label c)). }
  assert (iri_to_index s2 = <[iri c := length (classes s)]> (iri_to_index s))
    as Hi2.
  { unfold s2. by destruct (truthy (label c)). }
  assert (alt_label_to_index s2 = alt_label_to_index s) as Ha2.
  { unfold s2. by destruct (truthy (label c)). }
  assert (class_edges s2 = class_edges s ∧ _prefix_cache s2 = _prefix_cache s)
    as [He2 Hp2].
  { unfold s2. by destruct (truthy (label c)). }
  assert (classes s2 !! length (classes s) = Some c) as Hlast.
  { rewrite Hc2. by apply list_lookup_middle. }
  assert (label_index_ok (classes s2) (label_to_index s2)) as Hl2.
  { rewrite Hc2. unfold s2.
    destruct (truthy (label c)) as [l|] eqn:Et; simpl.
    - intros k j Hj. apply elem_of_index_append in Hj as [Hj | [-> ->]].
      + destruct (H3 k j Hj) as (c0 & Hc0 & Hl0). exists c0.
        split; [by apply lookup_app_l_Some | done].
      + exists c. split; [by apply list_lookup_middle|].
        by apply truthy_Some.
    - intros k j Hj. destruct (H3 k j Hj) as (c0 & Hc0 & Hl0). exists c0.
      split; [by apply lookup_app_l_Some | done]. }
  destruct (index_alt_labels_spec (length (classes s)) c
              (alternative_labels c) s2) as (Hok & Hc & Hi & Hl & He & Hp);
    [done | done | |].
  { rewrite Hc2, Ha2. intros k j Hj.
    destruct (H4 k j Hj) as (c0 & Hc0 & Hl0). exists c0.
    split; [by apply lookup_app_l_Some | done]. }
  split_and!; [| congruence | congruence | congruence].
  split.
  - rewrite Hc, Hi, Hc2, Hi2. intros k j Hk.
    destruct (decide (iri c = k)) as [<-|Hne].
    + rewrite lookup_insert_eq in Hk. simplify_eq. exists c.
      split; [by apply list_lookup_middle | done].
    + rewrite lookup_insert_ne in Hk by done.
      destruct (H1 k j Hk) as (c0 & Hc0 & Hl0). exists c0.
      split; [by apply lookup_app_l_Some | done].
  - rewrite Hc, Hi, Hc2, Hi2. intros j c0 Hj.
    apply lookup_snoc_Some in Hj as [[Hlt Hj] | [-> <-]].
    + destruct (decide (iri c = iri c0)) as [Heq|Hne].
      * exists (length (classes s)). rewrite Heq, lookup_insert_eq.
        split; [done | lia].
      * rewrite lookup_insert_ne by done. by apply H2.
    + exists (length (classes s)). by rewrite lookup_insert_eq.
  - by rewrite Hc, Hl.
  - done.
  - by rewrite He, He2.
Qed.

Lemma frame_log_append r s : frame s (log_append r s).
Proof. by repeat split. Qed.

Lemma index_class_classes (c : OWLClass) (s : SOLI) :
  classes (index_class c s) = classes s ++ [c].
Proof.
  unfold index_class.
  apply (fold_left_invariant (λ s', classes s' = classes s ++ [c])).
  - intros s1 a _ H. unfold index_alt_label. by destruct (truthy a).
  - by destruct (truthy (label c)).
Qed.

Lemma parse_owl_class_spec (node : Element) (s : SOLI) :
  wf s → wf (parse_owl_class node s) ∧ node_ext s (parse_owl_class node s).
Proof.
  intros Hwf. unfold parse_owl_class.
  destruct (od_get _ (attrib node)) as [i|].
  - destruct (fold_left _ _ _) as [c s1] eqn:E.
    apply parse_owl_class_children_frame in E as [_ Hf].
    pose proof (wf_frame _ _ Hf Hwf) as Hwf1.
    destruct (negb (is_valid c) && _).
    + split; [eapply wf_frame; [apply frame_log_append | done]|].
      apply frame_node_ext. eapply frame_trans; [done | apply frame_log_append].
    + destruct (index_class_spec c s1 Hwf1) as (Hwf2 & Hc & He & Hp).
      split; [done|]. eapply node_ext_trans; [by apply frame_node_ext|].
      split_and!; try done. by exists [c].
  - split; [eapply wf_frame; [apply frame_log_append | done]|].
    apply frame_node_ext, frame_log_append.
Qed.

Lemma parse_owl_ontology_frame (node : Element) (s : SOLI) :
  frame s (parse_owl_ontology node s).
Proof.
  unfold parse_owl_ontology.
  apply (fold_left_invariant (frame s)); [|apply frame_refl].
  intros s1 child _ Hf. eapply frame_trans; [done|].
  unfold parse_owl_ontology_child. repeat case_match; by repeat split.
Qed.

Lemma parse_node_spec (s : SOLI) (node : Element) :
  wf s → wf (parse_node s node) ∧ node_ext s (parse_node s node).
Proof.
  intros Hwf. unfold parse_node.
  repeat case_match; try (split; [done | apply node_ext_refl]).
  - by apply parse_owl_class_spec.
  - split; [eapply wf_frame; [apply parse_owl_ontology_frame | done]|].
    apply frame_node_ext, parse_owl_ontology_frame.
  - split; [eapply wf_frame; [apply frame_log_append | done]|].
    apply frame_node_ext, frame_log_append.
Qed.

Lemma parse_nodes_spec (l : list Element) (s : SOLI) :
  wf s → wf (fold_left parse_node l s) ∧ node_ext s (fold_left parse_node l s).
Proof.
  intros Hwf.
  apply (fold_left_invariant (λ s', wf s' ∧ node_ext s s'));
    [|split; [done | apply node_ext_refl]].
  intros s1 node _ [Hwf1 Hext].
  destruct (parse_node_spec s1 node Hwf1) as [Hwf2 Hext2].
  split; [done | by eapply node_ext_trans].
Qed.

(** A Class node about the root sentinel is stored, label or not. *)
Lemma parse_owl_class_thing (node : Element) (s : SOLI) :
  od_get (get_ns_tag "rdf" "about") (attrib node) = Some OWL_THING →
  ∃ c, c ∈ classes (parse_owl_class node s) ∧ iri c = OWL_THING.
Proof.
  intros Habout. unfold parse_owl_class. rewrite Habout.
  destruct (fold_left _ _ _) as [c s1] eqn:E.
  apply parse_owl_class_children_frame in E as [Hi _]. simpl in Hi.
  rewrite Hi, String.eqb_refl, andb_false_r.
  exists c. split; [|done].
  rewrite index_class_classes, elem_of_app, list_elem_of_singleton. by right.
Qed.

Lemma parse_nodes_thing (l : list Element) (node : Element) (s : SOLI) :
  wf s → node ∈ l →
  tag node = get_ns_tag "owl" "Class" →
  od_get (get_ns_tag "rdf" "about") (attrib node) = Some OWL_THING →
  ∃ c, c ∈ classes (fold_left parse_node l s) ∧ iri c = OWL_THING.
Proof.
  revert s. induction l as [|n l IH]; intros s Hwf Hin Htag Habout.
  - by apply elem_of_nil in Hin.
  - simpl. destruct (parse_node_spec s n Hwf) as [Hwf1 _].
    apply elem_of_cons in Hin as [<-|Hin]; [|by apply IH].
    destruct (parse_nodes_spec l _ Hwf1) as (_ & [k Hk] & _).
    assert (parse_node s node = parse_owl_class node s) as Hpn.
    { unfold parse_node. by rewrite Htag, String.eqb_refl. }
    destruct (parse_owl_class_thing node s Habout) as (c & Hc & Hi).
    exists c. split; [|done]. rewrite Hk, Hpn, elem_of_app. by left.
Qed.

(** ** The pass that builds the class edges *)

(** Reduce the projections of an updated state. *)
Ltac self_simpl :=
  cbn [title soli_description classes iri_to_index label_to_index
       alt_label_to_index class_edges _cached_triples _label_trie
       _prefix_cache triples LOGGER
       set_title set_soli_description set_classes set_iri_to_index
       set_label_to_index set_alt_label_to_index set_class_edges
       set__cached_triples set__label_trie set__prefix_cache set_triples
       set_LOGGER log_append triples_append] in *.

(** What the pass may change: derived edges grow, the logger grows. *)
Definition edges_ext (s s' : SOLI) : Prop :=
  Forall2 grown (classes s) (classes s')
  ∧ iri_to_index s' = iri_to_index s
  ∧ label_to_index s' = label_to_index s
  ∧ alt_label_to_index s' = alt_label_to_index s
  ∧ _prefix_cache s' = _prefix_cache s
  ∧ triples s' = triples s
  ∧ ∀ r, r ∈ LOGGER s → r ∈ LOGGER s'.

Lemma Forall2_grown_refl (l : list OWLClass) : Forall2 grown l l.
Proof. induction l; constructor; [apply grown_refl | done]. Qed.

Lemma edges_ext_refl s : edges_ext s s.
Proof. split_and!; try done. apply Forall2_grown_refl. Qed.

Lemma edges_ext_trans s1 s2 s3 :
  edges_ext s1 s2 → edges_ext s2 s3 → edges_ext s1 s3.
Proof.
  intros (Hc1 & ? & ? & ? & ? & ? & Hl1) (Hc2 & ? & ? & ? & ? & ? & Hl2).
  split_and!; try congruence; [|by auto].
  apply Forall2_same_length_lookup. split.
  - apply Forall2_length in Hc1, Hc2. congruence.
  - intros i x z Hx Hz.
    destruct (Forall2_lookup_l _ _ _ _ _ Hc1 Hx) as (y & Hy & Hxy).
    pose proof (Forall2_lookup_lr _ _ _ _ _ _ Hc2 Hy Hz).
    by eapply grown_trans.
Qed.

Lemma wf_edges_ext s s' :
  edges_ext s s' → class_edges s' !! OWL_THING = None → wf s → wf s'.
Proof.
  intros (Hc & Hi & Hl & Ha & _) He [H1 H2 H3 H4 _]. split; [| | | |done].
  - rewrite Hi. intros k i Hk. destruct (H1 k i Hk) as (c & Hci & <-).
    destruct (Forall2_lookup_l _ _ _ _ _ Hc Hci) as (c' & Hc' & Hg).
    exists c'. split; [done | by apply grown_iri].
  - rewrite Hi. intros i c' Hc'.
    destruct (Forall2_lookup_r _ _ _ _ _ Hc Hc') as (c & Hci & Hg).
    rewrite (grown_iri _ _ Hg). by eapply H2.
  - rewrite Hl. intros k i Hk. destruct (H3 k i Hk) as (c & Hci & <-).
    destruct (Forall2_lookup_l _ _ _ _ _ Hc Hci) as (c' & Hc' & Hg).
    exists c'. split; [done | by apply grown_label].
  - rewrite Ha. intros k i Hk. destruct (H4 k i Hk) as (c & Hci & Hin).
    destruct (Forall2_lookup_l _ _ _ _ _ Hc Hci) as (c' & Hc' & Hg).
    exists c'. split; [done | by rewrite (grown_alternative_labels _ _ Hg)].
Qed.

(** What one declared parent leaves behind: the edge on the class the
    index resolves it to, or a warning. *)
Definition edge_added (child_iri parent_class : string) (s : SOLI) : Prop :=
  parent_class ≠ OWL_THING →
  match iri_to_index s !! normalize_iri parent_class with
  | Some j =>
      ∃ parent, classes s !! j = Some parent
                ∧ child_iri ∈ parent_class_of parent
  | None =>
      LogWarning "Parent class not found: %s" parent_class ∈ LOGGER s
  end.

Lemma edge_added_ext child_iri parent_class s s' :
  edge_added child_iri parent_class s → edges_ext s s' →
  edge_added child_iri parent_class s'.
Proof.
  intros Hadd (Hc & Hi & _ & _ & _ & _ & Hlog) Hne. specialize (Hadd Hne).
  rewrite Hi. destruct (iri_to_index s !! _) as [j|]; [|by apply Hlog].
  destruct Hadd as (parent & Hp & Hin).
  destruct (Forall2_lookup_l _ _ _ _ _ Hc Hp) as (parent' & Hp' & Hg).
  exists parent'. split; [done | by eapply grown_parent_class_of].
Qed.

Lemma add_class_edge_spec (child_iri parent_class : string) (s : SOLI) :
  wf s →
  ∃ s', add_class_edge child_iri parent_class s = Ok s'
        ∧ wf s' ∧ edges_ext s s' ∧ edge_added child_iri parent_class s'.
Proof.
  intros Hwf. unfold add_class_edge.
  destruct (String.eqb parent_class OWL_THING) eqn:Ething.
  { apply String.eqb_eq in Ething. exists s.
    split_and!; [done | done | apply edges_ext_refl | by intros ?]. }
  apply String.eqb_neq in Ething.
  set (s1 := match class_edges s !! parent_class with
             | None => _ | Some _ => s end).
  set (s2 := set_class_edges _ s1).
  assert (classes s2 = classes s ∧ iri_to_index s2 = iri_to_index s
          ∧ label_to_index s2 = label_to_index s
          ∧ alt_label_to_index s2 = alt_label_to_index s
          ∧ _prefix_cache s2 = _prefix_cache s ∧ triples s2 = triples s
          ∧ LOGGER s2 = LOGGER s) as (Hc & Hi & Hl & Ha & Hp & Ht & Hg).
  { unfold s2, s1. by destruct (class_edges s !! parent_class). }
  assert (class_edges s2 !! OWL_THING = None) as Hthing.
  { unfold s2, s1. destruct Hwf as [_ _ _ _ H5].
    destruct (class_edges s !! parent_class); self_simpl;
      rewrite !lookup_insert_ne by done; done. }
  assert (edges_ext s s2) as Hext2.
  { split_and!; try done; [rewrite Hc; apply Forall2_grown_refl|].
    by rewrite Hg. }
  pose proof (wf_edges_ext _ _ Hext2 Hthing Hwf) as Hwf2.
  clearbody s2. clear s1.
  unfold contains, getitem_str.
  destruct (iri_to_index s2 !! normalize_iri parent_class) as [index|] eqn:Ei.
  - destruct (wf_iri _ Hwf2 _ _ Ei) as (parent & Hparent & Hiri).
    rewrite Hparent. simpl.
    eexists. split; [done|].
    assert (edges_ext s2
              (set_classes
                 (<[index:=set_parent_class_of
                             (parent_class_of parent ++ [child_iri]) parent]>
                    (classes s2)) s2)) as Hext3.
    { split_and!; try done. self_simpl.
      apply Forall2_same_length_lookup. split; [by rewrite length_insert|].
      intros i x y Hx Hy. destruct (decide (i = index)) as [->|Hne].
      - rewrite list_lookup_insert_eq in Hy
          by (by eapply lookup_lt_Some).
        simplify_eq. apply grown_append.
      - rewrite list_lookup_insert_ne in Hy by done. simplify_eq.
        apply grown_refl. }
    split_and!.
    + by eapply wf_edges_ext.
    + by eapply edges_ext_trans.
    + intros _. self_simpl. rewrite Ei.
      eexists. split.
      * apply list_lookup_insert_eq. by eapply lookup_lt_Some.
      * simpl. rewrite elem_of_app, list_elem_of_singleton. by right.
  - eexists. split; [done|].
    assert (edges_ext s2
              (log_append
                 (LogWarning "Parent class not found: %s" parent_class) s2))
      as Hext3.
    { split_and!; try done; [apply Forall2_grown_refl|].
      intros r Hr. self_simpl. apply elem_of_app. by left. }
    split_and!.
    + by eapply wf_edges_ext.
    + by eapply edges_ext_trans.
    + intros _. self_simpl. rewrite Ei.
      rewrite elem_of_app, list_elem_of_singleton. by right.
Qed.

(** Every declared parent of every class was handled. *)
Definition edges_done (s : SOLI) : Prop :=
  ∀ b B p, classes s !! b = Some B → p ∈ sub_class_of B →
    edge_added (iri B) p s.

Lemma add_class_edges_spec (c : OWLClass) (s : SOLI) :
  wf s →
  ∃ s', for_each (add_class_edge (iri c)) (sub_class_of c) s = Ok s'
        ∧ wf s' ∧ edges_ext s s'
        ∧ ∀ p, p ∈ sub_class_of c → edge_added (iri c) p s'.
Proof.
  apply (for_each_invariant (add_class_edge (iri c)) wf edges_ext
           (λ p t, edge_added (iri c) p t) (sub_class_of c)).
  - apply edges_ext_refl.
  - apply edges_ext_trans.
  - intros p u u' Hadd _ Hext. by eapply edge_added_ext.
  - intros p u _ Hwfu. apply add_class_edge_spec, Hwfu.
Qed.

Lemma build_class_edges_spec (s : SOLI) :
  wf s →
  ∃ s', build_class_edges s = Ok s' ∧ wf s' ∧ edges_ext s s' ∧ edges_done s'.
Proof.
  intros Hwf. unfold build_class_edges.
  pose proof (for_each_invariant
    (λ position self,
       match classes self !! position with
       | Some owl_class =>
           for_each (add_class_edge (iri owl_class))
             (sub_class_of owl_class) self
       | None => Ok self
       end)
    wf edges_ext
    (λ position t, ∀ B p, classes t !! position = Some B →
       p ∈ sub_class_of B → edge_added (iri B) p t)
    (seq 0 (length (classes s))) edges_ext_refl edges_ext_trans) as Hloop.
  destruct Hloop with s as (s' & Hrun & Hwf' & Hext & Hdone); [| |done|].
  - intros x t t' HQ _ Hext B' p HB' Hp.
    destruct Hext as (Hc & Hrest).
    destruct (Forall2_lookup_r _ _ _ _ _ Hc HB') as (B & HB & Hg).
    rewrite (grown_iri _ _ Hg). rewrite (grown_sub_class_of _ _ Hg) in Hp.
    eapply edge_added_ext; [by eapply HQ | by split].
  - intros x t _ Hwft.
    destruct (classes t !! x) as [c|] eqn:Ec.
    + destruct (add_class_edges_spec c t Hwft)
        as (t' & Hrun & Hwf' & Hext & Hdone).
      exists t'. split_and!; try done.
      intros B p HB Hp. destruct Hext as (Hc & _).
      pose proof (Forall2_lookup_lr _ _ _ _ _ _ Hc Ec HB) as Hg.
      rewrite (grown_iri _ _ Hg). rewrite (grown_sub_class_of _ _ Hg) in Hp.
      by apply Hdone.
    + exists t. split_and!; [done | done | apply edges_ext_refl|].
      intros B p HB. congruence.
  - exists s'. split_and!; try done.
    intros b B p HB Hp. apply (Hdone b); [|done | done].
    apply list_elem_of_In, in_seq. destruct Hext as (Hc & _).
    apply Forall2_length in Hc. apply lookup_lt_Some in HB. lia.
Qed.

(** ** A whole parse *)

Lemma parse_owl_spec (marisa_trie : bool) (root : Element) (s : SOLI) :
  wf s →
  ∃ s', parse_owl marisa_trie root s = Ok s'
        ∧ wf s' ∧ edges_done s'
        ∧ _prefix_cache s' = _prefix_cache s
        ∧ (marisa_trie = true → is_Some (_label_trie s'))
        ∧ Forall2 grown
            (classes (fold_left parse_node (getchildren root) s)) (classes s').
Proof.
  intros Hwf. unfold parse_owl.
  destruct (parse_nodes_spec (getchildren root) s Hwf) as (Hwf1 & _ & _ & Hp1).
  destruct (build_class_edges_spec _ Hwf1) as (s2 & -> & Hwf2 & Hext & Hdone).
  simpl. destruct Hext as (Hc & Hi & Hl & Ha & Hp & Ht & Hlog).
  assert (∀ t, classes t = classes s2 → iri_to_index t = iri_to_index s2 →
               label_to_index t = label_to_index s2 →
               alt_label_to_index t = alt_label_to_index s2 →
               class_edges t = class_edges s2 → LOGGER t = LOGGER s2 →
               wf t ∧ edges_done t) as Hsame.
  { intros t E1 E2 E3 E4 E5 E6. split.
    - destruct Hwf2 as [H1 H2 H3 H4 H5].
      split; rewrite ?E1, ?E2, ?E3, ?E4, ?E5; done.
    - intros b B p. unfold edge_added. rewrite E1, E2, E6. apply Hdone. }
  destruct marisa_trie; eexists; (split; [done|]).
  - destruct (Hsame (set__label_trie
                       (Some (Trie_new
                                (all_labels
                                   (set__cached_triples (triples s2) s2))))
                       (set__cached_triples (triples s2) s2)))
      as [? ?]; try done.
    split_and!; [done | done | self_simpl; congruence | by eexists | done].
  - destruct (Hsame (set__cached_triples (triples s2) s2)) as [? ?]; try done.
    split_and!; [done | done | self_simpl; congruence | done | done].
Qed.

(** ** Sorting *)

Section Sorted.
Context {A : Type} (le : A → A → bool) (R : relation A).
Hypothesis le_true : ∀ x y, le x y = true → R x y.
Hypothesis le_false : ∀ x y, le x y = false → R y x.
Hypothesis R_trans : Transitive R.

Lemma sorted_insert_perm (x : A) (l : list A) : sorted_insert le x l ≡ₚ x :: l.
Proof.
  induction l as [|y l IH]; simpl; [done|].
  destruct (le x y); [done|]. rewrite IH. apply Permutation_swap.
Qed.

Lemma sorted_perm (l : list A) : sorted le l ≡ₚ l.
Proof.
  induction l as [|x l IH]; simpl; [done|].
  unfold sorted in IH. by rewrite sorted_insert_perm, IH.
Qed.

Lemma sorted_insert_sorted (x : A) (l : list A) :
  StronglySorted R l → StronglySorted R (sorted_insert le x l).
Proof.
  induction 1 as [|y l Hl IH Hy]; simpl.
  - repeat constructor.
  - destruct (le x y) eqn:E.
    + apply le_true in E. constructor; [by constructor|].
      constructor; [done|].
      eapply Forall_impl; [exact Hy|]. intros z Hz. by etrans.
    + apply le_false in E. constructor; [done|].
      rewrite sorted_insert_perm. by constructor.
Qed.

Lemma sorted_sorted (l : list A) : StronglySorted R (sorted le l).
Proof.
  induction l as [|x l IH]; simpl; [constructor|].
  by apply sorted_insert_sorted.
Qed.
End Sorted.

Definition shorter (a b : string) : Prop := String.length a ≤ String.length b.

Lemma sorted_len_le_sorted (l : list string) :
  StronglySorted shorter (sorted len_le l).
Proof.
  apply sorted_sorted; unfold len_le, shorter.
  - intros x y. apply Nat.leb_le.
  - intros x y H. apply Nat.leb_gt in H. lia.
  - intros x y z. lia.
Qed.

Lemma elem_of_sorted_len_le (k : string) (l : list string) :
  k ∈ sorted len_le l ↔ k ∈ l.
Proof. by rewrite sorted_perm. Qed.

(** ** Prefix search *)

(** The entity [oe] was found under the string [k], which starts with
    [p] and is its label or one of its alternative labels. *)
Definition prefix_match (p k : string) (oe : option OWLClass) : Prop :=
  ∃ e, oe = Some e ∧ startswith k p = true
       ∧ (label e = Some k ∨ Some k ∈ alternative_labels e).

(** A result of a prefix search: every entity comes with a matched
    string, and the matched strings come shortest first. *)
Definition prefix_result_ok (p : string) (r : list (option OWLClass)) : Prop :=
  ∃ ks, Forall2 (prefix_match p) ks r ∧ StronglySorted shorter ks.

Definition cache_ok (s : SOLI) : Prop :=
  ∀ p r, _prefix_cache s !! p = Some r → prefix_result_ok p r.

Lemma getitem_int_nat (s : SOLI) (i : nat) :
  getitem_int s (Z.of_nat i) = classes s !! i.
Proof.
  unfold getitem_int.
  destruct (0 <=? Z.of_nat i)%Z eqn:E; [by rewrite Nat2Z.id|].
  apply Z.leb_gt in E. lia.
Qed.

Lemma StronglySorted_replicate_app (n : nat) (k : string) (ks : list string) :
  Forall (shorter k) ks → StronglySorted shorter ks →
  StronglySorted shorter (replicate n k ++ ks).
Proof.
  intros Hk Hks. induction n as [|n IH]; simpl; [done|].
  constructor; [done|]. apply Forall_app. split; [|done].
  apply Forall_replicate. unfold shorter. lia.
Qed.

Lemma Forall2_replicate_map {B C} (P : string → C → Prop) (f : B → C)
    (k : string) (l : list B) :
  (∀ x, x ∈ l → P k (f x)) → Forall2 P (replicate (length l) k) (map f l).
Proof.
  induction l as [|x l IH]; simpl; intros H; constructor.
  - apply H, list_elem_of_here.
  - apply IH. intros y Hy. by apply H, list_elem_of_further.
Qed.

Lemma prefix_result_of_keys (p : string) (s : SOLI) (keys : list string) :
  wf s → StronglySorted shorter keys →
  (∀ k, k ∈ keys → startswith k p = true) →
  ∃ ks, Forall2 (prefix_match p) ks
          (map (λ index, getitem_int s (Z.of_nat index))
             (flat_map
                (λ key, od_get_list key (label_to_index s)
                        ++ od_get_list key (alt_label_to_index s)) keys))
        ∧ StronglySorted shorter ks ∧ ∀ k, k ∈ ks → k ∈ keys.
Proof.
  intros Hwf Hsorted. induction Hsorted as [|key keys Hs IH Hkey]; intros Hp.
  - exists []. simpl. split_and!; [constructor | constructor | done].
  - destruct IH as (ks & Hks & Hsort & Hsub).
    { intros k Hk. by apply Hp, list_elem_of_further. }
    set (idxs := od_get_list key (label_to_index s)
                 ++ od_get_list key (alt_label_to_index s)).
    exists (replicate (length idxs) key ++ ks). simpl. fold idxs.
    rewrite map_app. split_and!.
    + apply Forall2_app; [|done]. apply Forall2_replicate_map.
      intros i Hi. rewrite getitem_int_nat.
      assert (startswith key p = true) as Hstart
        by apply Hp, list_elem_of_here.
      apply elem_of_app in Hi as [Hi|Hi].
      * destruct (wf_label _ Hwf _ _ Hi) as (c & Hc & Hl).
        exists c. by split_and!; [| |left].
      * destruct (wf_alt_label _ Hwf _ _ Hi) as (c & Hc & Hl).
        exists c. by split_and!; [| |right].
    + apply StronglySorted_replicate_app; [|done].
      apply Forall_forall. intros k Hk.
      rewrite Forall_forall in Hkey. by apply Hkey, Hsub.
    + intros k [Hk|Hk]%elem_of_app.
      * apply elem_of_replicate in Hk as [-> _]. apply list_elem_of_here.
      * by apply list_elem_of_further, Hsub.
Qed.

Lemma set__prefix_cache_id (s : SOLI) : set__prefix_cache (_prefix_cache s) s = s.
Proof. by destruct s. Qed.

Lemma search_by_prefix_spec (marisa_trie : bool) (p : string) (s : SOLI) :
  wf s → cache_ok s → (marisa_trie = true → is_Some (_label_trie s)) →
  ∃ r m, search_by_prefix marisa_trie p s = Ok (r, set__prefix_cache m s)
         ∧ prefix_result_ok p r
         ∧ (∀ q r', m !! q = Some r' → prefix_result_ok q r').
Proof.
  intros Hwf Hcache Htrie. unfold search_by_prefix.
  destruct (_prefix_cache s !! p) as [cached|] eqn:Ec.
  { exists cached, (_prefix_cache s). rewrite set__prefix_cache_id.
    split_and!; [done | by eapply Hcache | done]. }
  assert (∀ keys, (∀ k, k ∈ keys → startswith k p = true) →
    ∃ r m,
      (let iri_list :=
         flat_map (λ key, od_get_list key (label_to_index s)
                          ++ od_get_list key (alt_label_to_index s))
           (sorted len_le keys) in
       let classes' :=
         map (λ index, getitem_int s (Z.of_nat index)) iri_list in
       Ok (classes',
           set__prefix_cache (<[p:=classes']> (_prefix_cache s)) s))
      = Ok (r, set__prefix_cache m s)
      ∧ prefix_result_ok p r
      ∧ (∀ q r', m !! q = Some r' → prefix_result_ok q r')) as Hkeys.
  { intros keys Hp.
    destruct (prefix_result_of_keys p s (sorted len_le keys) Hwf)
      as (ks & Hks & Hsort & _); [apply sorted_len_le_sorted | |].
    { intros k Hk. by apply Hp, elem_of_sorted_len_le. }
    eexists _, _. split; [done|].
    assert (prefix_result_ok p
              (map (λ index, getitem_int s (Z.of_nat index))
                 (flat_map
                    (λ key, od_get_list key (label_to_index s)
                            ++ od_get_list key (alt_label_to_index s))
                    (sorted len_le keys)))) as Hok by by exists ks.
    split; [done|]. intros q r'.
    destruct (decide (p = q)) as [<-|Hne].
    - rewrite lookup_insert_eq. by intros [= <-].
    - rewrite lookup_insert_ne by done. apply Hcache. }
  destruct marisa_trie.
  - destruct (Htrie eq_refl) as [trie ->]. simpl. apply Hkeys.
    intros k Hk. unfold Trie_keys in Hk.
    apply list_elem_of_In, filter_In in Hk as [_ Hk]. done.
  - simpl. apply Hkeys.
    intros k Hk. apply list_elem_of_In, filter_In in Hk as [_ Hk]. done.
Qed.

(** ** Loaded snapshots *)

(** The states an ontology object goes through: built by [__init__],
    rebuilt by [refresh], and with prefix searches in between. *)
Inductive loaded (marisa_trie : bool) : SOLI → Prop :=
| loaded_init root s :
    SOLI_init marisa_trie root = Ok s → loaded marisa_trie s
| loaded_refresh root s s' :
    loaded marisa_trie s → refresh marisa_trie root s = Ok s' →
    loaded marisa_trie s'
| loaded_search prefix s r s' :
    loaded marisa_trie s →
    search_by_prefix marisa_trie prefix s = Ok (r, s') →
    loaded marisa_trie s'.

Record snapshot_ok (marisa_trie : bool) (s : SOLI) : Prop := {
  snap_wf : wf s;
  snap_edges : edges_done s;
  snap_cache : cache_ok s;
  snap_trie : marisa_trie = true → is_Some (_label_trie s)
}.

Lemma wf_new_SOLI : wf new_SOLI.
Proof. by apply wf_empty. Qed.

Lemma SOLI_init_spec (marisa_trie : bool) (root : Element) :
  ∃ s, SOLI_init marisa_trie root = Ok s ∧ snapshot_ok marisa_trie s
       ∧ Forall2 grown
           (classes (fold_left parse_node (getchildren root) new_SOLI))
           (classes s).
Proof.
  unfold SOLI_init.
  destruct (parse_owl_spec marisa_trie root new_SOLI wf_new_SOLI)
    as (s & Hrun & Hwf & Hdone & Hp & Ht & Hc).
  exists s. split_and!; [done | | done]. split; try done.
  intros p r. rewrite Hp. simpl. by rewrite lookup_empty.
Qed.

Lemma refresh_run (marisa_trie : bool) (root : Element) (s : SOLI) :
  ∃ s', refresh marisa_trie root s = Ok s'
        ∧ wf s' ∧ edges_done s'
        ∧ _prefix_cache s' = _prefix_cache s
        ∧ (marisa_trie = true → is_Some (_label_trie s')).
Proof.
  unfold refresh.
  set (s0 := set__cached_triples _ _).
  assert (wf s0) as Hwf0 by by apply wf_empty.
  destruct (parse_owl_spec marisa_trie root s0 Hwf0)
    as (s' & Hrun & Hwf & Hdone & Hp & Ht & Hc).
  by exists s'.
Qed.

Lemma refresh_spec (marisa_trie : bool) (root : Element) (s : SOLI) :
  cache_ok s →
  ∃ s', refresh marisa_trie root s = Ok s' ∧ snapshot_ok marisa_trie s'
        ∧ _prefix_cache s' = _prefix_cache s.
Proof.
  intros Hcache.
  destruct (refresh_run marisa_trie root s) as (s' & Hrun & ? & ? & Hp & ?).
  exists s'. split_and!; [done | | done]. split; try done.
  intros p r. rewrite Hp. apply Hcache.
Qed.

Lemma loaded_snapshot_ok (marisa_trie : bool) (s : SOLI) :
  loaded marisa_trie s → snapshot_ok marisa_trie s.
Proof.
  induction 1 as [root s Hinit | root s s' _ IH Hrefresh
                  | p s r s' _ IH Hsearch].
  - destruct (SOLI_init_spec marisa_trie root) as (s1 & Hs1 & Hok & _).
    congruence.
  - destruct (refresh_spec marisa_trie root s (snap_cache _ _ IH))
      as (s1 & Hs1 & Hok & _).
    congruence.
  - destruct IH as [Hwf Hdone Hcache Htrie].
    destruct (search_by_prefix_spec marisa_trie p s Hwf Hcache Htrie)
      as (r1 & m & Hs1 & _ & Hm).
    rewrite Hs1 in Hsearch. injection Hsearch as <- <-.
    split; try done. by destruct Hwf.
Qed.

(** ** Sample documents *)

Definition owl_Class (about : string) (children : list Element) : Element :=
  mkElement (get_ns_tag "owl" "Class") [(get_ns_tag "rdf" "about", about)]
    None children.

Definition rdfs_label (text' : string) : Element :=
  mkElement (get_ns_tag "rdfs" "label") [] (Some text') [].

Definition rdfs_subClassOf (resource : string) : Element :=
  mkElement (get_ns_tag "rdfs" "subClassOf")
    [(get_ns_tag "rdf" "resource", resource)] None [].

Definition rdf_RDF (nodes : list Element) : Element :=
  mkElement (get_ns_tag "rdf" "RDF") [] None nodes.

Definition snapshot_of (root : Element) : SOLI :=
  match SOLI_init true root with
  | Ok s => s
  | _ => new_SOLI
  end.

(** Two classes with canonical IRIs; the second declares the first, a
    missing class and the root sentinel as parents. *)
Definition sample_doc : Element :=
  rdf_RDF
    [ owl_Class "https://soli.openlegalstandard.org/RArea"
        [rdfs_label "Area of Law"];
      owl_Class "https://soli.openlegalstandard.org/RTax"
        [rdfs_label "Tax Law";
         rdfs_subClassOf "https://soli.openlegalstandard.org/RArea";
         rdfs_subClassOf "https://soli.openlegalstandard.org/RGone";
         rdfs_subClassOf OWL_THING] ].

Definition sample_snapshot : SOLI := snapshot_of sample_doc.

Definition sample_area : OWLClass :=
  set_parent_class_of ["https://soli.openlegalstandard.org/RTax"]
    (set_label (Some "Area of Law")
       (new_OWLClass "https://soli.openlegalstandard.org/RArea")).

(** A class whose [rdf:about] is a bare token. *)
Definition bare_doc : Element :=
  rdf_RDF [ owl_Class "R1" [rdfs_label "Contract"];
            owl_Class "R2" [rdfs_label "Lease"; rdfs_subClassOf "R1"] ].

(** ** Lookup by IRI *)

Lemma getitem_str_resolves (s : SOLI) (i : nat) (E : OWLClass) (item : string) :
  wf s → classes s !! i = Some E →
  Forall (λ E', iri E' ≠ iri E) (drop (S i) (classes s)) →
  normalize_iri item = iri E →
  iri_to_index s !! normalize_iri item = Some i.
Proof.
  intros Hwf Hi Hlast Hitem. rewrite Hitem.
  destruct (wf_iri_last _ Hwf _ _ Hi) as (j & Hj & Hle).
  destruct (wf_iri _ Hwf _ _ Hj) as (c & Hc & Hiri).
  destruct (decide (j = i)) as [->|Hne]; [done|].
  rewrite Forall_forall in Hlast. destruct (Hlast c); [|done].
  apply list_elem_of_lookup. exists (j - S i).
  rewrite lookup_drop. by replace (S i + (j - S i)) with j by lia.
Qed.

Lemma getitem_str_found (s : SOLI) (i : nat) (E : OWLClass) (item : string) :
  wf s → classes s !! i = Some E →
  Forall (λ E', iri E' ≠ iri E) (drop (S i) (classes s)) →
  normalize_iri item = iri E →
  getitem s (ItemStr item) = Ok (Some E).
Proof.
  intros Hwf Hi Hlast Hitem. simpl. unfold getitem_str.
  by rewrite (getitem_str_resolves s i E item), Hi.
Qed.

(** C1, as the code has it.  An entity [E] of a loaded snapshot is found
    under its own IRI when normalization leaves that IRI alone and no
    later entity carries the same IRI; when the IRI is the canonical
    base followed by a token without a slash, [E] is also found under
    the [lmss:] form and the legacy base URL form of the token, and
    under the [soli:] form when the token does not itself start with
    [lmss:]. *)
Theorem lookup_roundtrip (marisa_trie : bool) (s : SOLI) (i : nat)
    (E : OWLClass) :
  loaded marisa_trie s →
  classes s !! i = Some E →
  Forall (λ E', iri E' ≠ iri E) (drop (S i) (classes s)) →
  normalize_iri (iri E) = iri E →
  getitem s (ItemStr (iri E)) = Ok (Some E)
  ∧ ∀ token,
      iri E = SOLI_BASE +:+ token → count_char "/" token = 0 →
      getitem s (ItemStr ("lmss:" +:+ token)) = Ok (Some E)
      ∧ getitem s (ItemStr ("http://lmss.sali.org/" +:+ token)) = Ok (Some E)
      ∧ (startswith token "lmss:" = false →
         getitem s (ItemStr ("soli:" +:+ token)) = Ok (Some E)).
Proof.
  intros Hloaded Hi Hlast Hnorm.
  pose proof (snap_wf _ _ (loaded_snapshot_ok _ _ Hloaded)) as Hwf.
  split; [by eapply getitem_str_found|].
  intros token Hiri Hc. split_and!.
  - eapply getitem_str_found; try done.
    by rewrite normalize_iri_lmss, Hiri.
  - eapply getitem_str_found; try done.
    by rewrite normalize_iri_legacy_url, Hiri.
  - intros Hl. eapply getitem_str_found; try done.
    by rewrite normalize_iri_soli, Hiri.
Qed.

Lemma lookup_roundtrip_witness :
  getitem sample_snapshot (ItemStr "https://soli.openlegalstandard.org/RArea")
  = Ok (Some sample_area)
  ∧ getitem sample_snapshot (ItemStr "lmss:RArea") = Ok (Some sample_area)
  ∧ getitem sample_snapshot (ItemStr "http://lmss.sali.org/RArea")
    = Ok (Some sample_area)
  ∧ getitem sample_snapshot (ItemStr "soli:RArea") = Ok (Some sample_area).
Proof.
  destruct (lookup_roundtrip true sample_snapshot 0 sample_area) as [H1 H2].
  - apply (loaded_init true sample_doc). vm_compute. reflexivity.
  - vm_compute. reflexivity.
  - vm_compute. repeat constructor. discriminate.
  - vm_compute. reflexivity.
  - destruct (H2 "RArea") as (H3 & H4 & H5).
    + vm_compute. reflexivity.
    + vm_compute. reflexivity.
    + split; [exact H1|]. split; [exact H3|]. split; [exact H4|].
      apply H5. vm_compute. reflexivity.
Defined.

(** C1 as stated fails: an entity whose [rdf:about] is a bare token is
    stored under that token, and the lookup of its own IRI normalizes
    the token first and misses it. *)
Lemma lookup_roundtrip_bare_iri_fails :
  ∃ s E, loaded true s ∧ classes s !! 0 = Some E
         ∧ getitem s (ItemStr (iri E)) = Ok None.
Proof.
  exists (snapshot_of bare_doc).
  exists (set_label (Some "Contract") (new_OWLClass "R1")).
  split; [apply (loaded_init true bare_doc); vm_compute; reflexivity|].
  split; vm_compute; reflexivity.
Qed.

(** ** The derived class edges *)

Definition sample_tax : OWLClass :=
  set_sub_class_of
    ["https://soli.openlegalstandard.org/RArea";
     "https://soli.openlegalstandard.org/RGone"; OWL_THING]
    (set_label (Some "Tax Law")
       (new_OWLClass "https://soli.openlegalstandard.org/RTax")).

(** C2, as the code has it.  Building a snapshot never fails, neither
    in [__init__] nor in [refresh].  In a loaded snapshot, when B
    declares A.iri as a parent, A.iri is not the root sentinel, A.iri is
    left unchanged by normalization and no later entity carries it,
    A.parent_class_of contains B.iri; and a declared parent that the
    index does not resolve leaves a warning in the log. *)
Theorem class_edges_inverse (marisa_trie : bool) :
  (∀ root, ∃ s, SOLI_init marisa_trie root = Ok s)
  ∧ (∀ root s, loaded marisa_trie s →
       ∃ s', refresh marisa_trie root s = Ok s')
  ∧ ∀ s, loaded marisa_trie s →
      (∀ a b A B,
         classes s !! a = Some A → classes s !! b = Some B →
         iri A ∈ sub_class_of B → iri A ≠ OWL_THING →
         normalize_iri (iri A) = iri A →
         Forall (λ E', iri E' ≠ iri A) (drop (S a) (classes s)) →
         iri B ∈ parent_class_of A)
      ∧ (∀ b B p,
           classes s !! b = Some B → p ∈ sub_class_of B → p ≠ OWL_THING →
           contains s p = false →
           LogWarning "Parent class not found: %s" p ∈ LOGGER s).
Proof.
  split_and!.
  - intros root. destruct (SOLI_init_spec marisa_trie root) as (s & Hs & _).
    by exists s.
  - intros root s Hloaded.
    destruct (refresh_spec marisa_trie root s) as (s' & Hs' & _);
      [by apply (loaded_snapshot_ok marisa_trie) | by exists s'].
  - intros s Hloaded.
    destruct (loaded_snapshot_ok _ _ Hloaded) as [Hwf Hdone _ _]. split.
    + intros a b A B HA HB Hsub Hthing Hnorm Hlast.
      pose proof (Hdone b B (iri A) HB Hsub Hthing) as Hadd.
      rewrite (getitem_str_resolves s a A (iri A)) in Hadd by done.
      destruct Hadd as (parent & Hparent & Hin). congruence.
    + intros b B p HB Hsub Hthing Hcontains.
      pose proof (Hdone b B p HB Hsub Hthing) as Hadd.
      unfold contains in Hcontains.
      by destruct (iri_to_index s !! normalize_iri p).
Qed.

Lemma class_edges_inverse_witness :
  (∃ s, SOLI_init true sample_doc = Ok s)
  ∧ iri sample_tax ∈ parent_class_of sample_area
  ∧ LogWarning "Parent class not found: %s"
      "https://soli.openlegalstandard.org/RGone" ∈ LOGGER sample_snapshot.
Proof.
  destruct (class_edges_inverse true) as (Hinit & _ & Hloaded).
  split; [apply Hinit|].
  destruct (Hloaded sample_snapshot) as [Hinv Hlog].
  { apply (loaded_init true sample_doc). vm_compute. reflexivity. }
  split.
  - apply (Hinv 0 1 sample_area sample_tax).
    + vm_compute. reflexivity.
    + vm_compute. reflexivity.
    + vm_compute. constructor.
    + vm_compute. discriminate.
    + vm_compute. reflexivity.
    + vm_compute. repeat constructor. discriminate.
  - apply (Hlog 1 sample_tax).
    + vm_compute. reflexivity.
    + vm_compute. do 1 constructor. constructor.
    + vm_compute. discriminate.
    + vm_compute. reflexivity.
Defined.

(** C2 as stated fails: the parent [R1] is stored under its bare token,
    the pass resolves the declared parent [R1] through normalization and
    finds nothing, so [R1] gets no edge to its child [R2]. *)
Lemma class_edges_inverse_bare_iri_fails :
  ∃ s A B, loaded true s ∧ classes s !! 0 = Some A ∧ classes s !! 1 = Some B
           ∧ iri A ∈ sub_class_of B ∧ iri A ≠ OWL_THING
           ∧ iri B ∉ parent_class_of A.
Proof.
  exists (snapshot_of bare_doc).
  exists (set_label (Some "Contract") (new_OWLClass "R1")).
  exists (set_sub_class_of ["R1"]
            (set_label (Some "Lease") (new_OWLClass "R2"))).
  split; [apply (loaded_init true bare_doc); vm_compute; reflexivity|].
  split; [vm_compute; reflexivity|]. split; [vm_compute; reflexivity|].
  split; [vm_compute; constructor|]. split; [vm_compute; discriminate|].
  simpl. apply not_elem_of_nil.
Qed.

(** ** The root sentinel *)

Lemma parse_owl_thing_stored (marisa_trie : bool) (root node : Element)
    (s0 s : SOLI) :
  wf s0 → parse_owl marisa_trie root s0 = Ok s →
  node ∈ getchildren root →
  tag node = get_ns_tag "owl" "Class" →
  od_get (get_ns_tag "rdf" "about") (attrib node) = Some OWL_THING →
  ∃ i c, iri_to_index s !! OWL_THING = Some i
         ∧ classes s !! i = Some c ∧ iri c = OWL_THING.
Proof.
  intros Hwf0 Hrun Hnode Htag Habout.
  destruct (parse_owl_spec marisa_trie root s0 Hwf0)
    as (s' & Hrun' & Hwf & _ & _ & _ & Hgrown).
  assert (s' = s) as -> by congruence.
  destruct (parse_nodes_thing (getchildren root) node s0)
    as (c0 & Hc0 & Hiri0); try done.
  apply list_elem_of_lookup in Hc0 as [i0 Hi0].
  destruct (Forall2_lookup_l _ _ _ _ _ Hgrown Hi0) as (c1 & Hc1 & Hg).
  destruct (wf_iri_last _ Hwf _ _ Hc1) as (j & Hj & _).
  rewrite (grown_iri _ _ Hg), Hiri0 in Hj.
  destruct (wf_iri _ Hwf _ _ Hj) as (c & Hc & Hiri).
  by exists j, c.
Qed.

Definition thing_doc : Element :=
  rdf_RDF [ owl_Class OWL_THING [] ].

(** C7, as the code has it.  A Class node about the root sentinel is
    accepted, with or without a label, and is stored in the entity
    sequence and the IRI index, by [__init__] and by [refresh] alike.
    The pass that derives the edges skips a declared parent equal to the
    sentinel, and the forward-edge map of a loaded snapshot has no entry
    for the sentinel. *)
Theorem root_sentinel (marisa_trie : bool) :
  (∀ s, loaded marisa_trie s → class_edges s !! OWL_THING = None)
  ∧ (∀ child_iri s, add_class_edge child_iri OWL_THING s = Ok s)
  ∧ (∀ root node s,
       SOLI_init marisa_trie root = Ok s →
       node ∈ getchildren root →
       tag node = get_ns_tag "owl" "Class" →
       od_get (get_ns_tag "rdf" "about") (attrib node) = Some OWL_THING →
       ∃ i c, iri_to_index s !! OWL_THING = Some i
              ∧ classes s !! i = Some c ∧ iri c = OWL_THING)
  ∧ (∀ root node s0 s,
       refresh marisa_trie root s0 = Ok s →
       node ∈ getchildren root →
       tag node = get_ns_tag "owl" "Class" →
       od_get (get_ns_tag "rdf" "about") (attrib node) = Some OWL_THING →
       ∃ i c, iri_to_index s !! OWL_THING = Some i
              ∧ classes s !! i = Some c ∧ iri c = OWL_THING).
Proof.
  split_and!.
  - intros s Hloaded.
    apply wf_thing, (snap_wf marisa_trie), loaded_snapshot_ok, Hloaded.
  - intros child_iri s. unfold add_class_edge. by rewrite String.eqb_refl.
  - intros root node s Hinit. unfold SOLI_init in Hinit.
    eapply parse_owl_thing_stored; [apply wf_new_SOLI | exact Hinit].
  - intros root node s0 s Hrefresh. unfold refresh in Hrefresh.
    eapply parse_owl_thing_stored; [|exact Hrefresh]. by apply wf_empty.
Qed.

Lemma root_sentinel_witness :
  class_edges sample_snapshot !! OWL_THING = None
  ∧ add_class_edge (iri sample_tax) OWL_THING sample_snapshot
    = Ok sample_snapshot
  ∧ ∃ i c, iri_to_index (snapshot_of thing_doc) !! OWL_THING = Some i
           ∧ classes (snapshot_of thing_doc) !! i = Some c
           ∧ iri c = OWL_THING.
Proof.
  destruct (root_sentinel true) as (Hedges & Hskip & Hstored & _).
  split; [|split].
  - apply Hedges, (loaded_init true sample_doc). vm_compute. reflexivity.
  - apply Hskip.
  - apply (Hstored thing_doc (owl_Class OWL_THING [])).
    + vm_compute. reflexivity.
    + vm_compute. constructor.
    + vm_compute. reflexivity.
    + vm_compute. reflexivity.
Defined.

(** C7 as stated fails: a Class node about the root sentinel, here
    without a label, is stored at position 0 and indexed. *)
Lemma root_sentinel_stored :
  ∃ s c, loaded true s ∧ classes s !! 0 = Some c ∧ iri c = OWL_THING
         ∧ iri_to_index s !! OWL_THING = Some 0.
Proof.
  exists (snapshot_of thing_doc), (new_OWLClass OWL_THING).
  split; [apply (loaded_init true thing_doc); vm_compute; reflexivity|].
  split_and!; vm_compute; reflexivity.
Qed.

(** ** Lookup by position *)

(** C8, as the code has it.  Lookup by position never raises.  It
    returns the entity at position [i] when [0 <= i < n], where [n] is
    the entity count; Python counts a negative position from the end, so
    for [-n <= i < 0] it returns the entity at position [n + i]; for
    every other integer it returns [None]. *)
Theorem getitem_position (s : SOLI) (i : Z) :
  let n := Z.of_nat (length (classes s)) in
  ((0 ≤ i < n)%Z →
     ∃ c, classes s !! Z.to_nat i = Some c
          ∧ getitem s (ItemInt i) = Ok (Some c))
  ∧ ((- n ≤ i < 0)%Z →
       ∃ c, classes s !! Z.to_nat (n + i) = Some c
            ∧ getitem s (ItemInt i) = Ok (Some c))
  ∧ ((n ≤ i)%Z ∨ (i < - n)%Z → getitem s (ItemInt i) = Ok None).
Proof.
  simpl. unfold getitem_int. split_and!.
  - intros [H0 Hn].
    destruct (lookup_lt_is_Some_2 (classes s) (Z.to_nat i)) as [c Hc]; [lia|].
    exists c. split; [done|].
    apply Z.leb_le in H0. by rewrite H0, Hc.
  - intros [Hn H0].
    destruct (lookup_lt_is_Some_2 (classes s)
                (Z.to_nat (Z.of_nat (length (classes s)) + i)))
      as [c Hc]; [lia|].
    exists c. split; [done|].
    apply Z.leb_le in Hn. apply Z.leb_gt in H0. by rewrite H0, Hn, Hc.
  - intros [Hn|Hn].
    + assert ((0 <=? i)%Z = true) as -> by (apply Z.leb_le; lia).
      f_equal. apply lookup_ge_None. lia.
    + assert ((0 <=? i)%Z = false) as -> by (apply Z.leb_gt; lia).
      assert ((- Z.of_nat (length (classes s)) <=? i)%Z = false) as ->
        by (apply Z.leb_gt; lia).
      done.
Qed.

Lemma getitem_position_witness :
  getitem sample_snapshot (ItemInt 1) = Ok (Some sample_tax)
  ∧ getitem sample_snapshot (ItemInt (-2)) = Ok (Some sample_area)
  ∧ getitem sample_snapshot (ItemInt 2) = Ok None
  ∧ getitem sample_snapshot (ItemInt (-3)) = Ok None.
Proof.
  split; [|split; [|split]].
  - destruct (getitem_position sample_snapshot 1) as ([c [Hc ->]] & _ & _).
    + vm_compute. split; [discriminate | reflexivity].
    + vm_compute in Hc. injection Hc as <-. reflexivity.
  - destruct (getitem_position sample_snapshot (-2))
      as (_ & [c [Hc ->]] & _).
    + vm_compute. split; [discriminate | reflexivity].
    + vm_compute in Hc. injection Hc as <-. reflexivity.
  - apply (getitem_position sample_snapshot 2). left.
    vm_compute. discriminate.
  - apply (getitem_position sample_snapshot (-3)). right.
    vm_compute. reflexivity.
Defined.

(** C8 as stated fails: position [-1] is out of range for a sequence of
    two entities, yet the lookup returns the last entity. *)
Lemma getitem_position_negative :
  ∃ s, loaded true s ∧ length (classes s) = 2
       ∧ getitem s (ItemInt (-1)) = Ok (Some sample_tax).
Proof.
  exists sample_snapshot.
  split; [apply (loaded_init true sample_doc); vm_compute; reflexivity|].
  split; vm_compute; reflexivity.
Qed.

(** ** Children of a Class node *)

(** Decide the comparisons between two known tags. *)
Ltac decide_tags :=
  repeat match goal with
         | |- context [String.eqb (get_ns_tag ?a ?b) (get_ns_tag ?c ?d)] =>
             let v := eval vm_compute in
                        (String.eqb (get_ns_tag a b) (get_ns_tag c d)) in
             change (String.eqb (get_ns_tag a b) (get_ns_tag c d)) with v
         end;
  cbv iota.

(** C9.  A [skos:prefLabel] child sets the preferred label to its text
    and leaves the state, the triple log with it, unchanged; a child
    with any other tag that changes the entity appends exactly one
    triple. *)
Theorem pref_label_child (child : Element) (owl_class : OWLClass)
    (self : SOLI) :
  (tag child = get_ns_tag "skos" "prefLabel" →
     parse_owl_class_child child (owl_class, self)
     = (set_preferred_label (text child) owl_class, self))
  ∧ (tag child ≠ get_ns_tag "skos" "prefLabel" →
     ∀ owl_class' self',
       parse_owl_class_child child (owl_class, self) = (owl_class', self') →
       owl_class' ≠ owl_class →
       ∃ t, triples self' = triples self ++ [t]).
Proof.
  split.
  - intros Htag. unfold parse_owl_class_child. rewrite Htag. by decide_tags.
  - intros Htag c' s' Hrun Hchanged. unfold parse_owl_class_child in Hrun.
    repeat case_match; simplify_eq; try (by eexists);
      match goal with
      | H : String.eqb _ _ = true |- _ => by apply String.eqb_eq in H
      end.
Qed.

Definition skos_prefLabel (text' : string) : Element :=
  mkElement (get_ns_tag "skos" "prefLabel") [] (Some text') [].

Lemma pref_label_child_witness :
  parse_owl_class_child (skos_prefLabel "Tax") (sample_tax, sample_snapshot)
  = (set_preferred_label (Some "Tax") sample_tax, sample_snapshot)
  ∧ ∃ t, triples (parse_owl_class_child (rdfs_label "Tax")
                    (sample_tax, sample_snapshot)).2
         = triples sample_snapshot ++ [t].
Proof.
  split.
  - apply (pref_label_child (skos_prefLabel "Tax")). vm_compute. reflexivity.
  - destruct (pref_label_child (rdfs_label "Tax") sample_tax sample_snapshot)
      as [_ H].
    apply (H ltac:(vm_compute; discriminate)
             (parse_owl_class_child (rdfs_label "Tax")
                (sample_tax, sample_snapshot)).1).
    + by destruct (parse_owl_class_child _ _).
    + vm_compute. discriminate.
Defined.

(** C10.  For an [rdfs:seeAlso] child: without an [rdf:resource]
    attribute, or with an empty one, neither the entity nor the state
    changes; with one, the text of the child is appended to [see_also]
    and the triple that is appended has the attribute value as its
    object. *)
Theorem see_also_child (child : Element) (owl_class : OWLClass)
    (self : SOLI) :
  tag child = get_ns_tag "rdfs" "seeAlso" →
  match od_get (get_ns_tag "rdf" "resource") (attrib child) with
  | None | Some EmptyString =>
      parse_owl_class_child child (owl_class, self) = (owl_class, self)
  | Some resource =>
      parse_owl_class_child child (owl_class, self)
      = (set_see_also (see_also owl_class ++ [text child]) owl_class,
         triples_append (iri owl_class, "rdfs:seeAlso", Some resource) self)
  end.
Proof.
  intros Htag. unfold parse_owl_class_child. rewrite Htag. decide_tags.
  by destruct (od_get _ (attrib child)) as [[|]|].
Qed.

Definition rdfs_seeAlso (attrib' : odict string) (text' : option string)
  : Element :=
  mkElement (get_ns_tag "rdfs" "seeAlso") attrib' text' [].

(** The value kept on the entity and the object of the triple differ
    here: the element text against the attribute value. *)
Lemma see_also_child_witness :
  parse_owl_class_child
    (rdfs_seeAlso [(get_ns_tag "rdf" "resource", "http://example.org/a")]
       (Some "note"))
    (sample_tax, new_SOLI)
  = (set_see_also [Some "note"] sample_tax,
     set_triples
       [(iri sample_tax, "rdfs:seeAlso", Some "http://example.org/a")]
       new_SOLI)
  ∧ parse_owl_class_child (rdfs_seeAlso [] (Some "note"))
      (sample_tax, new_SOLI) = (sample_tax, new_SOLI)
  ∧ parse_owl_class_child
      (rdfs_seeAlso [(get_ns_tag "rdf" "resource", "")] (Some "note"))
      (sample_tax, new_SOLI) = (sample_tax, new_SOLI).
Proof.
  split; [|split].
  - apply (see_also_child
             (rdfs_seeAlso
                [(get_ns_tag "rdf" "resource", "http://example.org/a")]
                (Some "note")) sample_tax new_SOLI).
    vm_compute. reflexivity.
  - apply (see_also_child (rdfs_seeAlso [] (Some "note")) sample_tax new_SOLI).
    vm_compute. reflexivity.
  - apply (see_also_child
             (rdfs_seeAlso [(get_ns_tag "rdf" "resource", "")] (Some "note"))
             sample_tax new_SOLI).
    vm_compute. reflexivity.
Defined.

(** ** Prefix search on a loaded snapshot *)

(** C6.  On a loaded snapshot a prefix search returns, and its result
    pairs up with a list [ks] of matched strings: every element of the
    result is an entity, its matched string starts with the prefix and
    is its label or one of its alternative labels, and the matched
    strings are in non-decreasing order of length. *)
Theorem search_by_prefix_matches (marisa_trie : bool) (s : SOLI)
    (prefix : string) :
  loaded marisa_trie s →
  ∃ r s' ks,
    search_by_prefix marisa_trie prefix s = Ok (r, s')
    ∧ Forall2
        (λ k oe, ∃ e, oe = Some e ∧ startswith k prefix = true
                      ∧ (label e = Some k ∨ Some k ∈ alternative_labels e))
        ks r
    ∧ StronglySorted (λ a b, String.length a ≤ String.length b) ks.
Proof.
  intros Hloaded.
  destruct (loaded_snapshot_ok _ _ Hloaded) as [Hwf _ Hcache Htrie].
  destruct (search_by_prefix_spec marisa_trie prefix s Hwf Hcache Htrie)
    as (r & m & Hrun & (ks & Hks & Hsorted) & _).
  by exists r, (set__prefix_cache m s), ks.
Qed.

Lemma search_by_prefix_matches_witness :
  ∃ r s' ks,
    search_by_prefix true "Tax" sample_snapshot = Ok (r, s')
    ∧ Forall2
        (λ k oe, ∃ e, oe = Some e ∧ startswith k "Tax" = true
                      ∧ (label e = Some k ∨ Some k ∈ alternative_labels e))
        ks r
    ∧ StronglySorted (λ a b, String.length a ≤ String.length b) ks.
Proof.
  apply (search_by_prefix_matches true sample_snapshot "Tax").
  apply (loaded_init true sample_doc). vm_compute. reflexivity.
Defined.

(** ** Refresh and the memoized prefix searches *)

Lemma refresh_prefix_cache (marisa_trie : bool) (root : Element) (s s' : SOLI) :
  refresh marisa_trie root s = Ok s' → _prefix_cache s' = _prefix_cache s.
Proof.
  intros Hrun.
  destruct (refresh_run marisa_trie root s) as (s1 & Hs1 & _ & _ & Hp & _).
  congruence.
Qed.

(** C3 does not hold of the code: [refresh] leaves [_prefix_cache] as it
    was, so a prefix searched before the refresh is answered afterwards
    with the list computed on the previous snapshot. *)
Theorem refresh_keeps_prefix_cache (marisa_trie : bool) (root : Element)
    (s s' : SOLI) (prefix : string) (cached : list (option OWLClass)) :
  _prefix_cache s !! prefix = Some cached →
  refresh marisa_trie root s = Ok s' →
  search_by_prefix marisa_trie prefix s' = Ok (cached, s').
Proof.
  intros Hcached Hrun. unfold search_by_prefix.
  by rewrite (refresh_prefix_cache _ _ _ _ Hrun), Hcached.
Qed.

(** The sample snapshot after a search for ["Tax"]. *)
Definition searched_snapshot : SOLI :=
  match search_by_prefix true "Tax" sample_snapshot with
  | Ok (_, s) => s
  | _ => new_SOLI
  end.

(** ... and after a refresh that fetched a document without classes. *)
Definition refreshed_snapshot : SOLI :=
  match refresh true (rdf_RDF []) searched_snapshot with
  | Ok s => s
  | _ => new_SOLI
  end.

Lemma refresh_keeps_prefix_cache_witness :
  classes refreshed_snapshot = []
  ∧ search_by_prefix true "Tax" refreshed_snapshot
    = Ok ([Some sample_tax], refreshed_snapshot).
Proof.
  split; [vm_compute; reflexivity|].
  apply (refresh_keeps_prefix_cache true (rdf_RDF []) searched_snapshot).
  - vm_compute. reflexivity.
  - vm_compute. reflexivity.
Defined.

(** ** Traversal *)

(** [hops s n i e]: the entity [e] is reached from the entity that [i]
    resolves to by a chain of [n] [sub_class_of] steps. *)
Inductive hops (s : SOLI) : nat → string → OWLClass → Prop :=
| hops_here i c :
    getitem_str s i = Ok (Some c) → hops s 0 i c
| hops_step n i c p e :
    getitem_str s i = Ok (Some c) → p ∈ sub_class_of c → hops s n p e →
    hops s (S n) i e.

Lemma get_parents_unfold (fuel : nat) (s : SOLI) (i : string) (d : Z) :
  get_parents (S fuel) s i d
  = match iri_to_index s !! normalize_iri i with
    | None => Ok []
    | Some index =>
        match classes s !! index with
        | None => Raise IndexError
        | Some owl_class =>
            if negb (d =? 0)%Z then
              for_each
                (λ parent_class subgraph,
                   let* more := get_parents fuel s parent_class (d - 1) in
                   Ok (subgraph ++ more))
                (sub_class_of owl_class) [owl_class]
            else Ok [owl_class]
        end
    end.
Proof. reflexivity. Qed.

(** The loop over the declared parents, when each recursive call
    returns entities within [n] hops of its start. *)
Lemma get_parents_loop (s : SOLI) (fuel n : nat) (d : Z) (l : list string)
    (acc : list OWLClass) :
  (∀ p, ∃ r, get_parents fuel s p d = Ok r
             ∧ ∀ e, e ∈ r → ∃ m, m ≤ n ∧ hops s m p e) →
  ∃ r, for_each
         (λ parent_class subgraph,
            let* more := get_parents fuel s parent_class d in
            Ok (subgraph ++ more)) l acc = Ok r
       ∧ ∀ e, e ∈ r →
           e ∈ acc ∨ ∃ p m, p ∈ l ∧ m ≤ n ∧ hops s m p e.
Proof.
  intros Hrec. revert acc. induction l as [|p l IH]; intros acc; simpl.
  - exists acc. split; [done | by left].
  - destruct (Hrec p) as (rp & -> & Hrp). simpl.
    destruct (IH (acc ++ rp)) as (r & -> & Hr).
    exists r. split; [done|]. intros e He.
    destruct (Hr e He) as [Hacc | (q & m & Hq & Hm & Hhops)].
    + apply elem_of_app in Hacc as [Hacc|Hacc]; [by left|].
      destruct (Hrp e Hacc) as (m & Hm & Hhops).
      right. exists p, m. split_and!; [apply list_elem_of_here | done | done].
    + right. exists q, m. split_and!; [by apply list_elem_of_further | done | done].
Qed.

Lemma get_parents_within (s : SOLI) (n : nat) :
  wf s → ∀ fuel i, n < fuel →
    ∃ r, get_parents fuel s i (Z.of_nat n) = Ok r
         ∧ ∀ e, e ∈ r → ∃ m, m ≤ n ∧ hops s m i e.
Proof.
  intros Hwf. induction n as [|n IH]; intros fuel i Hfuel;
    (destruct fuel as [|fuel]; [lia|]); rewrite get_parents_unfold.
  - destruct (iri_to_index s !! normalize_iri i) as [index|] eqn:Ei.
    + destruct (wf_iri _ Hwf _ _ Ei) as (c & Hc & _). rewrite Hc. simpl.
      exists [c]. split; [done|]. intros e ->%list_elem_of_singleton.
      exists 0. split; [done|]. constructor. unfold getitem_str.
      by rewrite Ei, Hc.
    + exists []. split; [done|]. intros e He. by apply elem_of_nil in He.
  - destruct (iri_to_index s !! normalize_iri i) as [index|] eqn:Ei.
    + destruct (wf_iri _ Hwf _ _ Ei) as (c & Hc & _). rewrite Hc.
      assert (getitem_str s i = Ok (Some c)) as Hget.
      { unfold getitem_str. by rewrite Ei, Hc. }
      assert ((Z.of_nat (S n) =? 0)%Z = false) as -> by (apply Z.eqb_neq; lia).
      replace (Z.of_nat (S n) - 1)%Z with (Z.of_nat n) by lia. simpl.
      destruct (get_parents_loop s fuel n (Z.of_nat n) (sub_class_of c) [c])
        as (r & Hr & Hin).
      { intros p. apply IH. lia. }
      exists r. split; [done|]. intros e He.
      destruct (Hin e He) as [->%list_elem_of_singleton
                             | (p & m & Hp & Hm & Hhops)].
      * exists 0. split; [lia | by constructor].
      * exists (S m). split; [lia | by econstructor].
    + exists []. split; [done|]. intros e He. by apply elem_of_nil in He.
Qed.

(** C4, as the code has it.  On a loaded snapshot and for a depth limit
    [max_depth >= 0], [get_parents] returns with any recursion budget
    above [max_depth], for every IRI string; each entity of its result
    is reached by a chain of at most [max_depth] [sub_class_of] steps
    from the start; an IRI that does not resolve gives the empty list,
    and at [max_depth = 0] the result is the start entity alone. *)
Theorem get_parents_bounded (marisa_trie : bool) (s : SOLI) (iri' : string)
    (max_depth : Z) (fuel : nat) :
  loaded marisa_trie s → (0 ≤ max_depth)%Z → Z.to_nat max_depth < fuel →
  ∃ r, get_parents fuel s iri' max_depth = Ok r
       ∧ (∀ e, e ∈ r → ∃ n, n ≤ Z.to_nat max_depth ∧ hops s n iri' e)
       ∧ (getitem_str s iri' = Ok None → r = [])
       ∧ (max_depth = 0%Z →
          ∀ c, getitem_str s iri' = Ok (Some c) → r = [c]).
Proof.
  intros Hloaded Hdepth Hfuel.
  pose proof (snap_wf _ _ (loaded_snapshot_ok _ _ Hloaded)) as Hwf.
  destruct (get_parents_within s (Z.to_nat max_depth) Hwf fuel iri' Hfuel)
    as (r & Hr & Hin).
  rewrite Z2Nat.id in Hr by done.
  exists r. split_and!; [done | done | |].
  - intros Hnone. destruct fuel as [|fuel]; [lia|].
    rewrite get_parents_unfold in Hr. unfold getitem_str in Hnone.
    destruct (iri_to_index s !! normalize_iri iri') as [index|];
      [|congruence].
    by destruct (classes s !! index).
  - intros -> c Hsome. destruct fuel as [|fuel]; [lia|].
    rewrite get_parents_unfold in Hr. unfold getitem_str in Hsome.
    destruct (iri_to_index s !! normalize_iri iri') as [index|];
      [|congruence].
    destruct (classes s !! index); simpl in Hr; congruence.
Qed.

Lemma get_parents_bounded_witness :
  ∃ r, get_parents 2 sample_snapshot "soli:RTax" 1 = Ok r
       ∧ (∀ e, e ∈ r → ∃ n, n ≤ 1 ∧ hops sample_snapshot n "soli:RTax" e)
       ∧ (getitem_str sample_snapshot "soli:RTax" = Ok None → r = [])
       ∧ (1%Z = 0%Z →
          ∀ c, getitem_str sample_snapshot "soli:RTax" = Ok (Some c) →
               r = [c]).
Proof.
  apply (get_parents_bounded true sample_snapshot "soli:RTax" 1 2).
  - apply (loaded_init true sample_doc). vm_compute. reflexivity.
  - lia.
  - vm_compute. lia.
Defined.

(** A class that declares itself as its parent. *)
Definition loop_doc : Element :=
  rdf_RDF
    [ owl_Class "https://soli.openlegalstandard.org/RLoop"
        [rdfs_label "Loop";
         rdfs_subClassOf "https://soli.openlegalstandard.org/RLoop"] ].

Lemma get_parents_self_parent (s : SOLI) (i : string) (index : nat)
    (c : OWLClass) :
  iri_to_index s !! normalize_iri i = Some index →
  classes s !! index = Some c → sub_class_of c = [i] →
  ∀ fuel d, (d < 0)%Z → get_parents fuel s i d = NoFuel.
Proof.
  intros Hi Hc Hsub. induction fuel as [|fuel IH]; intros d Hd; [done|].
  rewrite get_parents_unfold, Hi, Hc, Hsub.
  assert ((d =? 0)%Z = false) as -> by (apply Z.eqb_neq; lia).
  simpl. by rewrite IH by lia.
Qed.

(** C4 as stated fails for a negative depth limit: the limit never
    reaches 0.  On a class that declares itself as its parent no
    recursion budget is enough for [get_parents] to return; and where it
    returns, on the sample snapshot, the result holds an entity one hop
    away from the start although the limit is [-1]. *)
Lemma get_parents_negative_depth_diverges :
  (∃ s, loaded true s
        ∧ ∀ fuel,
            get_parents fuel s "https://soli.openlegalstandard.org/RLoop" (-1)
            = NoFuel)
  ∧ loaded true sample_snapshot
  ∧ get_parents 3 sample_snapshot "https://soli.openlegalstandard.org/RTax"
      (-1) = Ok [sample_tax; sample_area].
Proof.
  split; [|split;
           [apply (loaded_init true sample_doc); vm_compute; reflexivity
           |vm_compute; reflexivity]].
  exists (snapshot_of loop_doc).
  split; [apply (loaded_init true loop_doc); vm_compute; reflexivity|].
  intros fuel.
  apply (get_parents_self_parent _ _ 0
           (set_parent_class_of ["https://soli.openlegalstandard.org/RLoop"]
              (set_sub_class_of ["https://soli.openlegalstandard.org/RLoop"]
                 (set_label (Some "Loop")
                    (new_OWLClass
                       "https://soli.openlegalstandard.org/RLoop")))));
    [vm_compute; reflexivity | vm_compute; reflexivity | reflexivity | lia].
Qed.

(** ** Fuzzy label search *)

Lemma for_each_preserves {A S} (body : A → S → result S) (P : S → Prop)
    (l : list A) :
  (∀ x s s', P s → body x s = Ok s' → P s') →
  ∀ s s', P s → for_each body l s = Ok s' → P s'.
Proof.
  intros Hbody. induction l as [|x l IH]; intros s s' Hs Hrun; simpl in Hrun.
  - congruence.
  - destruct (body x s) as [s1| |] eqn:E; try done. simpl in Hrun.
    eapply IH; [|done]. by eapply Hbody.
Qed.

(** What the loops of [search_by_label] keep: the IRIs of the collected
    entities are distinct and all recorded as seen. *)
Definition seen_inv {Score} (st : gset string * list (OWLClass * Score))
  : Prop :=
  NoDup (map (λ x, iri x.1) st.2) ∧ ∀ x, x ∈ st.2 → iri x.1 ∈ st.1.

Lemma search_by_label_classes_inv {Score} (limit : Z) (score : Score)
    (l : list (option OWLClass)) st st' :
  seen_inv st → search_by_label_classes Score limit score l st = Ok st' →
  seen_inv st'.
Proof.
  revert st. induction l as [|[c|] l IH]; intros [seen results] Hinv Hrun;
    simpl in Hrun; [congruence | | done].
  assert (seen_inv
            (if bool_decide (iri c ∈ seen) then (seen, results)
             else ({[iri c]} ∪ seen, results ++ [(c, score)]))) as Hinv'.
  { destruct Hinv as [Hnd Hseen]. case_bool_decide as Hc; [by split|].
    simpl in *. split; simpl.
    - rewrite map_app. simpl. apply NoDup_app. split_and!; [done | |].
      + intros i Hi ->%list_elem_of_singleton.
        apply list_elem_of_In, in_map_iff in Hi as (x & Hx & Hin).
        apply Hc. rewrite <- Hx. by apply Hseen, list_elem_of_In.
      + apply NoDup_singleton.
    - intros x [Hx | ->%list_elem_of_singleton]%elem_of_app.
      + apply elem_of_union. right. by apply Hseen.
      + apply elem_of_union. left. by apply elem_of_singleton. }
  destruct (limit <=? _)%Z; [congruence|]. by eapply IH.
Qed.

(** The entities that [search_by_label] returns have distinct IRIs. *)
Lemma search_by_label_distinct {Score} score_le rapidfuzz (s : SOLI)
    (query : string) (include_alt_labels : bool) (limit : Z) r :
  search_by_label Score score_le rapidfuzz s query include_alt_labels limit
  = Ok r →
  NoDup (map (λ x, iri x.1) r).
Proof.
  unfold search_by_label. destruct rapidfuzz as [extract|]; [|done].
  destruct (_basic_search _ _ _ _ _ _ _) as [found| |]; [|done..]. simpl.
  destruct (for_each _ found _) as [st| |] eqn:E; [|done..]. simpl.
  intros [= <-].
  eapply (for_each_preserves _ seen_inv) in E as [Hnd _]; [done | |].
  - intros [[search_label score] n] st1 st2 Hinv Hrun.
    by eapply search_by_label_classes_inv.
  - split; [constructor|]. intros x Hx. by apply elem_of_nil in Hx.
Qed.

(** Two classes share the label ["ab"], a third is labelled ["abc"]. *)
Definition homonym_doc : Element :=
  rdf_RDF
    [ owl_Class "https://soli.openlegalstandard.org/RA1" [rdfs_label "ab"];
      owl_Class "https://soli.openlegalstandard.org/RA2" [rdfs_label "ab"];
      owl_Class "https://soli.openlegalstandard.org/RB" [rdfs_label "abc"] ].

Definition homonym_snapshot : SOLI := snapshot_of homonym_doc.

Definition homonym (token label' : string) : OWLClass :=
  set_label (Some label')
    (new_OWLClass ("https://soli.openlegalstandard.org/" +:+ token)).

(** C5 does not hold of the code: the [break] leaves the loop over the
    classes of one matched string only, and the loop over the matched
    strings goes on.  With [limit = 2], when the fuzzy matcher ranks the
    string ["ab"] before ["abc"], the search returns three pairs. *)
Theorem search_by_label_exceeds_limit (Score : Type)
    (score_le : Score → Score → bool)
    (extract : string → list string → SearchType → Z
               → list (string * Score * nat))
    (x y : Score) :
  _basic_search Score score_le (Some extract) "ab" ["ab"; "abc"] 2
    search_string
  = Ok [("ab", x, 0); ("abc", y, 1)] →
  search_by_label Score score_le (Some extract) homonym_snapshot "ab" true 2
  = Ok [(homonym "RA1" "ab", x); (homonym "RA2" "ab", x);
        (homonym "RB" "abc", y)].
Proof.
  intros Hfound. unfold search_by_label. cbv zeta.
  change (negb true) with false. cbv iota.
  replace (od_keys (label_to_index homonym_snapshot)
           ++ od_keys (alt_label_to_index homonym_snapshot))
    with ["ab"; "abc"] by (vm_compute; reflexivity).
  rewrite Hfound. vm_compute. reflexivity.
Qed.

Lemma search_by_label_exceeds_limit_witness :
  search_by_label nat Nat.leb
    (Some (λ _ _ _ _, [("ab", 100, 0); ("abc", 90, 1)]))
    homonym_snapshot "ab" true 2
  = Ok [(homonym "RA1" "ab", 100); (homonym "RA2" "ab", 100);
        (homonym "RB" "abc", 90)].
Proof.
  apply (search_by_label_exceeds_limit nat Nat.leb
           (λ _ _ _ _, [("ab", 100, 0); ("abc", 90, 1)]) 100 90).
  vm_compute. reflexivity.
Defined.

Lemma homonym_snapshot_loaded : loaded true homonym_snapshot.
Proof. apply (loaded_init true homonym_doc). vm_compute. reflexivity. Qed.

Lemma refreshed_snapshot_loaded : loaded true refreshed_snapshot.
Proof.
  apply (loaded_refresh true (rdf_RDF []) searched_snapshot).
  - apply (loaded_search true "Tax" sample_snapshot [Some sample_tax]).
    + apply (loaded_init true sample_doc). vm_compute. reflexivity.
    + vm_compute. reflexivity.
  - vm_compute. reflexivity.
Qed.

(** * More of the code *)

(** ** Lookup and membership *)

(** X1.  On a loaded snapshot a lookup by string never raises; it
    answers [None] exactly when the membership test is false, and an
    entity it returns is stored in the snapshot and carries the
    normalized form of the string as its IRI. *)
Theorem getitem_str_sound (marisa_trie : bool) (s : SOLI) (item : string) :
  loaded marisa_trie s →
  (getitem s (ItemStr item) = Ok None ∧ contains s item = false)
  ∨ ∃ E, getitem s (ItemStr item) = Ok (Some E) ∧ contains s item = true
         ∧ iri E = normalize_iri item ∧ E ∈ classes s.
Proof.
  intros Hloaded.
  pose proof (snap_wf _ _ (loaded_snapshot_ok _ _ Hloaded)) as Hwf.
  simpl. unfold getitem_str, contains.
  destruct (iri_to_index s !! normalize_iri item) as [index|] eqn:Ei;
    [|by left].
  destruct (wf_iri _ Hwf _ _ Ei) as (E & HE & Hiri). rewrite HE.
  right. exists E. split_and!; try done. by eapply list_elem_of_lookup_2.
Qed.

Lemma getitem_str_sound_witness :
  (getitem sample_snapshot (ItemStr "lmss:RTax") = Ok None
   ∧ contains sample_snapshot "lmss:RTax" = false)
  ∨ ∃ E, getitem sample_snapshot (ItemStr "lmss:RTax") = Ok (Some E)
         ∧ contains sample_snapshot "lmss:RTax" = true
         ∧ iri E = normalize_iri "lmss:RTax" ∧ E ∈ classes sample_snapshot.
Proof.
  apply (getitem_str_sound true sample_snapshot "lmss:RTax").
  apply (loaded_init true sample_doc). vm_compute. reflexivity.
Defined.

Lemma count_char_app (c : ascii) (a b : string) :
  count_char c (a +:+ b) = count_char c a + count_char c b.
Proof. induction a as [|d a IH]; simpl; [done|]. rewrite IH. lia. Qed.

Lemma count_char_drop (c : ascii) (n : nat) (s : string) :
  count_char c (string_drop n s) ≤ count_char c s.
Proof.
  revert s. induction n as [|n IH]; intros s; simpl; [done|].
  destruct s as [|d s]; simpl; [done|]. specialize (IH s). lia.
Qed.

(** X2.  A normalized IRI always contains a slash: it is never a bare
    token.  A string without a slash, whatever prefixes it carries, is
    normalized to an IRI under the canonical base, and normalizing that
    again changes nothing; a string under the canonical base is left as
    it is. *)
Theorem normalize_iri_shape (iri' : string) :
  0 < count_char "/" (normalize_iri iri')
  ∧ (count_char "/" iri' = 0 →
     startswith (normalize_iri iri') SOLI_BASE = true
     ∧ normalize_iri (normalize_iri iri') = normalize_iri iri')
  ∧ (startswith iri' SOLI_BASE = true → normalize_iri iri' = iri').
Proof.
  split_and!.
  - unfold normalize_iri.
    change "https://soli.openlegalstandard.org/" with SOLI_BASE.
    destruct (startswith iri' SOLI_BASE) eqn:Eb.
    + apply (startswith_count "/") in Eb. vm_compute count_char in Eb at 1.
      lia.
    + match goal with
      | |- context [Nat.eqb (count_char "/" ?x) 0] =>
          destruct (Nat.eqb (count_char "/" x) 0) eqn:Ec
      end.
      * rewrite count_char_app. vm_compute count_char at 1. lia.
      * apply Nat.eqb_neq in Ec. lia.
  - intros Hc.
    assert (∃ token, normalize_iri iri' = SOLI_BASE +:+ token) as [token ->].
    { unfold normalize_iri.
      change "https://soli.openlegalstandard.org/" with SOLI_BASE.
      rewrite (startswith_no_slash SOLI_BASE iri' Hc) by (vm_compute; lia).
      set (i1 := if startswith iri' "soli:" then _ else iri').
      assert (count_char "/" i1 = 0) as H1.
      { unfold i1. destruct (startswith iri' "soli:"); [|done].
        pose proof (count_char_drop "/" (String.length "soli:") iri'). lia. }
      set (i2 := if startswith i1 "lmss:" then _ else i1).
      assert (count_char "/" i2 = 0) as H2.
      { unfold i2. destruct (startswith i1 "lmss:"); [|done].
        pose proof (count_char_drop "/" (String.length "lmss:") i1). lia. }
      rewrite (startswith_no_slash "http://lmss.sali.org/" i2 H2)
        by (vm_compute; lia).
      rewrite H2. by exists i2. }
    split; [apply startswith_app | apply normalize_iri_base].
  - intros Hb. unfold normalize_iri.
    change "https://soli.openlegalstandard.org/" with SOLI_BASE.
    by rewrite Hb.
Qed.

Lemma normalize_iri_shape_witness :
  0 < count_char "/" (normalize_iri "soli:lmss:R1")
  ∧ startswith (normalize_iri "soli:lmss:R1") SOLI_BASE = true
  ∧ normalize_iri (normalize_iri "soli:lmss:R1") = normalize_iri "soli:lmss:R1"
  ∧ normalize_iri "https://soli.openlegalstandard.org/a/b"
    = "https://soli.openlegalstandard.org/a/b".
Proof.
  destruct (normalize_iri_shape "soli:lmss:R1") as (H1 & H2 & _).
  destruct H2 as [H2 H3]; [vm_compute; reflexivity|].
  destruct (normalize_iri_shape "https://soli.openlegalstandard.org/a/b")
    as (_ & _ & H4).
  split; [exact H1|]. split; [exact H2|]. split; [exact H3|].
  apply H4. vm_compute. reflexivity.
Defined.

(** X3.  An entity whose IRI is the canonical base followed by a token
    (no slash, no [soli:] or [lmss:] in front), and which no later
    entity shadows, is found under the bare token, and the membership
    test of the bare token is true. *)
Theorem getitem_bare_token (marisa_trie : bool) (s : SOLI) (i : nat)
    (E : OWLClass) (token : string) :
  loaded marisa_trie s →
  classes s !! i = Some E →
  Forall (λ E', iri E' ≠ iri E) (drop (S i) (classes s)) →
  iri E = SOLI_BASE +:+ token →
  count_char "/" token = 0 →
  startswith token "soli:" = false →
  startswith token "lmss:" = false →
  getitem s (ItemStr token) = Ok (Some E) ∧ contains s token = true.
Proof.
  intros Hloaded Hi Hlast Hiri Hc Hs Hl.
  pose proof (snap_wf _ _ (loaded_snapshot_ok _ _ Hloaded)) as Hwf.
  assert (normalize_iri token = iri E) as Hnorm
    by by rewrite normalize_iri_bare, Hiri.
  split; [by eapply getitem_str_found|].
  unfold contains. by rewrite (getitem_str_resolves s i E token).
Qed.

Lemma getitem_bare_token_witness :
  getitem sample_snapshot (ItemStr "RArea") = Ok (Some sample_area)
  ∧ contains sample_snapshot "RArea" = true.
Proof.
  apply (getitem_bare_token true sample_snapshot 0 sample_area "RArea").
  - apply (loaded_init true sample_doc). vm_compute. reflexivity.
  - vm_compute. reflexivity.
  - vm_compute. repeat constructor. discriminate.
  - vm_compute. reflexivity.
  - vm_compute. reflexivity.
  - vm_compute. reflexivity.
  - vm_compute. reflexivity.
Defined.

(** ** What a snapshot records of its classes *)

(** The class under construction in [parse_owl_class]: no derived edge
    yet, and a triple in the log for its label and for each declared
    parent. *)
Record built (c : OWLClass) (s : SOLI) : Prop := {
  built_parent : parent_class_of c = [];
  built_sub : ∀ p, p ∈ sub_class_of c →
                (iri c, "rdfs:subClassOf", Some p) ∈ triples s;
  built_label : ∀ l, label c = Some l →
                  (iri c, "rdfs:label", Some l) ∈ triples s
}.

(** Every stored class is valid or the root sentinel, sits in the label
    indices under its label and its alternative labels, and has its
    label and declared parents in the triple log. *)
Record full (s : SOLI) : Prop := {
  full_valid : ∀ i c, classes s !! i = Some c →
                 is_valid c = true ∨ iri c = OWL_THING;
  full_label : ∀ i c l, classes s !! i = Some c →
                 truthy (label c) = Some l →
                 i ∈ od_get_list l (label_to_index s);
  full_alt : ∀ i c a k, classes s !! i = Some c →
               a ∈ alternative_labels c → truthy a = Some k →
               i ∈ od_get_list k (alt_label_to_index s);
  full_sub_triple : ∀ i c p, classes s !! i = Some c → p ∈ sub_class_of c →
                      (iri c, "rdfs:subClassOf", Some p) ∈ triples s;
  full_label_triple : ∀ i c l, classes s !! i = Some c → label c = Some l →
                        (iri c, "rdfs:label", Some l) ∈ triples s
}.

(** No stored class has a derived edge yet. *)
Definition unlinked (s : SOLI) : Prop :=
  ∀ i c, classes s !! i = Some c → parent_class_of c = [].

Lemma parse_owl_class_child_built child c s c' s' :
  parse_owl_class_child child (c, s) = (c', s') →
  built c s →
  built c' s' ∧ ∀ t, t ∈ triples s → t ∈ triples s'.
Proof.
  unfold parse_owl_class_child. intros Hrun [Hp Hs Hl].
  repeat case_match; simplify_eq; (split; [split; simpl|]); try done;
    try (intros t; simpl; rewrite ?elem_of_app; by auto);
    try (intros p; rewrite ?elem_of_app, ?list_elem_of_singleton;
         intros [?|?]; subst; by auto).
  intros l Hl'. rewrite Hl', elem_of_app, list_elem_of_singleton. by right.
Qed.

Lemma parse_owl_class_children_built l c s c' s' :
  fold_left (λ st child, parse_owl_class_child child st) l (c, s) = (c', s') →
  built c s →
  built c' s' ∧ ∀ t, t ∈ triples s → t ∈ triples s'.
Proof.
  revert c s. induction l as [|child l IH]; intros c s Hrun Hb;
    cbn [fold_left] in Hrun.
  - by simplify_eq.
  - destruct (parse_owl_class_child child (c, s)) as [c1 s1] eqn:E.
    destruct (parse_owl_class_child_built _ _ _ _ _ E Hb) as [Hb1 Hsub1].
    destruct (IH _ _ Hrun Hb1) as [Hb2 Hsub2]. split; [done | by auto].
Qed.

Lemma full_frame s s' :
  frame s s' → (∀ t, t ∈ triples s → t ∈ triples s') → full s → full s'.
Proof.
  intros (Hc & Hi & Hl & Ha & He & _) Ht [H1 H2 H3 H4 H5].
  split; rewrite ?Hc, ?Hl, ?Ha; eauto.
Qed.

(** The label index entry of one alternative label, on the index. *)
Definition alt_step (n : nat) (d : odict (list nat)) (a : option string)
  : odict (list nat) :=
  match truthy a with
  | Some k => index_append k n d
  | None => d
  end.

Lemma index_alt_labels_fields (n : nat) (al : list (option string)) (s : SOLI) :
  let s' := fold_left (index_alt_label n) al s in
  alt_label_to_index s' = fold_left (alt_step n) al (alt_label_to_index s)
  ∧ classes s' = classes s ∧ label_to_index s' = label_to_index s
  ∧ triples s' = triples s.
Proof.
  revert s. induction al as [|a al IH]; intros s; simpl; [done|].
  destruct (IH (index_alt_label n s a)) as (H1 & H2 & H3 & H4).
  rewrite H1, H2, H3, H4. unfold index_alt_label, alt_step.
  by destruct (truthy a).
Qed.

Lemma index_append_mono (k k' : string) (i j : nat) d :
  j ∈ od_get_list k d → j ∈ od_get_list k (index_append k' i d).
Proof.
  intros Hj. rewrite od_get_list_index_append.
  destruct (String.eqb k' k) eqn:E; [|done].
  apply String.eqb_eq in E as ->. apply elem_of_app. by left.
Qed.

Lemma index_append_new (k : string) (i : nat) d :
  i ∈ od_get_list k (index_append k i d).
Proof.
  rewrite od_get_list_index_append, String.eqb_refl.
  apply elem_of_app. right. by apply list_elem_of_singleton.
Qed.

Lemma alt_steps_mono (n j : nat) (k : string) (al : list (option string)) d :
  j ∈ od_get_list k d → j ∈ od_get_list k (fold_left (alt_step n) al d).
Proof.
  revert d. induction al as [|a al IH]; intros d Hj; simpl; [done|].
  apply IH. unfold alt_step. destruct (truthy a); [|done].
  by apply index_append_mono.
Qed.

Lemma alt_steps_new (n : nat) (k : string) (a : option string)
    (al : list (option string)) d :
  a ∈ al → truthy a = Some k →
  n ∈ od_get_list k (fold_left (alt_step n) al d).
Proof.
  revert d. induction al as [|a' al IH]; intros d Ha Hk; simpl.
  - by apply elem_of_nil in Ha.
  - apply elem_of_cons in Ha as [<-|Ha]; [|by apply IH].
    apply alt_steps_mono. unfold alt_step. rewrite Hk.
    apply index_append_new.
Qed.

Lemma index_class_fields (c : OWLClass) (s : SOLI) :
  let s' := index_class c s in
  classes s' = classes s ++ [c]
  ∧ label_to_index s'
    = match truthy (label c) with
      | Some l => index_append l (length (classes s)) (label_to_index s)
      | None => label_to_index s
      end
  ∧ alt_label_to_index s'
    = fold_left (alt_step (length (classes s))) (alternative_labels c)
        (alt_label_to_index s)
  ∧ triples s' = triples s.
Proof.
  simpl. unfold index_class.
  set (n := length (classes (set_classes (classes s ++ [c]) s)) - 1).
  assert (n = length (classes s)) as ->.
  { unfold n. simpl. rewrite length_app. simpl. lia. }
  match goal with
  | |- context [fold_left _ _ ?s2] =>
      destruct (index_alt_labels_fields (length (classes s))
                  (alternative_labels c) s2) as (H1 & H2 & H3 & H4)
  end.
  rewrite H1, H2, H3, H4. by destruct (truthy (label c)).
Qed.

Lemma index_class_full (c : OWLClass) (s : SOLI) :
  full s → built c s → is_valid c = true ∨ iri c = OWL_THING →
  full (index_class c s).
Proof.
  intros [H1 H2 H3 H4 H5] [_ Hs Hl] Hvalid.
  destruct (index_class_fields c s) as (Ec & El & Ea & Et).
  split; rewrite ?Ec, ?El, ?Ea, ?Et.
  - intros i c0 [[_ Hi] | [_ <-]]%lookup_snoc_Some; eauto.
  - intros i c0 l [[_ Hi] | [-> <-]]%lookup_snoc_Some Hl0.
    + destruct (truthy (label c)); [apply index_append_mono|]; eauto.
    + rewrite Hl0. apply index_append_new.
  - intros i c0 a k [[_ Hi] | [-> <-]]%lookup_snoc_Some Ha Hk.
    + apply alt_steps_mono. eauto.
    + by eapply alt_steps_new.
  - intros i c0 p [[_ Hi] | [_ <-]]%lookup_snoc_Some Hp; eauto.
  - intros i c0 l [[_ Hi] | [_ <-]]%lookup_snoc_Some Hl0; eauto.
Qed.

Lemma unlinked_snoc (c : OWLClass) (s s' : SOLI) :
  unlinked s → parent_class_of c = [] → classes s' = classes s ++ [c] →
  unlinked s'.
Proof.
  intros Hu Hc Hs' i c0. rewrite Hs'.
  intros [[_ Hi] | [_ <-]]%lookup_snoc_Some; eauto.
Qed.

Lemma parse_owl_class_full (node : Element) (s : SOLI) :
  full s → unlinked s →
  full (parse_owl_class node s) ∧ unlinked (parse_owl_class node s).
Proof.
  intros Hfull Hun. unfold parse_owl_class.
  destruct (od_get _ (attrib node)) as [i|];
    [|split; [by eapply full_frame; [apply frame_log_append| |] | done]].
  destruct (fold_left _ _ _) as [c s1] eqn:E.
  pose proof (parse_owl_class_children_frame _ _ _ _ _ E) as [_ Hf].
  destruct (parse_owl_class_children_built _ _ _ _ _ E) as [Hb Hsub].
  { split; simpl; [done | |]; intros ? H; [by apply elem_of_nil in H|done]. }
  pose proof (full_frame _ _ Hf Hsub Hfull) as Hfull1.
  assert (unlinked s1) as Hun1.
  { intros j c0. destruct Hf as (-> & _). apply Hun. }
  destruct (negb (is_valid c) && negb (String.eqb (iri c) OWL_THING)) eqn:Ev.
  - split; [by eapply full_frame; [apply frame_log_append| |] | done].
  - split.
    + apply index_class_full; try done.
      apply andb_false_iff in Ev as [Ev|Ev]; apply negb_false_iff in Ev;
        [by left | right; by apply String.eqb_eq].
    + eapply unlinked_snoc; [done | apply Hb | apply index_class_classes].
Qed.

Lemma parse_node_full (s : SOLI) (node : Element) :
  full s → unlinked s → full (parse_node s node) ∧ unlinked (parse_node s node).
Proof.
  intros Hfull Hun. unfold parse_node.
  repeat case_match; try done.
  - by apply parse_owl_class_full.
  - pose proof (parse_owl_ontology_frame node s) as Hf.
    assert (triples (parse_owl_ontology node s) = triples s) as Ht.
    { unfold parse_owl_ontology.
      apply (fold_left_invariant (λ s', triples s' = triples s)); [|done].
      intros s1 child _ H1. unfold parse_owl_ontology_child.
      by repeat case_match. }
    split; [eapply full_frame; [done | | done]; by rewrite Ht|].
    intros j c0. destruct Hf as (-> & _). apply Hun.
  - split; [by eapply full_frame; [apply frame_log_append| |] | done].
Qed.

Lemma parse_nodes_full (l : list Element) (s : SOLI) :
  full s → unlinked s →
  full (fold_left parse_node l s) ∧ unlinked (fold_left parse_node l s).
Proof.
  intros Hfull Hun.
  apply (fold_left_invariant (λ s', full s' ∧ unlinked s')); [|done].
  intros s1 node _ [H1 H2]. by apply parse_node_full.
Qed.

(** ** What the derived edges come from *)

(** Every derived edge comes from a declared parent: an entry [x] of
    [parent_class_of] at position [a] is the IRI of a class one of whose
    declared parents the index resolves to [a]; an entry of
    [class_edges] under [p] is the IRI of a class that declares [p]. *)
Record edges_sound (s : SOLI) : Prop := {
  sound_parent : ∀ a A x,
    classes s !! a = Some A → x ∈ parent_class_of A →
    ∃ b B p, classes s !! b = Some B ∧ iri B = x ∧ p ∈ sub_class_of B
             ∧ p ≠ OWL_THING
             ∧ iri_to_index s !! normalize_iri p = Some a;
  sound_edges : ∀ p x,
    x ∈ default [] (class_edges s !! p) →
    ∃ b B, classes s !! b = Some B ∧ iri B = x ∧ p ∈ sub_class_of B
           ∧ p ≠ OWL_THING
}.

(** The pass also only adds to [class_edges]. *)
Definition edges_ext2 (s s' : SOLI) : Prop :=
  edges_ext s s'
  ∧ ∀ q x, x ∈ default [] (class_edges s !! q) →
           x ∈ default [] (class_edges s' !! q).

Lemma edges_ext2_refl s : edges_ext2 s s.
Proof. split; [apply edges_ext_refl | done]. Qed.

Lemma edges_ext2_trans s1 s2 s3 :
  edges_ext2 s1 s2 → edges_ext2 s2 s3 → edges_ext2 s1 s3.
Proof.
  intros [H1 M1] [H2 M2]. split; [by eapply edges_ext_trans | by auto].
Qed.

Lemma add_class_edge_run (child_iri parent_class : string) (s : SOLI) :
  wf s → parent_class ≠ OWL_THING →
  ∃ s', add_class_edge child_iri parent_class s = Ok s'
        ∧ iri_to_index s' = iri_to_index s
        ∧ (∀ q, class_edges s' !! q
                = if decide (parent_class = q)
                  then Some (default [] (class_edges s !! parent_class)
                             ++ [child_iri])
                  else class_edges s !! q)
        ∧ match iri_to_index s !! normalize_iri parent_class with
          | Some index =>
              ∃ parent, classes s !! index = Some parent
                ∧ classes s'
                  = <[index:=set_parent_class_of
                               (parent_class_of parent ++ [child_iri]) parent]>
                      (classes s)
          | None => classes s' = classes s
          end.
Proof.
  intros Hwf Hthing. unfold add_class_edge.
  apply String.eqb_neq in Hthing. rewrite Hthing.
  set (s1 := match class_edges s !! parent_class with
             | None => _ | Some _ => s end).
  set (s2 := set_class_edges _ s1).
  assert (classes s2 = classes s ∧ iri_to_index s2 = iri_to_index s)
    as [Hc Hi].
  { unfold s2, s1. by destruct (class_edges s !! parent_class). }
  assert (∀ q, class_edges s2 !! q
               = if decide (parent_class = q)
                 then Some (default [] (class_edges s !! parent_class)
                            ++ [child_iri])
                 else class_edges s !! q) as He.
  { intros q. unfold s2, s1.
    destruct (class_edges s !! parent_class) as [old|] eqn:Eold; self_simpl;
      case_decide as Hq; subst;
      rewrite ?lookup_insert_eq, ?lookup_insert_ne by done; try done.
    by rewrite Eold. }
  clearbody s2. clear s1.
  unfold contains, getitem_str. rewrite Hi, Hc.
  destruct (iri_to_index s !! normalize_iri parent_class) as [index|] eqn:Ei.
  - destruct (wf_iri _ Hwf _ _ Ei) as (parent & Hparent & _).
    rewrite Hparent. simpl.
    eexists. split; [done|]. self_simpl. split_and!; try done.
    by exists parent.
  - eexists. split; [done|]. self_simpl. by split_and!.
Qed.

Lemma edges_sound_ext (s s' : SOLI) (b : nat) (B : OWLClass) (p : string) :
  edges_ext s s' → classes s !! b = Some B →
  ∃ B', classes s' !! b = Some B' ∧ iri B' = iri B
        ∧ sub_class_of B' = sub_class_of B.
Proof.
  intros (Hc & _) HB.
  destruct (Forall2_lookup_l _ _ _ _ _ Hc HB) as (B' & HB' & Hg).
  exists B'. split_and!; [done | by apply grown_iri
                         | by apply grown_sub_class_of].
Qed.

Lemma add_class_edge_linked (child_iri parent_class : string) (s : SOLI)
    (b : nat) (B : OWLClass) :
  wf s → edges_sound s →
  classes s !! b = Some B → iri B = child_iri →
  parent_class ∈ sub_class_of B →
  ∃ s', add_class_edge child_iri parent_class s = Ok s'
        ∧ wf s' ∧ edges_sound s' ∧ edges_ext2 s s'
        ∧ (parent_class ≠ OWL_THING →
           child_iri ∈ default [] (class_edges s' !! parent_class)).
Proof.
  intros Hwf [Hsp Hse] HB Hiri Hsub.
  destruct (add_class_edge_spec child_iri parent_class s Hwf)
    as (s' & Hrun & Hwf' & Hext & _).
  exists s'. split; [done|]. split; [done|].
  destruct (decide (parent_class = OWL_THING)) as [Hthing|Hthing].
  { assert (s' = s) as ->.
    { unfold add_class_edge in Hrun. rewrite Hthing, String.eqb_refl in Hrun.
      congruence. }
    split_and!; [by split | apply edges_ext2_refl | done]. }
  destruct (add_class_edge_run child_iri parent_class s Hwf Hthing)
    as (s1 & Hrun1 & Hi & He & Hcl).
  assert (s1 = s') as -> by congruence.
  destruct (edges_sound_ext s s' b B parent_class Hext HB)
    as (B' & HB' & HiriB' & HsubB').
  assert (∀ b0 B0, classes s !! b0 = Some B0 →
            ∃ B1, classes s' !! b0 = Some B1 ∧ iri B1 = iri B0
                  ∧ sub_class_of B1 = sub_class_of B0) as Hmove.
  { intros b0 B0 HB0. by eapply edges_sound_ext. }
  split_and!.
  - split.
    + intros a A x HA Hx. rewrite Hi.
      assert ((∃ A0, classes s !! a = Some A0 ∧ x ∈ parent_class_of A0)
              ∨ (x = child_iri
                 ∧ iri_to_index s !! normalize_iri parent_class = Some a))
        as [(A0 & HA0 & Hx0) | [-> Hres]].
      { destruct (iri_to_index s !! normalize_iri parent_class)
          as [index|] eqn:Ei.
        - destruct Hcl as (parent & Hparent & Hcl). rewrite Hcl in HA.
          destruct (decide (a = index)) as [->|Hne].
          + rewrite list_lookup_insert_eq in HA
              by (by eapply lookup_lt_Some).
            simplify_eq. simpl in Hx.
            apply elem_of_app in Hx as [Hx | ->%list_elem_of_singleton];
              [left; by exists parent | by right].
          + rewrite list_lookup_insert_ne in HA by done. left. by exists A.
        - rewrite Hcl in HA. left. by exists A. }
      * destruct (Hsp a A0 x HA0 Hx0) as (b0 & B0 & p0 & HB0 & ? & ? & ? & ?).
        destruct (Hmove b0 B0 HB0) as (B1 & HB1 & Hi1 & Hs1).
        exists b0, B1, p0. split_and!; try done; congruence.
      * exists b, B', parent_class. split_and!; try done; congruence.
    + intros p x. rewrite He. case_decide as Hp.
      * subst p. simpl.
        intros [Hx | ->%list_elem_of_singleton]%elem_of_app.
        -- destruct (Hse parent_class x Hx) as (b0 & B0 & HB0 & ? & ? & ?).
           destruct (Hmove b0 B0 HB0) as (B1 & HB1 & Hi1 & Hs1).
           exists b0, B1. split_and!; try done; congruence.
        -- exists b, B'. split_and!; try done; congruence.
      * intros Hx. destruct (Hse p x Hx) as (b0 & B0 & HB0 & ? & ? & ?).
        destruct (Hmove b0 B0 HB0) as (B1 & HB1 & Hi1 & Hs1).
        exists b0, B1. split_and!; try done; congruence.
  - split; [done|]. intros q x Hx. rewrite He. case_decide as Hq; [|done].
    subst q. simpl. apply elem_of_app. by left.
  - intros _. rewrite He. rewrite decide_True by done. simpl.
    apply elem_of_app. right. by apply list_elem_of_singleton.
Qed.

(** Every declared parent other than the root sentinel has its entry in
    [class_edges]. *)
Definition edges_complete (s : SOLI) : Prop :=
  ∀ b B p, classes s !! b = Some B → p ∈ sub_class_of B → p ≠ OWL_THING →
    iri B ∈ default [] (class_edges s !! p).

Lemma build_class_edges_linked (s s' : SOLI) :
  wf s → unlinked s → class_edges s = ∅ →
  build_class_edges s = Ok s' →
  edges_sound s' ∧ edges_complete s' ∧ edges_ext s s'.
Proof.
  intros Hwf Hun Hempty Hrun. unfold build_class_edges in Hrun.
  pose proof (for_each_invariant
    (λ position self,
       match classes self !! position with
       | Some owl_class =>
           for_each (add_class_edge (iri owl_class))
             (sub_class_of owl_class) self
       | None => Ok self
       end)
    (λ t, wf t ∧ edges_sound t) edges_ext2
    (λ position t, ∀ B p, classes t !! position = Some B →
       p ∈ sub_class_of B → p ≠ OWL_THING →
       iri B ∈ default [] (class_edges t !! p))
    (seq 0 (length (classes s))) edges_ext2_refl edges_ext2_trans) as Hloop.
  destruct Hloop with s as (s1 & Hrun1 & [_ Hsound] & Hext & Hdone).
  - intros x t t' HQ _ [Hext Hmono] B' p HB' Hp Hthing.
    destruct Hext as (Hc & Hrest).
    destruct (Forall2_lookup_r _ _ _ _ _ Hc HB') as (B & HB & Hg).
    rewrite (grown_iri _ _ Hg). rewrite (grown_sub_class_of _ _ Hg) in Hp.
    by apply Hmono, HQ.
  - intros x t _ [Hwft Hsoundt].
    destruct (classes t !! x) as [c|] eqn:Ec;
      [|exists t; split_and!; try done; [apply edges_ext2_refl | congruence]].
    destruct (for_each_invariant (add_class_edge (iri c))
                (λ u, (wf u ∧ edges_sound u)
                      ∧ ∃ c', classes u !! x = Some c' ∧ iri c' = iri c
                              ∧ sub_class_of c' = sub_class_of c)
                edges_ext2
                (λ p u, p ≠ OWL_THING →
                        iri c ∈ default [] (class_edges u !! p))
                (sub_class_of c) edges_ext2_refl edges_ext2_trans)
      with t as (t' & Hrun' & [[Hwf' Hsound'] _] & Hext' & Hdone').
    + intros p u u' HQ _ [_ Hmono] Hthing. by apply Hmono, HQ.
    + intros p u Hp [[Hwfu Hsoundu] (c' & Hc' & Hic' & Hsc')].
      destruct (add_class_edge_linked (iri c) p u x c')
        as (u' & Hu' & ? & ? & Hext' & ?); try done; [congruence|].
      exists u'. split_and!; try done.
      destruct Hext' as [Hext' _].
      destruct (edges_sound_ext u u' x c' p Hext' Hc') as (c2 & ? & ? & ?).
      exists c2. split_and!; [done | congruence | congruence].
    + split; [done|]. by exists c.
    + exists t'. split_and!; try done.
      intros B p HB Hp Hthing. destruct Hext' as [(Hc & _) _].
      pose proof (Forall2_lookup_lr _ _ _ _ _ _ Hc Ec HB) as Hg.
      rewrite (grown_iri _ _ Hg). rewrite (grown_sub_class_of _ _ Hg) in Hp.
      by apply Hdone'.
  - split; [done|]. split.
    + intros a A x HA Hx. by rewrite (Hun a A HA) in Hx; apply elem_of_nil in Hx.
    + intros p x. rewrite Hempty, lookup_empty. simpl.
      intros Hx. by apply elem_of_nil in Hx.
  - assert (s1 = s') as -> by congruence.
    split_and!; [done | | by destruct Hext].
    intros b B p HB Hp Hthing. apply (Hdone b); try done.
    apply list_elem_of_In, in_seq. destruct Hext as [(Hc & _) _].
    apply Forall2_length in Hc. apply lookup_lt_Some in HB. lia.
Qed.

Lemma full_edges_ext s s' : edges_ext s s' → full s → full s'.
Proof.
  intros (Hc & Hi & Hl & Ha & _ & Ht & _) [H1 H2 H3 H4 H5].
  assert (∀ i c', classes s' !! i = Some c' →
            ∃ c, classes s !! i = Some c ∧ grown c c') as Hback.
  { intros i c' Hc'. by eapply Forall2_lookup_r. }
  split; rewrite ?Hl, ?Ha, ?Ht.
  - intros i c' (c & Hci & Hg)%Hback. unfold is_valid.
    rewrite (grown_label _ _ Hg), (grown_iri _ _ Hg). by eapply H1.
  - intros i c' l (c & Hci & Hg)%Hback. rewrite (grown_label _ _ Hg). eauto.
  - intros i c' a k (c & Hci & Hg)%Hback.
    rewrite (grown_alternative_labels _ _ Hg). eauto.
  - intros i c' p (c & Hci & Hg)%Hback.
    rewrite (grown_sub_class_of _ _ Hg), (grown_iri _ _ Hg). eauto.
  - intros i c' l (c & Hci & Hg)%Hback.
    rewrite (grown_label _ _ Hg), (grown_iri _ _ Hg). eauto.
Qed.

(** A state with no class and empty indices: the one [__init__] starts
    from and the one [refresh] clears to. *)
Definition blank (s : SOLI) : Prop :=
  classes s = [] ∧ iri_to_index s = ∅ ∧ label_to_index s = []
  ∧ alt_label_to_index s = [] ∧ class_edges s = ∅.

Record snapshot_full (marisa_trie : bool) (s : SOLI) : Prop := {
  sf_full : full s;
  sf_sound : edges_sound s;
  sf_complete : edges_complete s;
  sf_cached : _cached_triples s = triples s;
  sf_trie : marisa_trie = true → _label_trie s = Some (Trie_new (all_labels s))
}.

(** The fields that the properties of a snapshot read. *)
Definition same_snapshot (s s' : SOLI) : Prop :=
  classes s' = classes s ∧ iri_to_index s' = iri_to_index s
  ∧ label_to_index s' = label_to_index s
  ∧ alt_label_to_index s' = alt_label_to_index s
  ∧ class_edges s' = class_edges s ∧ triples s' = triples s.

Lemma full_same s s' : same_snapshot s s' → full s → full s'.
Proof.
  intros (Hc & Hi & Hl & Ha & He & Ht) [H1 H2 H3 H4 H5].
  split; rewrite ?Hc, ?Hl, ?Ha, ?Ht; done.
Qed.

Lemma edges_sound_same s s' : same_snapshot s s' → edges_sound s → edges_sound s'.
Proof.
  intros (Hc & Hi & Hl & Ha & He & Ht) [H1 H2].
  split; rewrite ?Hc, ?Hi, ?He; done.
Qed.

Lemma edges_complete_same s s' :
  same_snapshot s s' → edges_complete s → edges_complete s'.
Proof.
  intros (Hc & Hi & Hl & Ha & He & Ht) H. unfold edges_complete.
  by rewrite Hc, He.
Qed.

Lemma all_labels_same s s' : same_snapshot s s' → all_labels s' = all_labels s.
Proof.
  intros (Hc & Hi & Hl & Ha & He & Ht). unfold all_labels. by rewrite Hl, Ha.
Qed.

Lemma parse_owl_full (marisa_trie : bool) (root : Element) (s0 s : SOLI) :
  blank s0 → parse_owl marisa_trie root s0 = Ok s →
  snapshot_full marisa_trie s.
Proof.
  intros (Hc0 & Hi0 & Hl0 & Ha0 & He0) Hrun.
  assert (wf s0) as Hwf0 by by apply wf_empty.
  assert (full s0) as Hfull0.
  { split; intros i c; rewrite Hc0; by rewrite lookup_nil. }
  assert (unlinked s0) as Hun0.
  { intros i c. rewrite Hc0. by rewrite lookup_nil. }
  destruct (parse_nodes_spec (getchildren root) s0 Hwf0)
    as (Hwf1 & _ & He1 & _).
  destruct (parse_nodes_full (getchildren root) s0 Hfull0 Hun0)
    as [Hfull1 Hun1].
  unfold parse_owl in Hrun.
  destruct (build_class_edges _) as [s2| |] eqn:Eb; try done.
  destruct (build_class_edges_linked _ _ Hwf1 Hun1 ltac:(congruence) Eb)
    as (Hsound & Hcomplete & Hext).
  pose proof (full_edges_ext _ _ Hext Hfull1) as Hfull2.
  simpl in Hrun.
  assert (same_snapshot s2 s ∧ _cached_triples s = triples s
          ∧ (marisa_trie = true →
             _label_trie s = Some (Trie_new (all_labels s))))
    as (Hsame & Hcached & Htrie).
  { destruct marisa_trie; simplify_eq; by split_and!. }
  split; [by eapply full_same | by eapply edges_sound_same
          | by eapply edges_complete_same | done | done].
Qed.

Lemma loaded_snapshot_full (marisa_trie : bool) (s : SOLI) :
  loaded marisa_trie s → snapshot_full marisa_trie s.
Proof.
  induction 1 as [root s Hinit | root s s' _ _ Hrefresh
                  | p s r s' Hloaded IH Hsearch].
  - eapply parse_owl_full; [|exact Hinit]. by repeat split.
  - eapply parse_owl_full; [|exact Hrefresh]. by repeat split.
  - destruct (loaded_snapshot_ok _ _ Hloaded) as [Hwf _ Hcache Htrie].
    destruct (search_by_prefix_spec marisa_trie p s Hwf Hcache Htrie)
      as (r1 & m & Hs1 & _).
    rewrite Hs1 in Hsearch. injection Hsearch as <- <-.
    destruct IH as [H1 H2 H3 H4 H5].
    assert (same_snapshot s (set__prefix_cache m s)) as Hsame
      by by repeat split.
    split; [by eapply full_same | by eapply edges_sound_same
            | by eapply edges_complete_same | done|].
    intros Hmt. by rewrite (all_labels_same _ _ Hsame), <- H5.
Qed.

(** ** graph.py: lookup by alternative label *)

Definition get_by_alt_label (self : SOLI) (alt_label : string)
    (include_hidden_labels : bool) : list (option OWLClass) :=
  let classes' :=
    map (fun index => getitem_int self (Z.of_nat index))
      (od_get_list alt_label (alt_label_to_index self)) in
  if include_hidden_labels then
    classes'
    ++ map (fun index => getitem_int self (Z.of_nat index))
         (od_get_list alt_label (label_to_index self))
  else classes'.

(** X4.  Every entity of a loaded snapshot has a label or is the root
    sentinel: what the parser discards as invalid is in no snapshot. *)
Theorem snapshot_entities_valid (marisa_trie : bool) (s : SOLI)
    (E : OWLClass) :
  loaded marisa_trie s → E ∈ classes s →
  is_Some (label E) ∨ iri E = OWL_THING.
Proof.
  intros Hloaded [i Hi]%list_elem_of_lookup.
  destruct (full_valid _ (sf_full _ _ (loaded_snapshot_full _ _ Hloaded))
              i E Hi) as [Hv|Hv]; [left | by right].
  unfold is_valid in Hv. by destruct (label E).
Qed.

Lemma snapshot_entities_valid_witness :
  is_Some (label sample_tax) ∨ iri sample_tax = OWL_THING.
Proof.
  apply (snapshot_entities_valid true sample_snapshot sample_tax).
  - apply (loaded_init true sample_doc). vm_compute. reflexivity.
  - vm_compute. do 2 constructor.
Defined.

Lemma getitem_positions_sound (s : SOLI) (P : OWLClass → Prop)
    (idxs : list nat) :
  (∀ i, i ∈ idxs → ∃ E, classes s !! i = Some E ∧ P E) →
  Forall (λ oe, ∃ E, oe = Some E ∧ E ∈ classes s ∧ P E)
    (map (λ index, getitem_int s (Z.of_nat index)) idxs).
Proof.
  intros H. apply Forall_forall. intros oe Hoe.
  apply list_elem_of_In, in_map_iff in Hoe as (i & <- & Hi).
  apply list_elem_of_In in Hi. destruct (H i Hi) as (E & HE & HP).
  rewrite getitem_int_nat. exists E.
  split_and!; [done | by eapply list_elem_of_lookup_2 | done].
Qed.

(** X5.  On a loaded snapshot every element that [get_by_label]
    returns is an entity of the snapshot whose label is the given
    string, or, when alternative labels are included, which has the
    string among its alternative labels; a string that is no key of the
    label index gives the empty list. *)
Theorem get_by_label_sound (marisa_trie : bool) (s : SOLI) (label' : string)
    (include_alt_labels : bool) :
  loaded marisa_trie s →
  Forall (λ oe, ∃ E, oe = Some E ∧ E ∈ classes s
                     ∧ (label E = Some label'
                        ∨ (include_alt_labels = true
                           ∧ Some label' ∈ alternative_labels E)))
    (get_by_label s label' include_alt_labels)
  ∧ (od_get label' (label_to_index s) = None →
     get_by_label s label' false = []).
Proof.
  intros Hloaded.
  pose proof (snap_wf _ _ (loaded_snapshot_ok _ _ Hloaded)) as Hwf.
  split.
  - unfold get_by_label.
    assert (Forall (λ oe, ∃ E, oe = Some E ∧ E ∈ classes s
                     ∧ (label E = Some label'
                        ∨ (include_alt_labels = true
                           ∧ Some label' ∈ alternative_labels E)))
              (map (λ index, getitem_int s (Z.of_nat index))
                 (od_get_list label' (label_to_index s)))) as Hlabels.
    { apply getitem_positions_sound. intros i Hi.
      destruct (wf_label _ Hwf _ _ Hi) as (E & HE & Hl).
      exists E. split; [done | by left]. }
    destruct include_alt_labels; [|done].
    apply Forall_app. split; [done|].
    apply getitem_positions_sound. intros i Hi.
    destruct (wf_alt_label _ Hwf _ _ Hi) as (E & HE & Hl).
    exists E. split; [done | by right].
  - intros Hnone. unfold get_by_label, od_get_list. by rewrite Hnone.
Qed.

Lemma get_by_label_sound_witness :
  Forall (λ oe, ∃ E, oe = Some E ∧ E ∈ classes sample_snapshot
                     ∧ (label E = Some "Tax Law"
                        ∨ (true = true
                           ∧ Some "Tax Law" ∈ alternative_labels E)))
    (get_by_label sample_snapshot "Tax Law" true)
  ∧ get_by_label sample_snapshot "Tax" false = [].
Proof.
  destruct (get_by_label_sound true sample_snapshot "Tax Law" true) as [H1 _].
  { apply (loaded_init true sample_doc). vm_compute. reflexivity. }
  destruct (get_by_label_sound true sample_snapshot "Tax" false) as [_ H2].
  { apply (loaded_init true sample_doc). vm_compute. reflexivity. }
  split; [exact H1 | apply H2; vm_compute; reflexivity].
Defined.

(** X6.  On a loaded snapshot every entity is found again under its
    label and under each of its alternative labels: an entity with the
    non-empty label [l] is among [get_by_label(l)], and an entity with
    the non-empty alternative label [a] is among
    [get_by_label(a, include_alt_labels=True)] and among
    [get_by_alt_label(a)]. *)
Theorem get_by_label_complete (marisa_trie : bool) (s : SOLI) (E : OWLClass) :
  loaded marisa_trie s → E ∈ classes s →
  (∀ l include_alt_labels,
     label E = Some l → l ≠ "" →
     Some E ∈ get_by_label s l include_alt_labels)
  ∧ (∀ a include_hidden_labels,
       Some a ∈ alternative_labels E → a ≠ "" →
       Some E ∈ get_by_label s a true
       ∧ Some E ∈ get_by_alt_label s a include_hidden_labels).
Proof.
  intros Hloaded [i Hi]%list_elem_of_lookup.
  destruct (sf_full _ _ (loaded_snapshot_full _ _ Hloaded))
    as [_ Hlabel Halt _ _].
  assert (∀ idxs, i ∈ idxs →
            Some E ∈ map (λ index, getitem_int s (Z.of_nat index)) idxs)
    as Hfound.
  { intros idxs Hin. apply list_elem_of_In, in_map_iff. exists i.
    split; [by rewrite getitem_int_nat | by apply list_elem_of_In]. }
  split.
  - intros l b Hl Hne.
    assert (i ∈ od_get_list l (label_to_index s)) as Hin.
    { apply (Hlabel i E); [done|]. rewrite Hl. by destruct l. }
    unfold get_by_label. destruct b; [apply elem_of_app; left|]; by apply Hfound.
  - intros a b Ha Hne.
    assert (i ∈ od_get_list a (alt_label_to_index s)) as Hin.
    { apply (Halt i E (Some a)); [done | done|]. by destruct a. }
    split.
    + unfold get_by_label. apply elem_of_app. right. by apply Hfound.
    + unfold get_by_alt_label.
      destruct b; [apply elem_of_app; left|]; by apply Hfound.
Qed.

Lemma get_by_label_complete_witness :
  Some sample_tax ∈ get_by_label sample_snapshot "Tax Law" false.
Proof.
  destruct (get_by_label_complete true sample_snapshot sample_tax) as [H _].
  - apply (loaded_init true sample_doc). vm_compute. reflexivity.
  - vm_compute. do 2 constructor.
  - apply H; [vm_compute; reflexivity | discriminate].
Defined.

(** X7.  [get_by_alt_label] with hidden labels included returns the
    elements of [get_by_label] with alternative labels included, the two
    halves in the other order; without them, on a loaded snapshot, every
    element is an entity that has the string among its alternative
    labels. *)
Theorem get_by_alt_label_spec (marisa_trie : bool) (s : SOLI)
    (alt_label : string) :
  get_by_alt_label s alt_label true ≡ₚ get_by_label s alt_label true
  ∧ (loaded marisa_trie s →
     Forall (λ oe, ∃ E, oe = Some E ∧ E ∈ classes s
                        ∧ Some alt_label ∈ alternative_labels E)
       (get_by_alt_label s alt_label false)).
Proof.
  split.
  - unfold get_by_alt_label, get_by_label. apply Permutation_app_comm.
  - intros Hloaded.
    pose proof (snap_wf _ _ (loaded_snapshot_ok _ _ Hloaded)) as Hwf.
    unfold get_by_alt_label. apply getitem_positions_sound. intros i Hi.
    destruct (wf_alt_label _ Hwf _ _ Hi) as (E & HE & Hl). by exists E.
Qed.

Lemma get_by_alt_label_spec_witness :
  get_by_alt_label sample_snapshot "Tax Law" true
  ≡ₚ get_by_label sample_snapshot "Tax Law" true
  ∧ Forall (λ oe, ∃ E, oe = Some E ∧ E ∈ classes sample_snapshot
                       ∧ Some "Tax Law" ∈ alternative_labels E)
      (get_by_alt_label sample_snapshot "Tax Law" false).
Proof.
  destruct (get_by_alt_label_spec true sample_snapshot "Tax Law") as [H1 H2].
  split; [exact H1|]. apply H2.
  apply (loaded_init true sample_doc). vm_compute. reflexivity.
Defined.

(** ** graph.py: descendants *)

#[global] Instance OWLClass_eq_dec : EqDecision OWLClass.
Proof. solve_decision. Defined.

(** [get_children]: the subgraph without the entities equal to the one
    the IRI resolves to. *)
Definition get_children (fuel : nat) (self : SOLI) (iri' : string)
    (max_depth : Z) : result (list OWLClass) :=
  let* subgraph := get_subgraph fuel self iri' max_depth in
  match subgraph with
  | [] => Ok []
  | _ =>
      let* start := getitem_str self iri' in
      Ok (List.filter (fun child => negb (bool_decide (Some child = start)))
            subgraph)
  end.

(** [hops_down s n i e]: the entity [e] is reached from the entity that
    [i] resolves to by a chain of [n] [parent_class_of] steps. *)
Inductive hops_down (s : SOLI) : nat → string → OWLClass → Prop :=
| hops_down_here i c :
    getitem_str s i = Ok (Some c) → hops_down s 0 i c
| hops_down_step n i c x e :
    getitem_str s i = Ok (Some c) → x ∈ parent_class_of c →
    hops_down s n x e → hops_down s (S n) i e.

Lemma get_subgraph_unfold (fuel : nat) (s : SOLI) (i : string) (d : Z) :
  get_subgraph (S fuel) s i d
  = match iri_to_index s !! normalize_iri i with
    | None => Ok []
    | Some index =>
        match classes s !! index with
        | None => Raise IndexError
        | Some owl_class =>
            if negb (d =? 0)%Z then
              for_each
                (λ child_class subgraph,
                   let* more := get_subgraph fuel s child_class (d - 1) in
                   Ok (subgraph ++ more))
                (parent_class_of owl_class) [owl_class]
            else Ok [owl_class]
        end
    end.
Proof. reflexivity. Qed.

Lemma get_subgraph_loop (s : SOLI) (fuel n : nat) (d : Z) (l : list string)
    (acc : list OWLClass) :
  (∀ x, ∃ r, get_subgraph fuel s x d = Ok r
             ∧ ∀ e, e ∈ r → ∃ m, m ≤ n ∧ hops_down s m x e) →
  ∃ r, for_each
         (λ child_class subgraph,
            let* more := get_subgraph fuel s child_class d in
            Ok (subgraph ++ more)) l acc = Ok r
       ∧ ∀ e, e ∈ r →
           e ∈ acc ∨ ∃ x m, x ∈ l ∧ m ≤ n ∧ hops_down s m x e.
Proof.
  intros Hrec. revert acc. induction l as [|x l IH]; intros acc; simpl.
  - exists acc. split; [done | by left].
  - destruct (Hrec x) as (rx & -> & Hrx). simpl.
    destruct (IH (acc ++ rx)) as (r & -> & Hr).
    exists r. split; [done|]. intros e He.
    destruct (Hr e He) as [Hacc | (y & m & Hy & Hm & Hhops)].
    + apply elem_of_app in Hacc as [Hacc|Hacc]; [by left|].
      destruct (Hrx e Hacc) as (m & Hm & Hhops).
      right. exists x, m. split_and!; [apply list_elem_of_here | done | done].
    + right. exists y, m.
      split_and!; [by apply list_elem_of_further | done | done].
Qed.

Lemma get_subgraph_within (s : SOLI) (n : nat) :
  wf s → ∀ fuel i, n < fuel →
    ∃ r, get_subgraph fuel s i (Z.of_nat n) = Ok r
         ∧ (∀ e, e ∈ r → ∃ m, m ≤ n ∧ hops_down s m i e)
         ∧ (n = 0 → ∀ e, e ∈ r → getitem_str s i = Ok (Some e)).
Proof.
  intros Hwf. induction n as [|n IH]; intros fuel i Hfuel;
    (destruct fuel as [|fuel]; [lia|]); rewrite get_subgraph_unfold.
  - destruct (iri_to_index s !! normalize_iri i) as [index|] eqn:Ei.
    + destruct (wf_iri _ Hwf _ _ Ei) as (c & Hc & _). rewrite Hc. simpl.
      assert (getitem_str s i = Ok (Some c)) as Hget.
      { unfold getitem_str. by rewrite Ei, Hc. }
      exists [c]. split_and!; [done | |].
      * intros e ->%list_elem_of_singleton.
        exists 0. split; [done | by constructor].
      * by intros _ e ->%list_elem_of_singleton.
    + exists []. split_and!; [done | |]; intros;
        match goal with H : _ ∈ [] |- _ => by apply elem_of_nil in H end.
  - destruct (iri_to_index s !! normalize_iri i) as [index|] eqn:Ei.
    + destruct (wf_iri _ Hwf _ _ Ei) as (c & Hc & _). rewrite Hc.
      assert (getitem_str s i = Ok (Some c)) as Hget.
      { unfold getitem_str. by rewrite Ei, Hc. }
      assert ((Z.of_nat (S n) =? 0)%Z = false) as -> by (apply Z.eqb_neq; lia).
      replace (Z.of_nat (S n) - 1)%Z with (Z.of_nat n) by lia. simpl.
      destruct (get_subgraph_loop s fuel n (Z.of_nat n) (parent_class_of c)
                  [c]) as (r & Hr & Hin).
      { intros x. destruct (IH fuel x) as (r & ? & ? & _); [lia|]. by exists r. }
      exists r. split_and!; [done | | done]. intros e He.
      destruct (Hin e He) as [->%list_elem_of_singleton
                             | (x & m & Hx & Hm & Hhops)].
      * exists 0. split; [lia | by constructor].
      * exists (S m). split; [lia | by econstructor].
    + exists []. split_and!; [done | |]; intros;
        match goal with H : _ ∈ [] |- _ => by apply elem_of_nil in H end.
Qed.

(** X8.  On a loaded snapshot and for a depth limit [max_depth >= 0],
    [get_subgraph] returns with any recursion budget above [max_depth];
    each entity of its result is reached by a chain of at most
    [max_depth] [parent_class_of] steps from the start, and an IRI that
    does not resolve gives the empty list. *)
Theorem get_subgraph_bounded (marisa_trie : bool) (s : SOLI) (iri' : string)
    (max_depth : Z) (fuel : nat) :
  loaded marisa_trie s → (0 ≤ max_depth)%Z → Z.to_nat max_depth < fuel →
  ∃ r, get_subgraph fuel s iri' max_depth = Ok r
       ∧ (∀ e, e ∈ r → ∃ n, n ≤ Z.to_nat max_depth ∧ hops_down s n iri' e)
       ∧ (getitem_str s iri' = Ok None → r = []).
Proof.
  intros Hloaded Hdepth Hfuel.
  pose proof (snap_wf _ _ (loaded_snapshot_ok _ _ Hloaded)) as Hwf.
  destruct (get_subgraph_within s (Z.to_nat max_depth) Hwf fuel iri' Hfuel)
    as (r & Hr & Hin & _).
  rewrite Z2Nat.id in Hr by done.
  exists r. split_and!; [done | done |].
  intros Hnone. destruct fuel as [|fuel]; [lia|].
  rewrite get_subgraph_unfold in Hr. unfold getitem_str in Hnone.
  destruct (iri_to_index s !! normalize_iri iri') as [index|]; [|congruence].
  by destruct (classes s !! index).
Qed.

Lemma get_subgraph_bounded_witness :
  ∃ r, get_subgraph 3 sample_snapshot "RArea" 2 = Ok r
       ∧ (∀ e, e ∈ r → ∃ n, n ≤ 2 ∧ hops_down sample_snapshot n "RArea" e)
       ∧ (getitem_str sample_snapshot "RArea" = Ok None → r = []).
Proof.
  apply (get_subgraph_bounded true sample_snapshot "RArea" 2 3).
  - apply (loaded_init true sample_doc). vm_compute. reflexivity.
  - lia.
  - vm_compute. lia.
Defined.

Lemma filter_all_false {A} (f : A → bool) (l : list A) :
  (∀ x, x ∈ l → f x = false) → List.filter f l = [].
Proof.
  induction l as [|x l IH]; intros H; simpl; [done|].
  rewrite (H x) by apply list_elem_of_here.
  apply IH. intros y Hy. by apply H, list_elem_of_further.
Qed.

(** X9.  On a loaded snapshot and for [max_depth >= 0], [get_children]
    returns; none of the entities it returns is the start entity, and
    each is reached from the start by at least one and at most
    [max_depth] [parent_class_of] steps; with [max_depth = 0] the result
    is empty. *)
Theorem get_children_bounded (marisa_trie : bool) (s : SOLI) (iri' : string)
    (max_depth : Z) (fuel : nat) :
  loaded marisa_trie s → (0 ≤ max_depth)%Z → Z.to_nat max_depth < fuel →
  ∃ r, get_children fuel s iri' max_depth = Ok r
       ∧ (∀ e, e ∈ r →
            getitem_str s iri' ≠ Ok (Some e)
            ∧ ∃ n, 1 ≤ n ≤ Z.to_nat max_depth ∧ hops_down s n iri' e)
       ∧ (max_depth = 0%Z → r = []).
Proof.
  intros Hloaded Hdepth Hfuel.
  pose proof (snap_wf _ _ (loaded_snapshot_ok _ _ Hloaded)) as Hwf.
  destruct (get_subgraph_within s (Z.to_nat max_depth) Hwf fuel iri' Hfuel)
    as (sub & Hsub & Hin & Hzero).
  rewrite Z2Nat.id in Hsub by done.
  unfold get_children. rewrite Hsub. simpl.
  destruct sub as [|c0 sub].
  { exists []. split_and!; [done | | done].
    intros e He. by apply elem_of_nil in He. }
  assert (∃ start, getitem_str s iri' = Ok start) as [start Hstart].
  { unfold getitem_str.
    destruct (iri_to_index s !! normalize_iri iri') as [index|] eqn:Ei;
      [|by eexists].
    destruct (wf_iri _ Hwf _ _ Ei) as (c & -> & _). by eexists. }
  rewrite Hstart. cbn [rbind]. eexists. split; [done|]. split.
  - intros e He. apply list_elem_of_In, filter_In in He as [He Hne].
    apply list_elem_of_In in He. apply negb_true_iff in Hne.
    apply bool_decide_eq_false in Hne.
    split; [congruence|].
    destruct (Hin e He) as (n & Hn & Hhops). exists n. split; [|done].
    destruct n as [|n]; [|lia].
    inversion Hhops; subst. congruence.
  - intros ->. apply filter_all_false. intros e He.
    apply negb_false_iff, bool_decide_eq_true.
    rewrite (Hzero eq_refl e He) in Hstart. congruence.
Qed.

Lemma get_children_bounded_witness :
  ∃ r, get_children 2 sample_snapshot "RArea" 1 = Ok r
       ∧ (∀ e, e ∈ r →
            getitem_str sample_snapshot "RArea" ≠ Ok (Some e)
            ∧ ∃ n, 1 ≤ n ≤ 1 ∧ hops_down sample_snapshot n "RArea" e)
       ∧ (1%Z = 0%Z → r = []).
Proof.
  apply (get_children_bounded true sample_snapshot "RArea" 1 2).
  - apply (loaded_init true sample_doc). vm_compute. reflexivity.
  - lia.
  - vm_compute. lia.
Defined.

(** ** Where the derived edges come from *)

(** X10.  In a loaded snapshot every IRI listed in [parent_class_of] of
    an entity A is the IRI of an entity B of the snapshot that declares
    a parent, other than the root sentinel, which looks up to A. *)
Theorem parent_class_of_sound (marisa_trie : bool) (s : SOLI) (A : OWLClass)
    (x : string) :
  loaded marisa_trie s → A ∈ classes s → x ∈ parent_class_of A →
  ∃ B p, B ∈ classes s ∧ iri B = x ∧ p ∈ sub_class_of B ∧ p ≠ OWL_THING
         ∧ getitem s (ItemStr p) = Ok (Some A).
Proof.
  intros Hloaded [a Ha]%list_elem_of_lookup Hx.
  destruct (sound_parent _ (sf_sound _ _ (loaded_snapshot_full _ _ Hloaded))
              a A x Ha Hx) as (b & B & p & HB & Hiri & Hp & Hthing & Hres).
  exists B, p. split_and!; try done; [by eapply list_elem_of_lookup_2|].
  simpl. unfold getitem_str. by rewrite Hres, Ha.
Qed.

Lemma parent_class_of_sound_witness :
  ∃ B p, B ∈ classes sample_snapshot ∧ iri B = iri sample_tax
         ∧ p ∈ sub_class_of B ∧ p ≠ OWL_THING
         ∧ getitem sample_snapshot (ItemStr p) = Ok (Some sample_area).
Proof.
  apply (parent_class_of_sound true sample_snapshot sample_area).
  - apply (loaded_init true sample_doc). vm_compute. reflexivity.
  - vm_compute. constructor.
  - vm_compute. constructor.
Defined.

(** X11.  In a loaded snapshot the forward-edge map lists, under a
    string [p], exactly the IRIs of the entities that declare [p] as a
    parent, for every [p] other than the root sentinel; under the root
    sentinel it lists nothing.  The keys are the declared strings as
    written, not normalized. *)
Theorem class_edges_spec (marisa_trie : bool) (s : SOLI) (p x : string) :
  loaded marisa_trie s →
  x ∈ default [] (class_edges s !! p)
  ↔ p ≠ OWL_THING ∧ ∃ B, B ∈ classes s ∧ iri B = x ∧ p ∈ sub_class_of B.
Proof.
  intros Hloaded.
  destruct (loaded_snapshot_full _ _ Hloaded) as [_ [_ Hsound] Hcomplete _ _].
  split.
  - intros Hx. destruct (Hsound p x Hx) as (b & B & HB & Hiri & Hp & Hthing).
    split; [done|]. exists B. split_and!; try done.
    by eapply list_elem_of_lookup_2.
  - intros (Hthing & B & [b HB]%list_elem_of_lookup & <- & Hp).
    by eapply Hcomplete.
Qed.

Lemma class_edges_spec_witness :
  iri sample_tax
  ∈ default [] (class_edges sample_snapshot
                  !! "https://soli.openlegalstandard.org/RGone")
  ∧ ¬ iri sample_tax ∈ default [] (class_edges sample_snapshot !! OWL_THING).
Proof.
  split.
  - apply (class_edges_spec true sample_snapshot).
    + apply (loaded_init true sample_doc). vm_compute. reflexivity.
    + split; [vm_compute; discriminate|]. exists sample_tax.
      split; [vm_compute; do 2 constructor|].
      split; [reflexivity | vm_compute; do 2 constructor].
  - intros H.
    apply (class_edges_spec true sample_snapshot) in H as [H _]; [done|].
    apply (loaded_init true sample_doc). vm_compute. reflexivity.
Defined.

(** ** The triple log *)

(** X12.  In a loaded snapshot the frozen triples are the triple log,
    and they hold, for every entity, a [rdfs:label] triple with its
    label and a [rdfs:subClassOf] triple for each declared parent: the
    queries by subject and by predicate return them. *)
Theorem triples_record_entities (marisa_trie : bool) (s : SOLI)
    (E : OWLClass) :
  loaded marisa_trie s → E ∈ classes s →
  _cached_triples s = triples s
  ∧ ∃ by_subject by_label by_sub_class,
      get_triples_by_subject s (iri E) = Ok by_subject
      ∧ get_triples_by_predicate s "rdfs:label" = Ok by_label
      ∧ get_triples_by_predicate s "rdfs:subClassOf" = Ok by_sub_class
      ∧ (∀ l, label E = Some l →
           (iri E, "rdfs:label", Some l) ∈ by_subject
           ∧ (iri E, "rdfs:label", Some l) ∈ by_label)
      ∧ (∀ p, p ∈ sub_class_of E →
           (iri E, "rdfs:subClassOf", Some p) ∈ by_subject
           ∧ (iri E, "rdfs:subClassOf", Some p) ∈ by_sub_class).
Proof.
  intros Hloaded [i Hi]%list_elem_of_lookup.
  destruct (loaded_snapshot_full _ _ Hloaded)
    as [[_ _ _ Hsub Hlabel] _ _ Hcached _].
  split; [done|]. eexists _, _, _.
  unfold get_triples_by_subject, get_triples_by_predicate, _filter_triples.
  split; [reflexivity|]. split; [reflexivity|]. split; [reflexivity|].
  rewrite Hcached. split.
  - intros l Hl. pose proof (Hlabel i E l Hi Hl) as Hin.
    split; apply list_elem_of_In, filter_In;
      (split; [by apply list_elem_of_In | apply String.eqb_refl]).
  - intros p Hp. pose proof (Hsub i E p Hi Hp) as Hin.
    split; apply list_elem_of_In, filter_In;
      (split; [by apply list_elem_of_In | apply String.eqb_refl]).
Qed.

Lemma triples_record_entities_witness :
  _cached_triples sample_snapshot = triples sample_snapshot
  ∧ ∃ by_subject by_label by_sub_class,
      get_triples_by_subject sample_snapshot (iri sample_tax) = Ok by_subject
      ∧ get_triples_by_predicate sample_snapshot "rdfs:label" = Ok by_label
      ∧ get_triples_by_predicate sample_snapshot "rdfs:subClassOf"
        = Ok by_sub_class
      ∧ (∀ l, label sample_tax = Some l →
           (iri sample_tax, "rdfs:label", Some l) ∈ by_subject
           ∧ (iri sample_tax, "rdfs:label", Some l) ∈ by_label)
      ∧ (∀ p, p ∈ sub_class_of sample_tax →
           (iri sample_tax, "rdfs:subClassOf", Some p) ∈ by_subject
           ∧ (iri sample_tax, "rdfs:subClassOf", Some p) ∈ by_sub_class).
Proof.
  apply (triples_record_entities true sample_snapshot sample_tax).
  - apply (loaded_init true sample_doc). vm_compute. reflexivity.
  - vm_compute. do 2 constructor.
Defined.

(** ** graph.py: fuzzy search, continued *)

Lemma search_by_label_classes_bound {Score} (limit : Z) (score : Score)
    (l : list (option OWLClass)) st st' :
  search_by_label_classes Score limit score l st = Ok st' →
  (Z.of_nat (length st'.2) ≤ Z.max (Z.of_nat (length st.2) + 1) limit)%Z
  ∧ ∀ x, x ∈ st'.2 → x ∈ st.2 ∨ (x.2 = score ∧ Some x.1 ∈ l).
Proof.
  revert st. induction l as [|[c|] l IH]; intros [seen results] Hrun;
    simpl in Hrun; [simplify_eq; split; [simpl; lia | by left] | | done].
  set (st1 := if bool_decide (iri c ∈ seen) then (seen, results)
              else ({[iri c]} ∪ seen, results ++ [(c, score)])) in *.
  assert ((Z.of_nat (length st1.2) ≤ Z.of_nat (length results) + 1)%Z
          ∧ ∀ x, x ∈ st1.2 → x ∈ results ∨ (x.2 = score ∧ x.1 = c))
    as [Hlen Hfrom].
  { unfold st1. case_bool_decide; simpl; [split; [lia | by left]|].
    rewrite length_app. simpl. split; [lia|].
    intros x [Hx | ->%list_elem_of_singleton]%elem_of_app; [by left | by right]. }
  assert (∀ x, x ∈ st1.2 →
            x ∈ results ∨ (x.2 = score ∧ Some x.1 ∈ Some c :: l)) as Hfrom'.
  { intros x Hx. destruct (Hfrom x Hx) as [?|[? ->]]; [by left | right].
    split; [done | apply list_elem_of_here]. }
  destruct (limit <=? Z.of_nat (length st1.2))%Z eqn:Elim.
  - simplify_eq. simpl. split; [lia | done].
  - apply Z.leb_gt in Elim. destruct (IH _ Hrun) as [Hlen' Hfrom2].
    simpl. split; [lia|]. intros x Hx.
    destruct (Hfrom2 x Hx) as [Hx1 | [Hsc Hin]]; [by apply Hfrom'|].
    right. split; [done | by apply list_elem_of_further].
Qed.

Lemma search_by_label_loop_bound {Score} (s : SOLI) (limit : Z)
    (include_alt_labels : bool) (found : list (string * Score * nat)) st st' :
  for_each
    (λ '(search_label, score, _) st,
       search_by_label_classes Score limit score
         (get_by_label s search_label include_alt_labels) st)
    found st = Ok st' →
  (Z.of_nat (length st'.2)
   ≤ Z.max (Z.of_nat (length st.2)) (limit - 1) + Z.of_nat (length found))%Z
  ∧ ∀ x, x ∈ st'.2 →
      x ∈ st.2
      ∨ ∃ search_label n,
          (search_label, x.2, n) ∈ found
          ∧ Some x.1 ∈ get_by_label s search_label include_alt_labels.
Proof.
  revert st. induction found as [|[[search_label score] n] found IH];
    intros st Hrun; simpl in Hrun.
  - simplify_eq. split; [simpl; lia | by left].
  - destruct (search_by_label_classes _ _ _ _ _) as [st1| |] eqn:E;
      try done. simpl in Hrun.
    destruct (search_by_label_classes_bound _ _ _ _ _ E) as [Hlen1 Hfrom1].
    destruct (IH _ Hrun) as [Hlen2 Hfrom2]. split.
    + rewrite length_cons. lia.
    + intros x Hx. destruct (Hfrom2 x Hx) as [Hx1 | (l' & n' & Hin & Hget)].
      * destruct (Hfrom1 x Hx1) as [?|[Hsc Hget]]; [by left | right].
        exists search_label, n. rewrite Hsc.
        split; [apply list_elem_of_here | done].
      * right. exists l', n'. split; [by apply list_elem_of_further | done].
Qed.

(** X13.  Whatever the fuzzy matcher returns, the entities that
    [search_by_label] returns have distinct IRIs, each comes with the
    score of a matched string under which [get_by_label] finds it, and
    their number is at most [max(limit - 1, 0)] plus the number of
    matched strings. *)
Theorem search_by_label_bounded (Score : Type)
    (score_le : Score → Score → bool)
    (rapidfuzz : option (string → list string → SearchType → Z
                         → list (string * Score * nat)))
    (s : SOLI) (query : string) (include_alt_labels : bool) (limit : Z)
    (r : list (OWLClass * Score)) :
  search_by_label Score score_le rapidfuzz s query include_alt_labels limit
  = Ok r →
  NoDup (map (λ x, iri x.1) r)
  ∧ ∃ found,
      _basic_search Score score_le rapidfuzz query
        (if negb include_alt_labels then od_keys (label_to_index s)
         else od_keys (label_to_index s) ++ od_keys (alt_label_to_index s))
        limit search_string = Ok found
      ∧ (Z.of_nat (length r)
         ≤ Z.max 0 (limit - 1) + Z.of_nat (length found))%Z
      ∧ ∀ E score, (E, score) ∈ r →
          ∃ search_label n,
            (search_label, score, n) ∈ found
            ∧ Some E ∈ get_by_label s search_label include_alt_labels.
Proof.
  intros Hrun. split; [by eapply search_by_label_distinct|].
  unfold search_by_label in Hrun. destruct rapidfuzz as [extract|]; [|done].
  cbv zeta in Hrun.
  destruct (_basic_search _ _ _ _ _ _ _) as [found| |]; [|done..].
  exists found. split; [done|]. simpl in Hrun.
  destruct (for_each _ found _) as [st| |] eqn:E; [|done..].
  simpl in Hrun. injection Hrun as <-.
  destruct (search_by_label_loop_bound _ _ _ _ _ _ E) as [Hlen Hfrom].
  simpl in Hlen. split; [lia|]. intros E' score Hin.
  destruct (Hfrom _ Hin) as [Hnil|H]; [by apply elem_of_nil in Hnil | done].
Qed.

Lemma search_by_label_bounded_witness :
  NoDup (map (λ x : OWLClass * nat, iri x.1)
           [(homonym "RA1" "ab", 100); (homonym "RA2" "ab", 100);
            (homonym "RB" "abc", 90)])
  ∧ ∃ found,
      _basic_search nat Nat.leb
        (Some (λ _ _ _ _, [("ab", 100, 0); ("abc", 90, 1)])) "ab"
        (if negb true then od_keys (label_to_index homonym_snapshot)
         else od_keys (label_to_index homonym_snapshot)
              ++ od_keys (alt_label_to_index homonym_snapshot))
        2 search_string = Ok found
      ∧ (Z.of_nat 3 ≤ Z.max 0 (2 - 1) + Z.of_nat (length found))%Z
      ∧ ∀ E score,
          (E, score) ∈ [(homonym "RA1" "ab", 100); (homonym "RA2" "ab", 100);
                        (homonym "RB" "abc", 90)] →
          ∃ search_label n,
            (search_label, score, n) ∈ found
            ∧ Some E ∈ get_by_label homonym_snapshot search_label true.
Proof.
  apply (search_by_label_bounded nat Nat.leb
           (Some (λ _ _ _ _, [("ab", 100, 0); ("abc", 90, 1)]))
           homonym_snapshot "ab" true 2).
  vm_compute. reflexivity.
Defined.

(** [[(i, c.definition) for i, c in enumerate(classes) if c.definition is
    not None]], counting from [start]. *)
Fixpoint defined_classes (start : nat) (classes' : list OWLClass)
  : list (nat * string) :=
  match classes' with
  | [] => []
  | c :: rest =>
      match definition c with
      | Some d => (start, d) :: defined_classes (S start) rest
      | None => defined_classes (S start) rest
      end
  end.

Section SearchDefinition.

Variable Score : Type.
Variable score_le : Score -> Score -> bool.
Variable rapidfuzz :
  option (string -> list string -> SearchType -> Z
          -> list (string * Score * nat)).

(** The loop of [search_by_definition], with its [break]. *)
Fixpoint search_by_definition_results (self : SOLI) (limit : Z)
    (class_index : list nat) (found : list (string * Score * nat))
    (results : list (OWLClass * Score)) : result (list (OWLClass * Score)) :=
  match found with
  | [] => Ok results
  | (_, score, search_index) :: rest =>
      match class_index !! search_index with
      | None => Raise IndexError
      | Some position =>
          match classes self !! position with
          | None => Raise IndexError
          | Some c =>
              let results := results ++ [(c, score)] in
              if (limit <=? Z.of_nat (length results))%Z then Ok results
              else search_by_definition_results self limit class_index rest
                     results
          end
      end
  end.

Definition search_by_definition (self : SOLI) (definition' : string)
    (limit : Z) : result (list (OWLClass * Score)) :=
  match rapidfuzz with
  | None => Raise RuntimeError
  | Some _ =>
      match defined_classes 0 (classes self) with
      | [] => Raise ValueError
      | pairs =>
          let class_index := map fst pairs in
          let class_definitions := map snd pairs in
          let* found :=
            _basic_search Score score_le rapidfuzz definition'
              class_definitions limit search_token in
          search_by_definition_results self limit class_index found []
      end
  end.

End SearchDefinition.

Lemma defined_classes_sound (start : nat) (cl : list OWLClass) (i : nat)
    (d : string) :
  (i, d) ∈ defined_classes start cl →
  ∃ c, cl !! (i - start) = Some c ∧ start ≤ i ∧ definition c = Some d.
Proof.
  revert start. induction cl as [|c cl IH]; intros start Hin; simpl in Hin.
  - by apply elem_of_nil in Hin.
  - assert ((i, d) ∈ defined_classes (S start) cl →
            ∃ c0, (c :: cl) !! (i - start) = Some c0 ∧ start ≤ i
                  ∧ definition c0 = Some d) as Hrest.
    { intros H. destruct (IH _ H) as (c0 & Hc0 & Hle & Hd). exists c0.
      split_and!; [|lia | done].
      by replace (i - start) with (S (i - S start)) by lia. }
    destruct (definition c) as [d0|] eqn:Ed; [|by apply Hrest].
    apply elem_of_cons in Hin as [Heq|Hin]; [|by apply Hrest].
    simplify_eq. exists c. by rewrite Nat.sub_diag.
Qed.

Lemma defined_classes_nil (start : nat) (cl : list OWLClass) :
  (∀ c, c ∈ cl → definition c = None) → defined_classes start cl = [].
Proof.
  revert start. induction cl as [|c cl IH]; intros start H; simpl; [done|].
  rewrite (H c) by apply list_elem_of_here.
  apply IH. intros c0 Hc0. by apply H, list_elem_of_further.
Qed.

Lemma search_by_definition_results_spec {Score} (s : SOLI) (limit : Z)
    (class_index : list nat) (found : list (string * Score * nat))
    (results r : list (OWLClass * Score)) (P : OWLClass → Prop) :
  (∀ i c, i ∈ class_index → classes s !! i = Some c → P c) →
  (∀ x, x ∈ results → P x.1) →
  search_by_definition_results Score s limit class_index found results
  = Ok r →
  (Z.of_nat (length r) ≤ Z.max (Z.of_nat (length results) + 1) limit)%Z
  ∧ (found = [] → r = results)
  ∧ ∀ x, x ∈ r → P x.1.
Proof.
  intros Hidx. revert results.
  induction found as [|[[text' score] search_index] found IH];
    intros results Hres Hrun; simpl in Hrun.
  - simplify_eq. split_and!; [lia | done | done].
  - destruct (class_index !! search_index) as [position|] eqn:Ep; [|done].
    destruct (classes s !! position) as [c|] eqn:Ec; [|done].
    assert (∀ x, x ∈ results ++ [(c, score)] → P x.1) as Hres'.
    { intros x [Hx | ->%list_elem_of_singleton]%elem_of_app; [by apply Hres|].
      simpl. eapply Hidx; [|done]. by eapply list_elem_of_lookup_2. }
    rewrite length_app in Hrun. simpl in Hrun.
    destruct (limit <=? _)%Z eqn:Elim.
    + simplify_eq. rewrite length_app. simpl. split_and!; [lia | done | done].
    + apply Z.leb_gt in Elim.
      destruct (IH _ Hres' Hrun) as (Hlen & _ & HP).
      rewrite length_app in Hlen. simpl in Hlen.
      split_and!; [lia | done | done].
Qed.

(** X14.  [search_by_definition] raises the search-unavailable error
    when the fuzzy matcher is missing, and raises [ValueError] on a
    snapshot in which no entity has a definition.  When it returns, it
    returns at most [max(limit, 1)] pairs, and every entity it returns
    is stored in the snapshot and has a definition. *)
Theorem search_by_definition_spec (Score : Type)
    (score_le : Score → Score → bool)
    (rapidfuzz : option (string → list string → SearchType → Z
                         → list (string * Score * nat)))
    (s : SOLI) (query : string) (limit : Z) :
  (rapidfuzz = None →
   search_by_definition Score score_le rapidfuzz s query limit
   = Raise RuntimeError)
  ∧ (is_Some rapidfuzz → (∀ c, c ∈ classes s → definition c = None) →
     search_by_definition Score score_le rapidfuzz s query limit
     = Raise ValueError)
  ∧ (∀ r,
       search_by_definition Score score_le rapidfuzz s query limit = Ok r →
       (Z.of_nat (length r) ≤ Z.max 1 limit)%Z
       ∧ ∀ E score, (E, score) ∈ r →
           E ∈ classes s ∧ is_Some (definition E)).
Proof.
  split_and!.
  - by intros ->.
  - intros [extract ->] Hnone. unfold search_by_definition.
    by rewrite defined_classes_nil.
  - intros r Hrun. unfold search_by_definition in Hrun.
    destruct rapidfuzz as [extract|]; [|done].
    destruct (defined_classes 0 (classes s)) as [|pair pairs] eqn:Ed; [done|].
    cbv zeta in Hrun.
    destruct (_basic_search _ _ _ _ _ _ _) as [found| |]; [|done..].
    simpl in Hrun.
    destruct (search_by_definition_results_spec s limit
                (pair.1 :: map fst pairs) found [] r
                (λ c, c ∈ classes s ∧ is_Some (definition c)))
      as (Hlen & _ & HP); try done.
    + intros i c Hi Hc. split; [by eapply list_elem_of_lookup_2|].
      change (fst pair :: map fst pairs) with (map fst (pair :: pairs)) in Hi.
      rewrite <- Ed in Hi.
      apply list_elem_of_In, in_map_iff in Hi as ([i' d] & <- & Hin).
      apply list_elem_of_In, defined_classes_sound in Hin
        as (c' & Hc' & _ & Hd).
      simpl in Hc. rewrite Nat.sub_0_r in Hc'. simplify_eq. by eexists.
    + intros x Hx. by apply elem_of_nil in Hx.
    + simpl in Hlen. split; [lia|]. intros E score Hin. by apply (HP _ Hin).
Qed.

(** A class with a definition next to one without. *)
Definition skos_definition (text' : string) : Element :=
  mkElement (get_ns_tag "skos" "definition") [] (Some text') [].

Definition skos_altLabel (text' : string) : Element :=
  mkElement (get_ns_tag "skos" "altLabel") [] (Some text') [].

Definition court_doc : Element :=
  rdf_RDF
    [ owl_Class "https://soli.openlegalstandard.org/RForum"
        [rdfs_label "Forums and Venues"];
      owl_Class "https://soli.openlegalstandard.org/RCourt"
        [rdfs_label "U.S. District Court - S.D. New York";
         skos_altLabel "S.D.N.Y.";
         skos_definition "A federal trial court";
         rdfs_subClassOf "https://soli.openlegalstandard.org/RForum"] ].

Definition court_snapshot : SOLI := snapshot_of court_doc.

Lemma search_by_definition_spec_witness :
  search_by_definition nat Nat.leb None court_snapshot "trial" 10
  = Raise RuntimeError
  ∧ search_by_definition nat Nat.leb (Some (λ _ _ _ _, []))
      sample_snapshot "trial" 10 = Raise ValueError
  ∧ ∀ r,
      search_by_definition nat Nat.leb
        (Some (λ _ _ _ _, [("A federal trial court", 100, 0)]))
        court_snapshot "trial" 10 = Ok r →
      (Z.of_nat (length r) ≤ Z.max 1 10)%Z
      ∧ ∀ E score, (E, score) ∈ r →
          E ∈ classes court_snapshot ∧ is_Some (definition E).
Proof.
  split; [|split].
  - by apply (search_by_definition_spec nat Nat.leb None).
  - apply (search_by_definition_spec nat Nat.leb (Some (λ _ _ _ _, []))).
    + by eexists.
    + intros c Hc. vm_compute in Hc.
      repeat (apply elem_of_cons in Hc as [->|Hc]; [reflexivity|]).
      by apply elem_of_nil in Hc.
  - apply (search_by_definition_spec nat Nat.leb
             (Some (λ _ _ _ _, [("A federal trial court", 100, 0)]))).
Defined.

(** ** Prefix search, continued *)

(** X15.  A prefix search that returns changes nothing but the memo of
    that prefix, and asking again gives the same answer without any
    further change. *)
Theorem search_by_prefix_memo (marisa_trie : bool) (prefix : string)
    (s s' : SOLI) (r : list (option OWLClass)) :
  search_by_prefix marisa_trie prefix s = Ok (r, s') →
  search_by_prefix marisa_trie prefix s' = Ok (r, s')
  ∧ same_snapshot s s' ∧ _label_trie s' = _label_trie s
  ∧ _cached_triples s' = _cached_triples s
  ∧ ∀ q, q ≠ prefix → _prefix_cache s' !! q = _prefix_cache s !! q.
Proof.
  unfold search_by_prefix at 1.
  destruct (_prefix_cache s !! prefix) as [cached|] eqn:Ec.
  - intros [= <- <-]. unfold search_by_prefix. rewrite Ec.
    by repeat split.
  - destruct (if marisa_trie then _ else _) as [keys| |]; [|done..].
    simpl. intros [= <- <-]. unfold search_by_prefix. self_simpl.
    rewrite lookup_insert_eq. split; [done|]. split; [by repeat split|].
    split; [done|]. split; [done|].
    intros q Hq. by rewrite lookup_insert_ne.
Qed.

Lemma search_by_prefix_memo_witness :
  search_by_prefix true "Tax" searched_snapshot
  = Ok ([Some sample_tax], searched_snapshot)
  ∧ same_snapshot sample_snapshot searched_snapshot
  ∧ _label_trie searched_snapshot = _label_trie sample_snapshot
  ∧ _cached_triples searched_snapshot = _cached_triples sample_snapshot
  ∧ ∀ q, q ≠ "Tax" →
      _prefix_cache searched_snapshot !! q
      = _prefix_cache sample_snapshot !! q.
Proof.
  apply (search_by_prefix_memo true "Tax" sample_snapshot).
  vm_compute. reflexivity.
Defined.

Lemma od_get_keys {V} (k : string) (d : odict V) (v : V) :
  od_get k d = Some v → k ∈ od_keys d.
Proof.
  induction d as [|[k' v'] d IH]; simpl; [done|].
  destruct (String.eqb k' k) eqn:E.
  - apply String.eqb_eq in E as ->. intros _. apply list_elem_of_here.
  - intros H. by apply list_elem_of_further, IH.
Qed.

Lemma od_get_list_keys {A} (k : string) (d : odict (list A)) (x : A) :
  x ∈ od_get_list k d → k ∈ od_keys d.
Proof.
  unfold od_get_list. destruct (od_get k d) as [l|] eqn:E.
  - intros _. by eapply od_get_keys.
  - intros H. by apply elem_of_nil in H.
Qed.

(** X16.  On a loaded snapshot a prefix that was not searched before
    finds every entity that has a non-empty label or alternative label
    starting with it; with the trie, the label must be at least
    [MIN_PREFIX_LENGTH] characters long. *)
Theorem search_by_prefix_complete (marisa_trie : bool) (s : SOLI)
    (prefix : string) (E : OWLClass) (k : string) :
  loaded marisa_trie s →
  _prefix_cache s !! prefix = None →
  E ∈ classes s →
  label E = Some k ∨ Some k ∈ alternative_labels E →
  k ≠ "" → startswith k prefix = true →
  (marisa_trie = true → MIN_PREFIX_LENGTH ≤ String.length k) →
  ∃ r s', search_by_prefix marisa_trie prefix s = Ok (r, s') ∧ Some E ∈ r.
Proof.
  intros Hloaded Hcache [i Hi]%list_elem_of_lookup Hk Hne Hstart Hlen.
  destruct (loaded_snapshot_full _ _ Hloaded)
    as [[_ Hlabel Halt _ _] _ _ _ Htrie].
  assert (truthy (Some k) = Some k) as Htruthy by by destruct k.
  assert (i ∈ od_get_list k (label_to_index s)
              ++ od_get_list k (alt_label_to_index s)) as Hidx.
  { apply elem_of_app. destruct Hk as [Hk|Hk].
    - left. apply (Hlabel i E); [done | by rewrite Hk].
    - right. by apply (Halt i E (Some k)). }
  assert (k ∈ od_keys (label_to_index s) ++ od_keys (alt_label_to_index s))
    as Hkey.
  { apply elem_of_app in Hidx as [H|H]; apply elem_of_app;
      [left | right]; by eapply od_get_list_keys. }
  assert (∀ keys, k ∈ keys →
            Some E ∈ map (λ index, getitem_int s (Z.of_nat index))
                       (flat_map
                          (λ key, od_get_list key (label_to_index s)
                                  ++ od_get_list key (alt_label_to_index s))
                          (sorted len_le keys))) as Hfound.
  { intros keys Hin. apply list_elem_of_In, in_map_iff. exists i.
    split; [by rewrite getitem_int_nat|]. apply in_flat_map. exists k.
    split; apply list_elem_of_In; [by apply elem_of_sorted_len_le | done]. }
  unfold search_by_prefix. rewrite Hcache. destruct marisa_trie.
  - rewrite (Htrie eq_refl). simpl. eexists _, _. split; [done|].
    apply Hfound. unfold Trie_keys, Trie_new.
    apply list_elem_of_In, filter_In. split; [|done].
    apply list_elem_of_In, elem_of_remove_dups. unfold all_labels.
    apply list_elem_of_In, filter_In. split; [by apply list_elem_of_In|].
    apply Nat.leb_le. by apply Hlen.
  - simpl. eexists _, _. split; [done|].
    apply Hfound, list_elem_of_In, filter_In.
    split; [by apply list_elem_of_In | done].
Qed.

Lemma search_by_prefix_complete_witness :
  ∃ r s', search_by_prefix true "S.D." court_snapshot = Ok (r, s')
          ∧ Some (set_definition (Some "A federal trial court")
                    (set_alternative_labels [Some "S.D.N.Y."]
                       (set_sub_class_of
                          ["https://soli.openlegalstandard.org/RForum"]
                          (set_label
                             (Some "U.S. District Court - S.D. New York")
                             (new_OWLClass
                                "https://soli.openlegalstandard.org/RCourt")))))
            ∈ r.
Proof.
  apply (search_by_prefix_complete true court_snapshot "S.D." _ "S.D.N.Y.").
  - apply (loaded_init true court_doc). vm_compute. reflexivity.
  - vm_compute. reflexivity.
  - vm_compute. do 2 constructor.
  - right. vm_compute. constructor.
  - discriminate.
  - vm_compute. reflexivity.
  - intros _. vm_compute. lia.
Defined.

(** ** graph.py: new IRIs *)

Definition MAX_IRI_ATTEMPTS : nat := 16.

(** [c.isalnum()] on the characters of a base64 text *)
Definition isalnum (c : ascii) : bool :=
  let n := nat_of_ascii c in
  (48 <=? n) && (n <=? 57) || (65 <=? n) && (n <=? 90)
  || (97 <=? n) && (n <=? 122).

(** ["".join([c for c in s if f(c)])] *)
Fixpoint string_filter (f : ascii -> bool) (s : string) : string :=
  match s with
  | EmptyString => EmptyString
  | String c s' =>
      if f c then String c (string_filter f s') else string_filter f s'
  end.

(** [s.rstrip(c)] *)
Fixpoint rstrip (c : ascii) (s : string) : string :=
  match s with
  | EmptyString => EmptyString
  | String d s' =>
      match rstrip c s' with
      | EmptyString => if Ascii.eqb d c then EmptyString else String d EmptyString
      | rest => String d rest
      end
  end.

(** The attempts of [generate_iri] from attempt number [attempt] on;
    [encoded n] is the urlsafe base64 text of the random UUID drawn at
    attempt [n]. *)
Fixpoint generate_iri_attempts (self : SOLI) (encoded : nat -> string)
    (attempt remaining : nat) : result string :=
  match remaining with
  | O => Raise RuntimeError
  | S remaining' =>
      let base64_value := string_filter isalnum (rstrip "=" (encoded attempt)) in
      match iri_to_index self !! base64_value with
      | Some _ =>
          generate_iri_attempts self encoded (S attempt) remaining'
      | None => Ok ("https://soli.openlegalstandard.org/" +:+ base64_value)
      end
  end.

Definition generate_iri (self : SOLI) (encoded : nat -> string)
  : result string :=
  generate_iri_attempts self encoded 0 MAX_IRI_ATTEMPTS.

Lemma string_filter_isalnum_no_slash (s : string) :
  count_char "/" (string_filter isalnum s) = 0.
Proof.
  induction s as [|c s IH]; simpl; [done|].
  destruct (isalnum c) eqn:E; [|done]. simpl. rewrite IH.
  destruct (Ascii.eqb c "/") eqn:Ec; [|done].
  apply Ascii.eqb_eq in Ec. subst c. by vm_compute in E.
Qed.

Lemma generate_iri_attempts_spec (s : SOLI) (encoded : nat → string)
    (attempt remaining : nat) (r : string) :
  generate_iri_attempts s encoded attempt remaining = Ok r →
  ∃ n, attempt ≤ n < attempt + remaining
       ∧ r = SOLI_BASE +:+ string_filter isalnum (rstrip "=" (encoded n))
       ∧ iri_to_index s !! string_filter isalnum (rstrip "=" (encoded n))
         = None
       ∧ ∀ m, attempt ≤ m < n →
           is_Some (iri_to_index s
                      !! string_filter isalnum (rstrip "=" (encoded m))).
Proof.
  revert attempt. induction remaining as [|remaining IH]; intros attempt Hrun;
    simpl in Hrun; [done|].
  destruct (iri_to_index s !! _) as [i|] eqn:Ei.
  - destruct (IH _ Hrun) as (n & Hn & Hr & Hnone & Hbefore).
    exists n. split; [lia|]. split_and!; try done.
    intros m Hm. destruct (decide (m = attempt)) as [->|Hne]; [by eexists|].
    apply Hbefore. lia.
  - injection Hrun as <-. exists attempt. split; [lia|]. split_and!; try done.
    intros m Hm. lia.
Qed.

(** X17.  An IRI that [generate_iri] returns is the canonical base
    followed by the alphanumeric characters of one of the 16 drawn
    texts; normalization leaves it alone, and the token after the base
    is not a key of the IRI index.  The index is keyed by whole IRIs,
    though: on a loaded snapshot in which every entity IRI contains a
    slash, the test never rejects a draw and the first draw is
    returned, whether or not an entity with that IRI exists. *)
Theorem generate_iri_spec (marisa_trie : bool) (s : SOLI)
    (encoded : nat → string) :
  (∀ r, generate_iri s encoded = Ok r →
     ∃ n, n < MAX_IRI_ATTEMPTS
          ∧ r = SOLI_BASE +:+ string_filter isalnum (rstrip "=" (encoded n))
          ∧ normalize_iri r = r
          ∧ iri_to_index s !! string_filter isalnum (rstrip "=" (encoded n))
            = None)
  ∧ (loaded marisa_trie s →
     (∀ E, E ∈ classes s → 0 < count_char "/" (iri E)) →
     generate_iri s encoded
     = Ok (SOLI_BASE +:+ string_filter isalnum (rstrip "=" (encoded 0)))).
Proof.
  split.
  - intros r Hrun. unfold generate_iri in Hrun.
    apply generate_iri_attempts_spec in Hrun as (n & Hn & -> & Hnone & _).
    exists n. split_and!; [lia | done | apply normalize_iri_base | done].
  - intros Hloaded Hslash.
    pose proof (snap_wf _ _ (loaded_snapshot_ok _ _ Hloaded)) as Hwf.
    unfold generate_iri. simpl.
    destruct (iri_to_index s !! _) as [i|] eqn:Ei; [|done].
    destruct (wf_iri _ Hwf _ _ Ei) as (c & Hc & Hiri).
    apply list_elem_of_lookup_2, Hslash in Hc.
    rewrite Hiri, string_filter_isalnum_no_slash in Hc. lia.
Qed.

(** The first draw spells the token of an entity that exists. *)
Lemma generate_iri_spec_witness :
  generate_iri sample_snapshot (λ _, "RTax==")
  = Ok "https://soli.openlegalstandard.org/RTax"
  ∧ ∃ n, n < MAX_IRI_ATTEMPTS
         ∧ "https://soli.openlegalstandard.org/RTax"
           = SOLI_BASE +:+ string_filter isalnum (rstrip "=" "RTax==")
         ∧ normalize_iri "https://soli.openlegalstandard.org/RTax"
           = "https://soli.openlegalstandard.org/RTax"
         ∧ iri_to_index sample_snapshot
             !! string_filter isalnum (rstrip "=" "RTax==") = None.
Proof.
  destruct (generate_iri_spec true sample_snapshot (λ _, "RTax=="))
    as [Hshape Hfirst].
  assert (generate_iri sample_snapshot (λ _, "RTax==")
          = Ok "https://soli.openlegalstandard.org/RTax") as Hrun.
  { apply Hfirst.
    - apply (loaded_init true sample_doc). vm_compute. reflexivity.
    - intros E HE. vm_compute in HE.
      repeat (apply elem_of_cons in HE as [->|HE]; [vm_compute; lia|]).
      apply elem_of_nil in HE. destruct HE. }
  split; [exact Hrun | exact (Hshape _ Hrun)].
Defined.

(** ** graph.py: fetching the document, with the cache on disk *)

(** A path is the list of its components; the file system is the text
    of each file and the set of directories. *)
Definition Path : Type := list string.

Record FileSystem : Type := Build_FileSystem {
  files : gmap Path string;
  dirs : gset Path
}.

(** The path itself and its parents. *)
Fixpoint path_and_parents (p : Path) : list Path :=
  match p with
  | [] => []
  | x :: p' => [x] :: map (cons x) (path_and_parents p')
  end.

(** [path.mkdir(parents=True, exist_ok=True)] *)
Definition mkdir (p : Path) (fs : FileSystem) : FileSystem :=
  {| files := files fs; dirs := list_to_set (path_and_parents p) ∪ dirs fs |}.

(** [output_file.write(buffer)] on a file opened with ["wt"] *)
Definition write_text (p : Path) (buffer : string) (fs : FileSystem)
  : FileSystem :=
  {| files := <[p := buffer]> (files fs); dirs := dirs fs |}.

(** What an HTTP GET comes back with, as [raise_for_status] sees it. *)
Inductive Response : Type :=
| ResponseText (text' : string)
| HTTPStatusError.

Definition DEFAULT_GITHUB_OBJECT_URL : string :=
  "https://raw.githubusercontent.com".

Section LoadOwl.

(** [hashlib.blake2b(key.encode()).hexdigest()] *)
Variable blake2b_hexdigest : string -> string.

(** [client.get(url)] *)
Variable http_get : string -> Response.

(** [Path.home() / ".soli" / "cache"] *)
Variable DEFAULT_CACHE_DIR : Path.

(** The cache key of a source; shared by [load_cache] and [save_cache]. *)
Definition cache_key (source_type : string) (http_url : option string)
    (github_repo_owner github_repo_name github_repo_branch : string)
  : result string :=
  if String.eqb source_type "github" then
    Ok (github_repo_owner +:+ "/" +:+ github_repo_name +:+ "/"
        +:+ github_repo_branch)
  else if String.eqb source_type "http" then
    match http_url with
    | None => Raise ValueError
    | Some url => Ok url
    end
  else Raise ValueError.

Definition cache_file_path (cache_path : Path) (source_type cache_key' : string)
  : Path :=
  cache_path ++ [source_type; blake2b_hexdigest cache_key' +:+ ".owl"].

(** [cache_file_path.parent] *)
Definition cache_file_parent (cache_path : Path) (source_type : string) : Path :=
  cache_path ++ [source_type].

Definition load_cache (cache_path : Path) (source_type : string)
    (http_url : option string)
    (github_repo_owner github_repo_name github_repo_branch : string)
    (fs : FileSystem) : result (option string) * FileSystem :=
  match cache_key source_type http_url github_repo_owner github_repo_name
          github_repo_branch with
  | Ok key =>
      let fs := mkdir (cache_file_parent cache_path source_type) fs in
      (Ok (files fs !! cache_file_path cache_path source_type key), fs)
  | Raise e => (Raise e, fs)
  | NoFuel => (NoFuel, fs)
  end.

Definition save_cache (buffer : string) (cache_path : Path)
    (source_type : string) (http_url : option string)
    (github_repo_owner github_repo_name github_repo_branch : string)
    (fs : FileSystem) : result unit * FileSystem :=
  match cache_key source_type http_url github_repo_owner github_repo_name
          github_repo_branch with
  | Ok key =>
      let fs := mkdir (cache_file_parent cache_path source_type) fs in
      (Ok tt,
       write_text (cache_file_path cache_path source_type key) buffer fs)
  | Raise e => (Raise e, fs)
  | NoFuel => (NoFuel, fs)
  end.

Definition load_owl_http (http_url : string) : result string :=
  match http_get http_url with
  | ResponseText text' => Ok text'
  | HTTPStatusError => Raise RuntimeError
  end.

Definition load_owl_github (repo_owner repo_name repo_branch : string)
  : result string :=
  load_owl_http
    (DEFAULT_GITHUB_OBJECT_URL +:+ "/" +:+ repo_owner +:+ "/" +:+ repo_name
     +:+ "/" +:+ repo_branch +:+ "/SOLI.owl").

Definition load_owl (source_type : string) (http_url : option string)
    (github_repo_owner github_repo_name github_repo_branch : string)
    (use_cache : bool) (fs : FileSystem) : result string * FileSystem :=
  let '(cached, fs) :=
    if use_cache then
      load_cache DEFAULT_CACHE_DIR source_type http_url github_repo_owner
        github_repo_name github_repo_branch fs
    else (Ok None, fs) in
  match cached with
  | Raise e => (Raise e, fs)
  | NoFuel => (NoFuel, fs)
  | Ok owl_buffer =>
      let fetched :=
        match truthy owl_buffer with
        | Some buffer => Ok buffer
        | None =>
            if String.eqb source_type "github" then
              load_owl_github github_repo_owner github_repo_name
                github_repo_branch
            else if String.eqb source_type "http" then
              match http_url with
              | None => Raise ValueError
              | Some url => load_owl_http url
              end
            else Raise ValueError
        end in
      match fetched with
      | Raise e => (Raise e, fs)
      | NoFuel => (NoFuel, fs)
      | Ok buffer =>
          if use_cache then
            match save_cache buffer DEFAULT_CACHE_DIR source_type http_url
                    github_repo_owner github_repo_name github_repo_branch fs
            with
            | (Ok _, fs) => (Ok buffer, fs)
            | (Raise e, fs) => (Raise e, fs)
            | (NoFuel, fs) => (NoFuel, fs)
            end
          else (Ok buffer, fs)
      end
  end.

End LoadOwl.




(** X18.  [load_owl] raises [ValueError] without touching the file
    system when the source type is neither ["github"] nor ["http"], or
    is ["http"] without a URL, with the cache or without it.  Without
    the cache it never changes the file system, and what it returns
    does not depend on what the file system holds. *)
Theorem load_owl_edge_cases (blake2b_hexdigest : string → string)
    (http_get : string → Response) (DEFAULT_CACHE_DIR : Path)
    (source_type : string) (http_url : option string)
    (owner name branch : string) (use_cache : bool) (fs fs0 : FileSystem) :
  ((source_type ≠ "github" ∧ source_type ≠ "http")
   ∨ (source_type = "http" ∧ http_url = None) →
   load_owl blake2b_hexdigest http_get DEFAULT_CACHE_DIR source_type http_url
     owner name branch use_cache fs = (Raise ValueError, fs))
  ∧ (load_owl blake2b_hexdigest http_get DEFAULT_CACHE_DIR source_type
       http_url owner name branch false fs).2 = fs
  ∧ (load_owl blake2b_hexdigest http_get DEFAULT_CACHE_DIR source_type
       http_url owner name branch false fs).1
    = (load_owl blake2b_hexdigest http_get DEFAULT_CACHE_DIR source_type
         http_url owner name branch false fs0).1.
Proof.
  split_and!.
  - intros [[Hg Hh] | [-> ->]].
    + apply String.eqb_neq in Hg, Hh.
      unfold load_owl, load_cache, cache_key. rewrite Hg, Hh.
      by destruct use_cache.
    + unfold load_owl, load_cache, cache_key. simpl. by destruct use_cache.
  - unfold load_owl. simpl.
    by repeat (case_match; simpl; try done).
  - unfold load_owl. simpl.
    by repeat (case_match; simpl; try done).
Qed.

Lemma load_owl_edge_cases_witness :
  load_owl (λ k, k) (λ _, ResponseText "<rdf/>") ["cache"] "ftp" None
    "alea-institute" "soli" "1.0.0" true (Build_FileSystem ∅ ∅)
  = (Raise ValueError, Build_FileSystem ∅ ∅)
  ∧ (load_owl (λ k, k) (λ _, ResponseText "<rdf/>") ["cache"] "ftp" None
       "alea-institute" "soli" "1.0.0" false (Build_FileSystem ∅ ∅)).2
    = Build_FileSystem ∅ ∅.
Proof.
  destruct (load_owl_edge_cases (λ k, k) (λ _, ResponseText "<rdf/>")
              ["cache"] "ftp" None "alea-institute" "soli" "1.0.0" true
              (Build_FileSystem ∅ ∅) (Build_FileSystem ∅ ∅)) as (H1 & _ & _).
  destruct (load_owl_edge_cases (λ k, k) (λ _, ResponseText "<rdf/>")
              ["cache"] "ftp" None "alea-institute" "soli" "1.0.0" false
              (Build_FileSystem ∅ ∅) (Build_FileSystem ∅ ∅)) as (_ & H2 & _).
  split; [apply H1; left; split; discriminate | exact H2].
Defined.



(** ** models.py: an entity as an XML element, and back *)

(** [sorted(self.translations.items())]: the keys of a dictionary are
    distinct, so the order of the language tags decides. *)
Definition sorted_items (translations' : odict (option string))
  : list (string * option string) :=
  sorted (fun x y => String.leb (fst x) (fst y)) translations'.

Definition optional_element (tag' : string) (value : option string)
  : list Element :=
  match truthy value with
  | Some _ => [mkElement tag' [] value []]
  | None => []
  end.

Definition to_owl_element (self : OWLClass) : Element :=
  mkElement (get_ns_tag "owl" "Class") [(get_ns_tag "rdf" "about", iri self)]
    None
    (map (fun sub_class_of' =>
            mkElement (get_ns_tag "rdfs" "subClassOf")
              [(get_ns_tag "rdf" "resource", sub_class_of')] None [])
       (sub_class_of self)
     ++ match truthy (is_defined_by self) with
        | Some is_defined_by' =>
            [mkElement (get_ns_tag "rdfs" "isDefinedBy")
               [(get_ns_tag "rdf" "resource", is_defined_by')] None []]
        | None => []
        end
     ++ [mkElement (get_ns_tag "rdfs" "label") [] (label self) []]
     ++ map (fun alt_label =>
               mkElement (get_ns_tag "skos" "altLabel") [] alt_label [])
          (alternative_labels self)
     ++ map (fun '(lang, translation) =>
               mkElement (get_ns_tag "skos" "altLabel")
                 [(get_ns_tag "xml" "lang", lang)] translation [])
          (sorted_items (translations self))
     ++ optional_element (get_ns_tag "skos" "hiddenLabel") (hidden_label self)
     ++ optional_element (get_ns_tag "skos" "prefLabel")
          (preferred_label self)
     ++ optional_element (get_ns_tag "skos" "definition") (definition self)
     ++ map (fun example =>
               mkElement (get_ns_tag "skos" "example") [] example [])
          (examples self)).

(** What the parser makes of one child, the state aside. *)
Definition entity_step (c : OWLClass) (child : Element) : OWLClass :=
  (parse_owl_class_child child (c, new_SOLI)).1.

Lemma parse_owl_class_child_entity (child : Element) (c : OWLClass) (s : SOLI) :
  (parse_owl_class_child child (c, s)).1 = entity_step c child.
Proof.
  unfold entity_step, parse_owl_class_child. by repeat case_match.
Qed.

Lemma parse_owl_class_children_entity (l : list Element) (c : OWLClass)
    (s : SOLI) :
  (fold_left (λ st child, parse_owl_class_child child st) l (c, s)).1
  = fold_left entity_step l c.
Proof.
  revert c s. induction l as [|child l IH]; intros c s; [done|].
  cbn [fold_left].
  destruct (parse_owl_class_child child (c, s)) as [c1 s1] eqn:E.
  rewrite IH. f_equal.
  by rewrite <- (parse_owl_class_child_entity child c s), E.
Qed.

(** Reduce a step of the parser on an element of a known tag. *)
Ltac entity_step_simpl :=
  unfold entity_step, parse_owl_class_child; cbn [tag attrib text od_get];
  decide_tags; cbn [fst].

Definition nonempty (l : list string) : list string :=
  List.filter (fun x => negb (String.eqb x "")) l.

Lemma entity_steps_sub_class_of (ps : list string) (c : OWLClass) :
  fold_left entity_step
    (map (λ p, mkElement (get_ns_tag "rdfs" "subClassOf")
                 [(get_ns_tag "rdf" "resource", p)] None []) ps) c
  = set_sub_class_of (sub_class_of c ++ nonempty ps) c.
Proof.
  revert c. induction ps as [|p ps IH]; intros c; simpl.
  - rewrite app_nil_r. by destruct c.
  - rewrite IH. entity_step_simpl. destruct p as [|a p]; simpl.
    + done.
    + unfold set_sub_class_of. simpl. by rewrite <- app_assoc.
Qed.

Lemma entity_steps_alternative_labels (als : list (option string))
    (c : OWLClass) :
  fold_left entity_step
    (map (λ a, mkElement (get_ns_tag "skos" "altLabel") [] a []) als) c
  = set_alternative_labels (alternative_labels c ++ als) c.
Proof.
  revert c. induction als as [|a als IH]; intros c; simpl.
  - rewrite app_nil_r. by destruct c.
  - rewrite IH. entity_step_simpl.
    unfold set_alternative_labels. simpl. by rewrite <- app_assoc.
Qed.

Lemma entity_steps_examples (es : list (option string)) (c : OWLClass) :
  fold_left entity_step
    (map (λ e, mkElement (get_ns_tag "skos" "example") [] e []) es) c
  = set_examples (examples c ++ es) c.
Proof.
  revert c. induction es as [|e es IH]; intros c; simpl.
  - rewrite app_nil_r. by destruct c.
  - rewrite IH. entity_step_simpl.
    unfold set_examples. simpl. by rewrite <- app_assoc.
Qed.

(** What the parser makes of the translation elements: an empty
    language tag turns a translation into an alternative label. *)
Definition retranslate (c : OWLClass) (item : string * option string)
  : OWLClass :=
  match item.1 with
  | EmptyString =>
      set_alternative_labels (alternative_labels c ++ [item.2]) c
  | lang => set_translations (od_set lang item.2 (translations c)) c
  end.

Lemma entity_steps_translations (items : list (string * option string))
    (c : OWLClass) :
  fold_left entity_step
    (map (λ '(lang, translation),
            mkElement (get_ns_tag "skos" "altLabel")
              [(get_ns_tag "xml" "lang", lang)] translation []) items) c
  = fold_left retranslate items c.
Proof.
  revert c. induction items as [|[lang t] items IH]; intros c; simpl; [done|].
  rewrite IH. f_equal. entity_step_simpl. by destruct lang.
Qed.

Lemma retranslate_fields (items : list (string * option string))
    (c : OWLClass) :
  let c' := fold_left retranslate items c in
  c' = set_translations (translations c')
         (set_alternative_labels (alternative_labels c') c)
  ∧ alternative_labels c'
    = alternative_labels c
      ++ map snd (List.filter (λ item, String.eqb item.1 "") items).
Proof.
  revert c. induction items as [|[lang t] items IH]; intros c; simpl.
  - split; [by destruct c | by rewrite app_nil_r].
  - destruct (IH (retranslate c (lang, t))) as [H1 H2]. split.
    + rewrite H1 at 1. unfold retranslate. simpl. by destruct lang.
    + rewrite H2. unfold retranslate. simpl. destruct lang; simpl; [|done].
      by rewrite <- app_assoc.
Qed.

Lemma entity_steps_optional (tag' : string) (value : option string)
    (c : OWLClass) (set : option string → OWLClass → OWLClass) :
  (∀ v c0, entity_step c0 (mkElement tag' [] v []) = set v c0) →
  fold_left entity_step (optional_element tag' value) c
  = match truthy value with
    | Some _ => set value c
    | None => c
    end.
Proof.
  intros Hstep. unfold optional_element.
  destruct (truthy value); simpl; [apply Hstep | done].
Qed.

Lemma retranslate_translations (items : list (string * option string))
    (c : OWLClass) :
  translations (fold_left retranslate items c)
  = fold_left (λ d item, od_set item.1 item.2 d)
      (List.filter (λ item, negb (String.eqb item.1 "")) items)
      (translations c).
Proof.
  revert c. induction items as [|[lang t] items IH]; intros c; simpl; [done|].
  rewrite IH. unfold retranslate. simpl. by destruct lang.
Qed.

Lemma truthy_idem (value : option string) (v : string) :
  truthy value = Some v → value = Some v ∧ truthy (Some v) = Some v.
Proof.
  destruct value as [[|a w]|]; simpl; intros H; simplify_eq; done.
Qed.

Lemma entity_step_label (v : option string) (c : OWLClass) :
  entity_step c (mkElement (get_ns_tag "rdfs" "label") [] v []) = set_label v c.
Proof. by entity_step_simpl. Qed.

Lemma entity_steps_is_defined_by (value : option string) (c : OWLClass) :
  fold_left entity_step
    match truthy value with
    | Some is_defined_by' =>
        [mkElement (get_ns_tag "rdfs" "isDefinedBy")
           [(get_ns_tag "rdf" "resource", is_defined_by')] None []]
    | None => []
    end c
  = match truthy value with
    | Some _ => set_is_defined_by (truthy value) c
    | None => c
    end.
Proof.
  destruct (truthy value) as [d|] eqn:Ed; [|done].
  apply truthy_idem in Ed as [_ Ed].
  cbn [fold_left]. entity_step_simpl. by rewrite Ed.
Qed.

(** The entity that the parser builds from [to_owl_element c]. *)
Definition reparsed (c : OWLClass) : OWLClass :=
  fold_left entity_step (getchildren (to_owl_element c))
    (new_OWLClass (iri c)).

Lemma reparsed_fields (c : OWLClass) :
  let c' := reparsed c in
  iri c' = iri c ∧ label c' = label c
  ∧ sub_class_of c' = nonempty (sub_class_of c)
  ∧ is_defined_by c' = truthy (is_defined_by c)
  ∧ alternative_labels c'
    = alternative_labels c
      ++ map snd (List.filter (λ item, String.eqb item.1 "")
                    (sorted_items (translations c)))
      ++ match truthy (hidden_label c) with
         | Some _ => [hidden_label c]
         | None => []
         end
  ∧ translations c'
    = fold_left (λ d item, od_set item.1 item.2 d)
        (List.filter (λ item, negb (String.eqb item.1 ""))
           (sorted_items (translations c))) []
  ∧ hidden_label c' = truthy (hidden_label c)
  ∧ preferred_label c' = truthy (preferred_label c)
  ∧ definition c' = truthy (definition c)
  ∧ examples c' = examples c
  ∧ parent_class_of c' = [] ∧ see_also c' = [] ∧ notes c' = []
  ∧ deprecated c' = false
  ∧ (comment c', history_note c', editorial_note c', in_scheme c',
     identifier c', description c', source c', country c')
    = (None, None, None, None, None, None, None, None).
Proof.
  cbv zeta. unfold reparsed, to_owl_element. cbn [getchildren].
  rewrite !fold_left_app.
  rewrite entity_steps_sub_class_of, entity_steps_is_defined_by.
  cbn [fold_left]. rewrite entity_step_label.
  rewrite entity_steps_alternative_labels, entity_steps_translations.
  rewrite entity_steps_examples.
  rewrite (entity_steps_optional _ _ _ (λ v c0, set_definition v c0))
    by (intros; by entity_step_simpl).
  rewrite (entity_steps_optional _ _ _ (λ v c0, set_preferred_label v c0))
    by (intros; by entity_step_simpl).
  rewrite (entity_steps_optional _ _ _
             (λ v c0, set_alternative_labels (alternative_labels c0 ++ [v])
                        (set_hidden_label v c0)))
    by (intros; by entity_step_simpl).
  match goal with
  | |- context [fold_left retranslate ?items ?base] =>
      pose proof (retranslate_fields items base) as [Hc Ha];
      pose proof (retranslate_translations items base) as Ht;
      set (r := fold_left retranslate items base) in *
  end.
  remember (translations r) as tr eqn:Etr.
  remember (alternative_labels r) as al eqn:Eal.
  clear Etr Eal. clearbody r. subst r tr al.
  destruct (truthy (is_defined_by c)) as [d|] eqn:Ed;
    [apply truthy_idem in Ed as [Ed' Ed]|];
    (destruct (truthy (hidden_label c)) as [h|] eqn:Eh;
       [apply truthy_idem in Eh as [Eh' Eh]|]);
    (destruct (truthy (preferred_label c)) as [p|] eqn:Ep;
       [apply truthy_idem in Ep as [Ep' Ep]|]);
    (destruct (truthy (definition c)) as [df|] eqn:Edf;
       [apply truthy_idem in Edf as [Edf' Edf]|]);
    cbn -[truthy nonempty sorted_items];
    rewrite ?app_nil_r, ?app_assoc, ?Ed, ?Eh', ?Ep', ?Edf'; by split_and!.
Qed.

(** X20.  Parsing the element that [to_owl_element] builds for an
    entity with a label, or for the root sentinel, stores one entity.
    It has the IRI, label and examples of the original; the declared
    parents that are not empty; [is_defined_by], [hidden_label],
    [preferred_label] and [definition] where they are not empty.  Its
    alternative labels are those of the original, then the translations
    whose language tag is empty, then the hidden label once more: an
    entity with a hidden label does not come back as it was.  See-also
    references, comment and notes are lost.  An entity without a label
    that is not the root sentinel is not stored at all. *)
Theorem to_owl_element_round_trip (c : OWLClass) (s : SOLI) :
  (is_Some (label c) ∨ iri c = OWL_THING →
   ∃ c', classes (parse_owl_class (to_owl_element c) s) = classes s ++ [c']
         ∧ iri c' = iri c ∧ label c' = label c ∧ examples c' = examples c
         ∧ sub_class_of c' = nonempty (sub_class_of c)
         ∧ is_defined_by c' = truthy (is_defined_by c)
         ∧ hidden_label c' = truthy (hidden_label c)
         ∧ preferred_label c' = truthy (preferred_label c)
         ∧ definition c' = truthy (definition c)
         ∧ alternative_labels c'
           = alternative_labels c
             ++ map snd (List.filter (λ item, String.eqb item.1 "")
                           (sorted_items (translations c)))
             ++ match truthy (hidden_label c) with
                | Some _ => [hidden_label c]
                | None => []
                end
         ∧ see_also c' = [] ∧ comment c' = None ∧ notes c' = []
         ∧ parent_class_of c' = [])
  ∧ (label c = None → iri c ≠ OWL_THING →
     classes (parse_owl_class (to_owl_element c) s) = classes s).
Proof.
  assert (od_get (get_ns_tag "rdf" "about") (attrib (to_owl_element c))
          = Some (iri c)) as Habout.
  { unfold to_owl_element. cbn [attrib od_get]. by decide_tags. }
  destruct (reparsed_fields c) as (Hiri & Hlabel & Hsub & Hdef & Halt & _
    & Hhid & Hpref & Hdefn & Hex & Hpar & Hsee & Hnotes & _ & Hrest).
  unfold parse_owl_class. rewrite Habout.
  destruct (fold_left _ _ _) as [c1 s1] eqn:E.
  assert (c1 = reparsed c) as ->.
  { unfold reparsed.
    by rewrite <- (parse_owl_class_children_entity _ _ s), E. }
  pose proof (parse_owl_class_children_frame _ _ _ _ _ E) as [_ (Hc & _)].
  unfold is_valid. rewrite Hlabel, Hiri. split.
  - intros Hvalid.
    assert (negb (match label c with Some _ => true | None => false end)
            && negb (String.eqb (iri c) OWL_THING) = false) as ->.
    { destruct Hvalid as [[l ->] | ->]; [done|].
      by rewrite String.eqb_refl, andb_false_r. }
    exists (reparsed c). rewrite index_class_classes, Hc.
    injection Hrest as Hcomment _.
    by split_and!.
  - intros Hnone Hthing. rewrite Hnone.
    apply String.eqb_neq in Hthing. rewrite Hthing. simpl. by self_simpl.
Qed.

(** An entity with a hidden label, as the parser builds it. *)
Definition sdny : OWLClass :=
  set_alternative_labels [Some "S.D.N.Y."; Some "SDNY"]
    (set_hidden_label (Some "SDNY")
       (set_label (Some "U.S. District Court - S.D. New York")
          (new_OWLClass "https://soli.openlegalstandard.org/RCourt"))).

Lemma to_owl_element_round_trip_witness :
  ∃ c', classes (parse_owl_class (to_owl_element sdny) new_SOLI) = [c']
        ∧ label c' = label sdny
        ∧ alternative_labels c'
          = [Some "S.D.N.Y."; Some "SDNY"; Some "SDNY"].
Proof.
  destruct (to_owl_element_round_trip sdny new_SOLI) as [H _].
  destruct H as (c' & Hc & _ & Hl & _ & _ & _ & _ & _ & _ & Ha & _).
  - left. by eexists.
  - exists c'. split; [exact Hc|]. split; [exact Hl|].
    rewrite Ha. vm_compute. reflexivity.
Defined.

(** ** models.py: an entity as JSON-LD *)

#[local] Unset Elimination Schemes.
Inductive Json : Type :=
| JNull
| JBool (b : bool)
| JString (s : string)
| JArray (items : list Json)
| JObject (members : list (option string * Json)).
#[local] Set Elimination Schemes.

(** An [Optional[str]] as a JSON value. *)
Definition json_opt (o : option string) : Json :=
  match o with
  | Some s => JString s
  | None => JNull
  end.

(** [if value: data[key] = value] for an optional string *)
Definition set_if_str (key : string) (value : option string) (data : odict Json)
  : odict Json :=
  match truthy value with
  | Some _ => od_set key (json_opt value) data
  | None => data
  end.

(** [if values: data[key] = []; for v in values: data[key].append(f(v))] *)
Definition set_if_list {A} (key : string) (f : A -> Json) (values : list A)
    (data : odict Json) : odict Json :=
  match values with
  | [] => data
  | _ => od_set key (JArray (map f values)) data
  end.

(** One turn of the loop over the translations: the list under
    ["skos:altLabel"] is made anew, with this translation only. *)
Definition set_translation (data : odict Json) (item : string * option string)
  : odict Json :=
  od_set "skos:altLabel"
    (JArray [JObject [(Some "@value", json_opt (snd item));
                      (Some "@language", JString (fst item))]]) data.

(** The dictionary that [to_jsonld] returns, in insertion order.  The
    ["@context"] literal of the source lists the entries of [NSMAP]. *)
Definition to_jsonld (self : OWLClass) : odict Json :=
  let data :=
    [ ("@context",
       JObject (map (fun '(ns, uri) => (ns, JString uri)) NSMAP));
      ("@id", JString (iri self));
      ("@type", JString "owl:Class");
      ("rdfs:label", json_opt (label self)) ] in
  let data := set_if_str "rdfs:isDefinedBy" (is_defined_by self) data in
  let data := set_if_list "rdfs:seeAlso" json_opt (see_also self) data in
  let data := set_if_str "rdfs:comment" (comment self) data in
  let data :=
    if deprecated self then od_set "owl:deprecated" (JBool true) data
    else data in
  let data := set_if_str "skos:prefLabel" (preferred_label self) data in
  let data :=
    set_if_list "skos:altLabel" json_opt (alternative_labels self) data in
  let data :=
    fold_left set_translation (sorted_items (translations self)) data in
  let data :=
    set_if_list "rdfs:subClassOf"
      (fun p => JObject [(Some "@id", JString p)]) (sub_class_of self) data in
  let data := set_if_str "skos:hiddenLabel" (hidden_label self) data in
  let data := set_if_str "skos:definition" (definition self) data in
  let data := set_if_list "skos:example" json_opt (examples self) data in
  let data := set_if_list "skos:note" json_opt (notes self) data in
  let data := set_if_str "skos:historyNote" (history_note self) data in
  let data := set_if_str "skos:editorialNote" (editorial_note self) data in
  let data := set_if_str "skos:inScheme" (in_scheme self) data in
  let data := set_if_str "dc:identifier" (identifier self) data in
  let data := set_if_str "dc:description" (description self) data in
  let data := set_if_str "dc:source" (source self) data in
  set_if_str "v1:country" (country self) data.

Lemma od_get_set_if_str (k key : string) (value : option string) data :
  String.eqb key k = false →
  od_get k (set_if_str key value data) = od_get k data.
Proof.
  intros Hne. unfold set_if_str. destruct (truthy value); [|done].
  by rewrite od_get_set, Hne.
Qed.

Lemma od_get_set_if_list {A} (k key : string) (f : A → Json) (values : list A)
    data :
  String.eqb key k = false →
  od_get k (set_if_list key f values data) = od_get k data.
Proof.
  intros Hne. unfold set_if_list. destruct values; [done|].
  by rewrite od_get_set, Hne.
Qed.

Lemma od_get_set_translations (k : string)
    (items : list (string * option string)) data :
  od_get k (fold_left set_translation items data)
  = if String.eqb "skos:altLabel" k then
      match last items with
      | Some item =>
          Some (JArray [JObject [(Some "@value", json_opt item.2);
                                 (Some "@language", JString item.1)]])
      | None => od_get k data
      end
    else od_get k data.
Proof.
  revert data. induction items as [|item items IH]; intros data.
  - cbn [fold_left last]. by destruct (String.eqb "skos:altLabel" k).
  - cbn [fold_left]. rewrite IH.
    assert (od_get k (set_translation data item)
            = if String.eqb "skos:altLabel" k then
                Some (JArray [JObject [(Some "@value", json_opt item.2);
                                       (Some "@language", JString item.1)]])
              else od_get k data) as ->.
    { unfold set_translation. by rewrite od_get_set. }
    destruct (String.eqb "skos:altLabel" k); [|done].
    destruct items as [|item' items]; [done|].
    change (last (item :: item' :: items)) with (last (item' :: items)).
    destruct (last (item' :: items)) eqn:El; [done|].
    by apply last_None in El.
Qed.

(** Look a key up in [to_jsonld c], step by step from the last
    assignment back. *)
Ltac jsonld_lookup :=
  unfold to_jsonld; cbv zeta;
  repeat first
    [ rewrite od_get_set_if_str by reflexivity
    | rewrite od_get_set_if_list by reflexivity ].

(** X21.  In the JSON-LD of an entity, ["@id"] is its IRI and
    ["rdfs:label"] its label.  When the entity has translations,
    ["skos:altLabel"] holds one object and nothing else: the last
    translation in the order of the language tags; the alternative
    labels and the other translations are not in it.  Without
    translations it lists the alternative labels, and is absent when
    there are none. *)
Theorem to_jsonld_alt_labels (c : OWLClass) :
  od_get "@id" (to_jsonld c) = Some (JString (iri c))
  ∧ od_get "rdfs:label" (to_jsonld c) = Some (json_opt (label c))
  ∧ od_get "skos:altLabel" (to_jsonld c)
    = match last (sorted_items (translations c)) with
      | Some item =>
          Some (JArray [JObject [(Some "@value", json_opt item.2);
                                 (Some "@language", JString item.1)]])
      | None =>
          match alternative_labels c with
          | [] => None
          | labels => Some (JArray (map json_opt labels))
          end
      end.
Proof.
  split_and!.
  - jsonld_lookup. rewrite od_get_set_translations.
    cbn [String.eqb Ascii.eqb Bool.eqb andb]. jsonld_lookup.
    destruct (deprecated c); [rewrite od_get_set|]; jsonld_lookup; done.
  - jsonld_lookup. rewrite od_get_set_translations.
    cbn [String.eqb Ascii.eqb Bool.eqb andb]. jsonld_lookup.
    destruct (deprecated c); [rewrite od_get_set|]; jsonld_lookup; done.
  - jsonld_lookup. rewrite od_get_set_translations, String.eqb_refl.
    destruct (last _); [done|].
    unfold set_if_list at 1.
    destruct (alternative_labels c) as [|a als].
    + jsonld_lookup.
      destruct (deprecated c); [rewrite od_get_set|]; jsonld_lookup; done.
    + by rewrite od_get_set, String.eqb_refl.
Qed.

Lemma to_jsonld_alt_labels_witness :
  od_get "skos:altLabel"
    (to_jsonld
       (set_translations [("fr", Some "Tribunal"); ("de", Some "Gericht")]
          sdny))
  = Some (JArray [JObject [(Some "@value", JString "Tribunal");
                           (Some "@language", JString "fr")]])
  ∧ od_get "skos:altLabel" (to_jsonld sdny)
    = Some (JArray [JString "S.D.N.Y."; JString "SDNY"]).
Proof.
  destruct (to_jsonld_alt_labels
              (set_translations [("fr", Some "Tribunal"); ("de", Some "Gericht")]
                 sdny)) as (_ & _ & H1).
  destruct (to_jsonld_alt_labels sdny) as (_ & _ & H2).
  split; [rewrite H1 | rewrite H2]; vm_compute; reflexivity.
Defined.
